(** * DCSim: workload sampling, dataset assignment, streaming task graphs
      and cache placement

    A shallow embedding of [src/Workload.cpp] and
    [sgbatch/src/SimpleSimulator.cpp].

    Conventions of the embedding:
    - a C++ [double] is an exact rational ([Q]); rounding, infinities and
      NaN are outside the model. The module [Machine] repeats the
      builder and the staging loop with the operations on doubles as
      parameters, for what does not depend on exact arithmetic;
    - [int] is a [Z] wrapped to 32 bits where the source converts to it,
      [size_t] loop counters are [nat];
    - the Mersenne twister is an abstract state [G]; a distribution is a
      function [G -> A * G] that returns the draw and the next state;
    - a [WorkflowTask*] is the position of the task in the workflow's task
      list (its creation index), a null pointer is [None];
    - a [while] loop whose exit depends on the draws runs on fuel, and
      [Unfinished] says that the fuel did not suffice. *)

From Stdlib Require Import QArith Qround Lqa.
From Stdlib Require Floats.SpecFloat.
From stdpp Require Import base list strings pretty gmap.

Open Scope Z_scope.

(** ** Outcomes of a call *)

Inductive exn : Type :=
| RuntimeError (what : string)   (* std::runtime_error *)
| LengthError.                   (* std::length_error of vector::reserve *)

Inductive outcome (A : Type) : Type :=
| Done (a : A)        (* normal return *)
| Throw (e : exn)     (* a C++ exception leaves the function *)
| Fault               (* dereference of a null pointer *)
| Unfinished.         (* a sampling loop is still running *)
Arguments Done {A} a.
Arguments Throw {A} e.
Arguments Fault {A}.
Arguments Unfinished {A}.

#[global] Instance outcome_bind : MBind outcome := fun A B k m =>
  match m with
  | Done a => k a
  | Throw e => Throw e
  | Fault => Fault
  | Unfinished => Unfinished
  end.

#[global] Instance outcome_ret : MRet outcome := fun A a => Done a.

(** ** Machine integers *)

Definition to_size_t (z : Z) : Z := z mod 2 ^ 64.
Definition to_int (z : Z) : Z := (z + 2 ^ 31) mod 2 ^ 32 - 2 ^ 31.

(** ** Doubles as rationals *)

Definition Qlt_bool (x y : Q) : bool := negb (Qle_bool y x).

(** [static_cast<size_t>(x)] for [0 <= x]: truncation. *)
Definition Qto_size_t (x : Q) : nat := Z.to_nat (Qfloor x).

Definition Qsum (l : list Q) : Q := foldr Qplus (0%Q) l.

(** [std::to_string] of an unsigned counter. *)
Definition to_string (n : nat) : string := pretty n.

(** ** Data of Workload.cpp *)

Record DataFile := mkDataFile { file_id : string; file_size : Q }.

Record Dataset := mkDataset { name : string; files : list DataFile }.

Record JobSpecification := mkJobSpecification {
  jobid : string;
  cores : Z;
  total_flops : Q;
  total_mem : Q;
  outfile : DataFile;
  infiles : list DataFile
}.

Inductive WorkloadType := Streaming | Copy.

Section Sampling.
Context {G : Type}.

(** [x = dist(gen); while (reject x) x = dist(gen);] *)
Fixpoint resample {A} (reject : A -> bool) (dist : G -> A * G)
    (fuel : nat) (x : A) (g : G) : outcome (A * G) :=
  if reject x then
    match fuel with
    | O => Unfinished
    | S fuel' => let '(x', g') := dist g in resample reject dist fuel' x' g'
    end
  else Done (x, g).

Definition sample {A} (reject : A -> bool) (dist : G -> A * G)
    (fuel : nat) (g : G) : outcome (A * G) :=
  let '(x, g') := dist g in resample reject dist fuel x g'.

(** The state after [n] turns of the loop body, whatever the test says. *)
Fixpoint draws {A} (dist : G -> A * G) (n : nat) (x : A) (g : G) : A * G :=
  match n with
  | O => (x, g)
  | S n' => let '(x', g') := dist g in draws dist n' x' g'
  end.
End Sampling.

Definition negative (x : Q) : bool := Qlt_bool x 0.
Definition below_one (c : Z) : bool := c <? 1.

Record Workload {G : Type} := mkWorkload {
  generator : G;
  core_dist : G -> Z * G;
  flops_dist : G -> Q * G;
  mem_dist : G -> Q * G;
  outsize_dist : G -> Q * G;
  job_batch : list JobSpecification;
  workload_type : WorkloadType;
  submit_arrival_time : Q;
  infile_datasets : list string
}.
Arguments Workload G : clear implicits.

Section WorkloadCpp.
Context {G : Type}.

Definition set_generator (w : Workload G) (g : G) : Workload G :=
  mkWorkload G g (core_dist w) (flops_dist w) (mem_dist w) (outsize_dist w)
    (job_batch w) (workload_type w) (submit_arrival_time w)
    (infile_datasets w).

Definition set_job_batch (w : Workload G) (b : list JobSpecification)
    : Workload G :=
  mkWorkload G (generator w) (core_dist w) (flops_dist w) (mem_dist w)
    (outsize_dist w) b (workload_type w) (submit_arrival_time w)
    (infile_datasets w).

(** [Workload::sampleJob] *)
Definition sampleJob (fuel : nat) (w : Workload G) (job_id : nat)
    (name_suffix potential_separator : string)
    : outcome (JobSpecification * Workload G) :=
  let j := job_id in
  '(req_cores, g) ← sample below_one (core_dist w) fuel (generator w);
  '(dflops, g) ← sample negative (flops_dist w) fuel g;
  '(dmem, g) ← sample negative (mem_dist w) fuel g;
  '(doutsize, g) ← sample negative (outsize_dist w) fuel g;
  Done (mkJobSpecification
          ("job_" +:+ name_suffix +:+ potential_separator +:+ to_string j)
          req_cores dflops dmem
          (mkDataFile
             ("outfile_" +:+ name_suffix +:+ potential_separator
                +:+ to_string j) doutsize)
          [],
        set_generator w g).

(** The loop of the constructor: [batch.push_back(sampleJob(j, ...))]. *)
Fixpoint sample_batch (fuel : nat) (n : nat) (j : nat) (w : Workload G)
    (name_suffix potential_separator : string)
    (batch : list JobSpecification)
    : outcome (list JobSpecification * Workload G) :=
  match n with
  | O => Done (batch, w)
  | S n' =>
      '(job, w') ← sampleJob fuel w j name_suffix potential_separator;
      sample_batch fuel n' (S j) w' name_suffix potential_separator
        (batch ++ [job])
  end.

(** [Workload::Workload], given the four distributions that
    [initializeIntRNG] and [initializeDoubleRNG] built. *)
Definition Workload_new (fuel : nat) (num_jobs : nat)
    (cores : G -> Z * G) (flops memory outfile_size : G -> Q * G)
    (wtype : WorkloadType) (name_suffix : string) (arrival_time : Q)
    (gen : G) (infile_datasets : list string) : outcome (Workload G) :=
  let potential_separator := if String.eqb name_suffix "" then "" else "_" in
  let w0 := mkWorkload G gen cores flops memory outfile_size [] wtype
              arrival_time [] in
  '(batch, w) ← sample_batch fuel num_jobs 0 w0 name_suffix
                   potential_separator [];
  Done (mkWorkload G (generator w) cores flops memory outfile_size batch
          wtype arrival_time infile_datasets).

Definition add_infiles (fs : list DataFile) (job : JobSpecification)
    : JobSpecification :=
  mkJobSpecification (jobid job) (cores job) (total_flops job)
    (total_mem job) (outfile job) (infiles job ++ fs).

(** The [for (auto j = 0; j < num_jobs; ++j)] loop of [assignFiles];
    [n] counts the turns that are left. *)
Fixpoint assign_loop (n : nat) (j k : Z) (all_files : list DataFile)
    (batch : list JobSpecification) : list JobSpecification :=
  match n with
  | O => batch
  | S n' =>
      let beg := j * k in
      if Z.of_nat (length all_files) - beg <? k then
        alter (add_infiles (drop (Z.to_nat beg) all_files)) (Z.to_nat j)
          batch
      else
        assign_loop n' (j + 1) k all_files
          (alter (add_infiles
                    (take (Z.to_nat k) (drop (Z.to_nat beg) all_files)))
             (Z.to_nat j) batch)
  end.

Definition matching (names : list string) (dataset_specs : list Dataset)
    : list Dataset :=
  filter (fun ds => name ds ∈ names) dataset_specs.

Definition count_files (matching_ds : list Dataset) : Z :=
  fold_left
    (fun sum ds =>
       to_int (to_size_t (to_size_t sum + Z.of_nat (length (files ds)))))
    matching_ds 0.

(** [Workload::assignFiles] *)
Definition assignFiles (w : Workload G) (dataset_specs : list Dataset)
    : outcome (Workload G) :=
  let matching_ds := matching (infile_datasets w) dataset_specs in
  match matching_ds with
  | [] => Throw (RuntimeError
            "ERROR: no valid infile dataset name in workload configuration.")
  | _ =>
      let num_files := count_files matching_ds in
      (* all_files.reserve(num_files) with a negative int *)
      if num_files <? 0 then Throw LengthError else
      let all_files := concat (map files matching_ds) in
      let num_jobs := to_int (Z.of_nat (length (job_batch w))) in
      if num_jobs =? 0 then Done w else
      let k := Z.quot num_files num_jobs in
      Done (set_job_batch w
              (assign_loop (Z.to_nat num_jobs) 0 k all_files (job_batch w)))
  end.
End WorkloadCpp.

(** ** The WRENCH workflow, as far as SimpleSimulator.cpp uses it *)

Record WorkflowTask := mkTask {
  task_id : string;
  task_flops : Q;
  min_num_cores : nat;
  max_num_cores : nat;
  memory_requirement : Q;
  input_files : list DataFile;
  output_files : list DataFile
}.

Record Workflow := mkWorkflow {
  tasks : list WorkflowTask;
  data_files : list DataFile;
  control_deps : list (nat * nat)      (* (parent, child) *)
}.

Definition empty_workflow : Workflow := mkWorkflow [] [] [].

Definition addTask (id : string) (flops : Q) (min_cores max_cores : nat)
    (memory : Q) (wf : Workflow) : nat * Workflow :=
  (length (tasks wf),
   mkWorkflow (tasks wf ++ [mkTask id flops min_cores max_cores memory [] []])
     (data_files wf) (control_deps wf)).

Definition addFile (id : string) (size : Q) (wf : Workflow)
    : DataFile * Workflow :=
  (mkDataFile id size,
   mkWorkflow (tasks wf) (data_files wf ++ [mkDataFile id size])
     (control_deps wf)).

Definition add_input (f : DataFile) (t : WorkflowTask) : WorkflowTask :=
  mkTask (task_id t) (task_flops t) (min_num_cores t) (max_num_cores t)
    (memory_requirement t) (input_files t ++ [f]) (output_files t).

Definition add_output (f : DataFile) (t : WorkflowTask) : WorkflowTask :=
  mkTask (task_id t) (task_flops t) (min_num_cores t) (max_num_cores t)
    (memory_requirement t) (input_files t) (output_files t ++ [f]).

Definition addInputFile (t : nat) (f : DataFile) (wf : Workflow) : Workflow :=
  mkWorkflow (alter (add_input f) t (tasks wf)) (data_files wf)
    (control_deps wf).

Definition addOutputFile (t : nat) (f : DataFile) (wf : Workflow) : Workflow :=
  mkWorkflow (alter (add_output f) t (tasks wf)) (data_files wf)
    (control_deps wf).

Definition addControlDependency (parent child : nat) (wf : Workflow)
    : Workflow :=
  mkWorkflow (tasks wf) (data_files wf) (control_deps wf ++ [(parent, child)]).

(** The names that [fill_streaming_workflow] builds. *)
Definition block_name (prefix : string) (j f b : nat) : string :=
  prefix +:+ to_string j +:+ "_file_" +:+ to_string f +:+ "_block_"
    +:+ to_string b.
Definition dummytask_name := block_name "dummytask_".
Definition task_name := block_name "task_".
Definition infile_name := block_name "infile_".
Definition outfile_name (j : nat) : string := "outfile_" +:+ to_string j.

(** The four task pointers of the builder. *)
Record chain := mkChain {
  dummytask_parent : option nat;
  task_parent : option nat;
  enddummytask : option nat;
  endtask : option nat
}.

Section SimpleSimulator.
Context {G : Type}.

(** The three [std::normal_distribution] objects of the builder. *)
Variables flops mem insize : G -> Q * G.

Variable dummy_flops : Q.

(** Lines 145-159, and again lines 169-179: one dummy task with its
    input block, one task, and their control dependencies. *)
Definition add_block (j f b : nat) (blocksize dinsize dflops dmem : Q)
    (dummytask_parent task_parent : option nat) (wf : Workflow)
    : nat * nat * Workflow :=
  let '(dummytask, wf) :=
    addTask (dummytask_name j f b) dummy_flops 1 1 dummy_flops wf in
  let '(file, wf) := addFile (infile_name j f b) blocksize wf in
  let wf := addInputFile dummytask file wf in
  let wf := match dummytask_parent with
            | Some p => addControlDependency p dummytask wf
            | None => wf
            end in
  let blockflops := (dflops * blocksize / dinsize)%Q in
  let '(task, wf) := addTask (task_name j f b) blockflops 1 1 dmem wf in
  let wf := addControlDependency dummytask task wf in
  let wf := match task_parent with
            | Some p => addControlDependency p task wf
            | None => wf
            end in
  (dummytask, task, wf).

(** [for (size_t b = 0; b < nblocks; b++)]; [n] counts the turns left. *)
Fixpoint full_blocks (n : nat) (j f b nblocks : nat)
    (xrd_block_size dinsize dflops dmem : Q) (c : chain) (wf : Workflow)
    : chain * Workflow :=
  match n with
  | O => (c, wf)
  | S n' =>
      let blocksize := xrd_block_size in
      let '(dummytask, task, wf) :=
        add_block j f b blocksize dinsize dflops dmem
          (dummytask_parent c) (task_parent c) wf in
      let c := if (b =? nblocks - 1)%nat
               then mkChain (Some dummytask) (Some task)
                      (Some dummytask) (Some task)
               else mkChain (Some dummytask) (Some task)
                      (enddummytask c) (endtask c) in
      full_blocks n' j f (S b) nblocks xrd_block_size dinsize dflops dmem
        c wf
  end.

(** The body of [for (size_t f = 0; f < infiles_per_task; f++)] after the
    draw of [dinsize]. Returns the block size, which the source
    overwrites when block streaming is off, and the two end pointers. *)
Definition fill_file (j f : nat) (dinsize : Q) (use_blockstreaming : bool)
    (xrd_block_size dflops dmem : Q)
    (enddummytask0 endtask0 : option nat) (wf : Workflow)
    : Q * option nat * option nat * Workflow :=
  let xrd_block_size :=
    if use_blockstreaming then xrd_block_size else dinsize in
  let nblocks := Qto_size_t (dinsize / xrd_block_size) in
  let c := match enddummytask0, endtask0 with
           | Some _, Some _ =>
               mkChain enddummytask0 endtask0 enddummytask0 endtask0
           | _, _ => mkChain None None enddummytask0 endtask0
           end in
  let '(c, wf) :=
    full_blocks nblocks j f 0 nblocks xrd_block_size dinsize dflops dmem
      c wf in
  let blocksize :=
    (dinsize - inject_Z (Z.of_nat nblocks) * xrd_block_size)%Q in
  if Qeq_bool blocksize 0 then
    (xrd_block_size, enddummytask c, endtask c, wf)
  else
    let '(dummytask, task, wf) :=
      add_block j f nblocks blocksize dinsize dflops dmem
        (dummytask_parent c) (task_parent c) wf in
    (xrd_block_size, Some dummytask, Some task, wf).

Fixpoint files_loop (fuel : nat) (n : nat) (j f : nat)
    (use_blockstreaming : bool) (xrd_block_size dflops dmem : Q)
    (enddummytask0 endtask0 : option nat) (g : G) (wf : Workflow)
    : outcome (Q * option nat * option nat * G * Workflow) :=
  match n with
  | O => Done (xrd_block_size, enddummytask0, endtask0, g, wf)
  | S n' =>
      '(dinsize, g) ← sample negative insize fuel g;
      let '(xrd_block_size, enddummytask1, endtask1, wf) :=
        fill_file j f dinsize use_blockstreaming xrd_block_size dflops dmem
          enddummytask0 endtask0 wf in
      files_loop fuel n' j (S f) use_blockstreaming xrd_block_size dflops
        dmem enddummytask1 endtask1 g wf
  end.

(** The body of [for (size_t j = 0; j < num_jobs; j++)]. *)
Definition fill_job (fuel : nat) (j infiles_per_task : nat)
    (use_blockstreaming : bool) (xrd_block_size : Q) (g : G)
    (wf : Workflow) : outcome (Q * G * Workflow) :=
  '(dflops, g) ← sample negative flops fuel g;
  '(dmem, g) ← sample negative mem fuel g;
  '(xrd_block_size, _, endtask1, g, wf) ←
    files_loop fuel infiles_per_task j 0 use_blockstreaming xrd_block_size
      dflops dmem None None g wf;
  let '(file, wf) := addFile (outfile_name j) 0 wf in
  match endtask1 with
  | None => Fault
  | Some t => Done (xrd_block_size, g, addOutputFile t file wf)
  end.

Fixpoint jobs_loop (fuel : nat) (n : nat) (j infiles_per_task : nat)
    (use_blockstreaming : bool) (xrd_block_size : Q) (g : G)
    (wf : Workflow) : outcome (G * Workflow) :=
  match n with
  | O => Done (g, wf)
  | S n' =>
      '(xrd_block_size, g, wf) ←
        fill_job fuel j infiles_per_task use_blockstreaming xrd_block_size
          g wf;
      jobs_loop fuel n' (S j) infiles_per_task use_blockstreaming
        xrd_block_size g wf
  end.

(** [fill_streaming_workflow]; [gen] is the global generator. *)
Definition fill_streaming_workflow (fuel : nat) (workflow : Workflow)
    (num_jobs infiles_per_task : nat) (use_blockstreaming : bool)
    (xrd_block_size : Q) (gen : G) : outcome (G * Workflow) :=
  jobs_loop fuel num_jobs 0 infiles_per_task use_blockstreaming
    xrd_block_size gen workflow.

(** *** Staging of the input files in [main] *)

(** [std::shuffle] on the generator. *)
Variable shuffle : G -> list DataFile -> list DataFile * G.

Definition StorageService := string.

(** [simulation->stageFile(f, service)] *)
Definition stageFile (f : DataFile) (s : StorageService)
    (staged : list (DataFile * StorageService))
    : list (DataFile * StorageService) :=
  staged ++ [(f, s)].

(** [for (auto const &f : input_files)], lines 377-385. *)
Fixpoint stage_files (hitrate incr_inputfile_size : Q)
    (remote_storage_service : StorageService)
    (cache_storage_services : list StorageService)
    (input_files : list DataFile) (cached_files_size : Q)
    (staged : list (DataFile * StorageService))
    : list (DataFile * StorageService) :=
  match input_files with
  | [] => staged
  | f :: rest =>
      let staged := stageFile f remote_storage_service staged in
      if Qle_bool cached_files_size (hitrate * incr_inputfile_size) then
        let staged :=
          fold_left (fun st cache => stageFile f cache st)
            cache_storage_services staged in
        stage_files hitrate incr_inputfile_size remote_storage_service
          cache_storage_services rest (cached_files_size + file_size f)%Q
          staged
      else
        stage_files hitrate incr_inputfile_size remote_storage_service
          cache_storage_services rest cached_files_size staged
  end.

(** The body of [for (auto task : tasks)], lines 367-385. *)
Definition stage_task (hitrate : Q) (remote_storage_service : StorageService)
    (cache_storage_services : list StorageService) (task : WorkflowTask)
    (g : G) (staged : list (DataFile * StorageService))
    : G * list (DataFile * StorageService) :=
  let '(input_files, g) := shuffle g (input_files task) in
  let incr_inputfile_size :=
    fold_left (fun acc f => (acc + file_size f)%Q) input_files 0%Q in
  (g, stage_files hitrate incr_inputfile_size remote_storage_service
        cache_storage_services input_files 0%Q staged).

Definition stage_tasks (hitrate : Q) (remote_storage_service : StorageService)
    (cache_storage_services : list StorageService)
    (tasks : list WorkflowTask) (g : G)
    : G * list (DataFile * StorageService) :=
  fold_left
    (fun '(g, staged) task =>
       stage_task hitrate remote_storage_service cache_storage_services
         task g staged)
    tasks (g, []).

(** The part of [main] that generates: the call of the builder on a new
    workflow, with block streaming and the default block size, the test
    for a single remote storage service, and the staging loop over
    [workflow->getTasks()]. *)
Definition main_generation (fuel : nat) (num_jobs infiles_per_job : nat)
    (hitrate : Q) (remote_storage_services : list StorageService)
    (cache_storage_services : list StorageService) (gen : G)
    : outcome (G * Workflow * list (DataFile * StorageService)) :=
  let use_blockstreaming := true in
  '(gen, workflow) ←
    fill_streaming_workflow fuel empty_workflow num_jobs infiles_per_job
      use_blockstreaming 1000000 gen;
  match remote_storage_services with
  | [remote_storage_service] =>
      let '(gen, staged) :=
        stage_tasks hitrate remote_storage_service cache_storage_services
          (tasks workflow) gen in
      Done (gen, workflow, staged)
  | _ =>
      Throw (RuntimeError
        "This example Simple Simulator requires a single remote_storage_service")
  end.
End SimpleSimulator.

(** ** Concrete inputs used below *)

(** A distribution that returns the same value at every draw. *)
Definition constant {A} (a : A) : unit -> A * unit := fun g => (a, g).

(** A workload whose real-valued distributions always return zero. *)
Definition zero_workload : Workload unit :=
  mkWorkload unit tt (constant 1) (constant 0%Q) (constant 0%Q)
    (constant 0%Q) [] Streaming 0 [].

(** A workload with ordinary draws. *)
Definition unit_workload : Workload unit :=
  mkWorkload unit tt (constant 4) (constant 1200000%Q) (constant 2000%Q)
    (constant 18000%Q) [] Streaming 0 [].

(** A distribution whose draws are all negative. *)
Definition never_valid : unit -> Q * unit := constant (-1)%Q.

(** A generator that counts its draws, and a distribution that turns
    valid at the third draw. *)
Definition third_time (g : nat) : Q * nat :=
  (if (g <? 2)%nat then (-1)%Q else 5%Q, S g).

(** Scenario E: a dataset of ten files and a batch of three jobs. *)
Definition E_file (n : nat) : DataFile := mkDataFile ("f" +:+ to_string n) 1.
Definition E_dataset : Dataset := mkDataset "ds" (map E_file (seq 0 10)).
Definition E_job (n : nat) : JobSpecification :=
  mkJobSpecification ("job_" +:+ to_string n) 1 1 1
    (mkDataFile ("outfile_" +:+ to_string n) 1) [].
Definition E_workload : Workload unit :=
  mkWorkload unit tt (constant 1) (constant 1%Q) (constant 1%Q)
    (constant 1%Q) (map E_job (seq 0 3)) Streaming 0 ["ds"].

(** The same workload before any job was sampled. *)
Definition E_empty_workload : Workload unit :=
  mkWorkload unit tt (constant 1) (constant 1%Q) (constant 1%Q)
    (constant 1%Q) [] Streaming 0 ["ds"].

(** Scenario A: the workflow of one job with one file of 2500000 bytes,
    streamed in blocks of 1000000 bytes. *)
Definition scenario_A_workflow (dummy_flops dflops dmem : Q) : Workflow :=
  mkWorkflow
    [ mkTask "dummytask_0_file_0_block_0" dummy_flops 1 1 dummy_flops
        [mkDataFile "infile_0_file_0_block_0" 1000000] [];
      mkTask "task_0_file_0_block_0" (dflops * 1000000 / 2500000)%Q 1 1 dmem
        [] [];
      mkTask "dummytask_0_file_0_block_1" dummy_flops 1 1 dummy_flops
        [mkDataFile "infile_0_file_0_block_1" 1000000] [];
      mkTask "task_0_file_0_block_1" (dflops * 1000000 / 2500000)%Q 1 1 dmem
        [] [];
      mkTask "dummytask_0_file_0_block_2" dummy_flops 1 1 dummy_flops
        [mkDataFile "infile_0_file_0_block_2" 500000] [];
      mkTask "task_0_file_0_block_2" (dflops * 500000 / 2500000)%Q 1 1 dmem
        [] [mkDataFile "outfile_0" 0] ]
    [ mkDataFile "infile_0_file_0_block_0" 1000000;
      mkDataFile "infile_0_file_0_block_1" 1000000;
      mkDataFile "infile_0_file_0_block_2" 500000;
      mkDataFile "outfile_0" 0 ]
    [ (0, 1); (0, 2); (2, 3); (1, 3); (2, 4); (4, 5); (3, 5) ]%nat.

(** A shuffle that leaves the order as it is: the only one there is for
    the single input block of a dummy task. *)
Definition keep_order (g : unit) (l : list DataFile) : list DataFile * unit :=
  (l, g).

(** The first dummy task of scenario A. *)
Definition first_dummy_task : WorkflowTask :=
  mkTask "dummytask_0_file_0_block_0" 0 1 1 0
    [mkDataFile "infile_0_file_0_block_0" 1000000] [].

(** ** The dual chain, told by block positions

    A block is named by its job, its file and its number within the file.
    The builder creates, for every block, a dummy task and then a task, so
    that the block at place [m] of the creation order owns the tasks
    [2 * m] and [2 * m + 1]. *)

Abbreviation block_pos := (nat * nat * nat)%type.

Definition job_of (p : block_pos) : nat := p.1.1.

Definition names (p : block_pos) : list string :=
  let '(j, f, b) := p in [dummytask_name j f b; task_name j f b].

Definition task_names (pos : list block_pos) : list string := pos ≫= names.

Definition blocks_of_file (j f first count : nat) : list block_pos :=
  (fun b => (j, f, b)) <$> seq first count.

(** The block created just before place [m]. *)
Definition prev_block (pos : list block_pos) (m : nat) : option block_pos :=
  match m with
  | O => None
  | S m' => pos !! m'
  end.

Definition same_job (prev : option block_pos) (j : nat) : bool :=
  match prev with
  | Some p => bool_decide (job_of p = j)
  | None => false
  end.

(** The dual-chain rule, in the words of the specification (4.4) and not
    of the code. A block that follows a block of its own job is linked to
    it twice: dummy task after dummy task, task after task. Every task
    comes after its own dummy task. The theorems below compare the
    control dependencies that the builder adds with this rule. *)
Definition block_deps (m : nat) (linked : bool) : list (nat * nat) :=
  ((if linked then [(2 * m - 2, 2 * m)] else [])
     ++ [(2 * m, 2 * m + 1)]
     ++ (if linked then [(2 * m - 1, 2 * m + 1)] else []))%nat.

Definition dual_chain_deps (pos : list block_pos) : list (nat * nat) :=
  mjoin (imap (fun m p => block_deps m (same_job (prev_block pos m) (job_of p)))
           pos).

(** The order in which blocks follow one another: the next block of the
    same file, or block 0 of a later file or of a later job. *)
Definition next_ok (prev : option block_pos) (p : block_pos) : Prop :=
  let '(j, f, b) := p in
  match prev with
  | None => b = 0%nat
  | Some (j', f', b') =>
      (j' = j /\ f' = f /\ b = S b') \/
      (b = 0%nat /\ (j' < j \/ (j' = j /\ f' < f)))%nat
  end.

(** Blocks compared by job, then file, then number. *)
Definition lex_lt (p q : block_pos) : Prop :=
  let '(j, f, b) := p in
  let '(j', f', b') := q in
  (j < j' \/ (j = j' /\ (f < f' \/ (f = f' /\ b < b'))))%nat.

Fixpoint ordered (prev : option block_pos) (pos : list block_pos) : Prop :=
  match pos with
  | [] => True
  | p :: rest => next_ok prev p /\ ordered (Some p) rest
  end.

Definition before_file (prev : option block_pos) (j f : nat) : Prop :=
  match prev with
  | None => True
  | Some (j', f', _) => (j' < j \/ (j' = j /\ f' < f))%nat
  end.

Definition before_job (prev : option block_pos) (j : nat) : Prop :=
  match prev with
  | None => True
  | Some p => (job_of p < j)%nat
  end.

(** The last pair of tasks, when it belongs to job [j]: the two end
    pointers of the builder. *)
Definition chain_tail (pos : list block_pos) (j : nat) : option (nat * nat) :=
  if same_job (last pos) j
  then Some (2 * length pos - 2, 2 * length pos - 1)%nat
  else None.

(** What the builder has made of a workflow that was empty. *)
Record built (wf : Workflow) (pos : list block_pos) : Prop := mkBuilt {
  built_names : task_id <$> tasks wf = task_names pos;
  built_deps : control_deps wf = dual_chain_deps pos;
  built_ordered : ordered None pos
}.

(** The two tasks that [add_block] leaves in the workflow. *)
Definition dummy_of (dummy_flops : Q) (j f b : nat) (blocksize : Q)
    : WorkflowTask :=
  mkTask (dummytask_name j f b) dummy_flops 1 1 dummy_flops
    [mkDataFile (infile_name j f b) blocksize] [].

Definition task_of (j f b : nat) (blocksize dinsize dflops dmem : Q)
    : WorkflowTask :=
  mkTask (task_name j f b) (dflops * blocksize / dinsize)%Q 1 1 dmem [] [].

Definition parent_dep (parent : option nat) (child : nat) : list (nat * nat) :=
  match parent with
  | Some p => [(p, child)]
  | None => []
  end.

(** The input blocks of one file: [count] blocks of [size] from [first]. *)
Definition block_files (j f first count : nat) (size : Q) : list DataFile :=
  (fun b => mkDataFile (infile_name j f b) size) <$> seq first count.

(** ** The rest of Workload.cpp *)

(** [transform_if], with a [std::back_inserter] as [dest]: the loop walks
    the range and appends the image of every element that passes. *)
Fixpoint transform_if {A B : Type} (range : list A) (dest : list B)
    (pred : A -> bool) (transform : A -> B) : list B :=
  match range with
  | [] => dest
  | first :: rest =>
      transform_if rest
        (if pred first then dest ++ [transform first] else dest)
        pred transform
  end.

(** *** Distribution descriptors

    A descriptor is a [nlohmann::json] value, passed by value: null, a
    boolean, an integer or a floating-point number, a string, an array
    or an object. *)

#[warnings="-register-all"]
Inductive jvalue : Type :=
| JNull
| JBool (b : bool)
| JInt (z : Z)
| JFloat (x : Q)
| JString (s : string)
| JArray (elements : list jvalue)
| JObject (members : gmap string jvalue).

(** What a factory call ends in: the distribution, the
    [std::runtime_error] of the factory, or the [type_error] that
    [operator[]] and [get<T>()] throw on a value of another type. *)
Inductive factory (A : Type) : Type :=
| Built (a : A)
| NotImplemented (what : string)
| TypeError.
Arguments Built {A} a.
Arguments NotImplemented {A} what.
Arguments TypeError {A}.

#[global] Instance factory_bind : MBind factory := fun A B k m =>
  match m with
  | Built a => k a
  | NotImplemented what => NotImplemented what
  | TypeError => TypeError
  end.

(** [json[key]] on the copy: a missing key of an object reads as null,
    null is taken for an empty object, and any other value has no
    keys. *)
Definition jget (json : jvalue) (key : string) : factory jvalue :=
  match json with
  | JObject members => Built (default JNull (members !! key))
  | JNull => Built JNull
  | _ => TypeError
  end.

(** [get<std::string>()] *)
Definition get_string (v : jvalue) : factory string :=
  match v with
  | JString s => Built s
  | _ => TypeError
  end.

(** [get<double>()] *)
Definition get_double (v : jvalue) : factory Q :=
  match v with
  | JInt z => Built (inject_Z z)
  | JFloat x => Built x
  | _ => TypeError
  end.

(** [get<int>()]: a number is cast to [int], and so is a boolean; a
    floating-point number is truncated (the cast is defined only within
    the range of [int]). *)
Definition get_int (v : jvalue) : factory Z :=
  match v with
  | JBool b => Built (if b then 1 else 0)
  | JInt z => Built (to_int z)
  | JFloat x => Built (to_int (Z.quot (Qnum x) (Zpos (Qden x))))
  | _ => TypeError
  end.

Fixpoint get_all {A : Type} (get : jvalue -> factory A) (l : list jvalue)
    : factory (list A) :=
  match l with
  | [] => Built []
  | v :: rest => a ← get v; r ← get_all get rest; Built (a :: r)
  end.

(** [get<std::vector<T>>()] *)
Definition get_vector {A : Type} (get : jvalue -> factory A) (v : jvalue)
    : factory (list A) :=
  match v with
  | JArray l => get_all get l
  | _ => TypeError
  end.

Section Factory.
Context {G : Type}.

(** The four distributions of the standard library, each built anew at
    every draw. *)
Variable normal_distribution : Q -> Q -> G -> Q * G.
Variable piecewise_constant_distribution : list Q -> list Z -> G -> Q * G.
Variable poisson_distribution : Z -> G -> Z * G.
Variable discrete_distribution : list Z -> G -> Z * G.

(** [Workload::initializeDoubleRNG] *)
Definition initializeDoubleRNG (json : jvalue) : factory (G -> Q * G) :=
  type ← jget json "type" ≫= get_string;
  if String.eqb type "gaussian" then
    ave ← jget json "average" ≫= get_double;
    sigma ← jget json "sigma" ≫= get_double;
    Built (normal_distribution ave sigma)
  else if String.eqb type "histogram" then
    bins ← jget json "bins" ≫= get_vector get_double;
    weights ← jget json "counts" ≫= get_vector get_int;
    Built (piecewise_constant_distribution bins weights)
  else
    NotImplemented
      ("Random number generation for type " +:+ type
         +:+ " not implemented for real valued distributions!").

(** [Workload::initializeIntRNG]; the [try] block reads the bins and
    drops them, and [catch (...)] swallows its error. *)
Definition initializeIntRNG (json : jvalue) : factory (G -> Z * G) :=
  type ← jget json "type" ≫= get_string;
  if String.eqb type "poisson" then
    mu ← jget json "mu" ≫= get_int;
    Built (poisson_distribution mu)
  else if String.eqb type "histogram" then
    let _ := jget json "bins" ≫= get_vector get_double in
    weights ← jget json "counts" ≫= get_vector get_int;
    Built (discrete_distribution weights)
  else
    NotImplemented
      ("Random number generation for type " +:+ type
         +:+ " not implemented for integer valued distributions!").

(** [Workload::Workload] from the four descriptors: the distributions are
    built in the order cores, flops, memory, output size, then the jobs
    are sampled. *)
Definition Workload_of_json (fuel : nat) (num_jobs : nat)
    (cores flops memory outfile_size : jvalue)
    (wtype : WorkloadType) (name_suffix : string) (arrival_time : Q)
    (gen : G) (infile_datasets : list string)
    : factory (outcome (Workload G)) :=
  core_dist ← initializeIntRNG cores;
  flops_dist ← initializeDoubleRNG flops;
  mem_dist ← initializeDoubleRNG memory;
  outsize_dist ← initializeDoubleRNG outfile_size;
  Built (Workload_new fuel num_jobs core_dist flops_dist mem_dist
           outsize_dist wtype name_suffix arrival_time gen infile_datasets).
End Factory.

(** ** The rest of SimpleSimulator.cpp *)

(** [ends_with]: [str.compare(pos, len, suffix)] is 0 when the [len]
    characters of [str] from [pos] on are [suffix]. *)
Definition ends_with (str suffix : string) : bool :=
  (String.length suffix <=? String.length str)%nat
  && String.eqb
       (String.substring (String.length str - String.length suffix)
          (String.length suffix) str)
       suffix.

(** What [std::stoi] and [std::stod] end in: the value and the number of
    characters read, or one of their two exceptions. *)
Inductive parse (A : Type) : Type :=
| Parsed (value : A) (pos : nat)
| InvalidArgument
| OutOfRange.
Arguments Parsed {A} value pos.
Arguments InvalidArgument {A}.
Arguments OutOfRange {A}.

(** What a conversion of a command-line argument ends in: the value, with
    the note whether the message about trailing characters was printed,
    or [exit (EXIT_FAILURE)]. *)
Inductive converted (A : Type) : Type :=
| Converted (value : A) (trailing_characters : bool)
| ExitFailure.
Arguments Converted {A} value trailing_characters.
Arguments ExitFailure {A}.

Section CommandLine.
Variable stoi : string -> parse Z.
Variable stod : string -> parse Q.

(** [arg_to_double] *)
Definition arg_to_double (arg : string) : converted Q :=
  match stod arg with
  | Parsed value pos => Converted value (pos <? String.length arg)%nat
  | InvalidArgument => ExitFailure
  | OutOfRange => ExitFailure
  end.

(** [arg_to_sizet]: the [int] of [std::stoi] becomes a [size_t]. *)
Definition arg_to_sizet (arg : string) : converted Z :=
  match stoi arg with
  | Parsed value pos =>
      Converted (to_size_t value) (pos <? String.length arg)%nat
  | InvalidArgument => ExitFailure
  | OutOfRange => ExitFailure
  end.
End CommandLine.

(** *** The services of [main] *)

(** [std::tolower] on a character of the C locale. *)
Definition tolower (c : Ascii.ascii) : Ascii.ascii :=
  let n := Ascii.nat_of_ascii c in
  if ((65 <=? n) && (n <=? 90))%nat then Ascii.ascii_of_nat (n + 32) else c.

Fixpoint lowercase (s : string) : string :=
  match s with
  | EmptyString => EmptyString
  | String c rest => String (tolower c) (lowercase rest)
  end.

(** [s.find(needle) != std::string::npos] *)
Definition contains (s needle : string) : bool :=
  match String.index 0 needle s with
  | Some _ => true
  | None => false
  end.

Definition wms_host : string := "WMSHost".

(** The four sets of services that the loop over the hosts fills. A
    service is named by its host. *)
Record services := mkServices {
  storage_services : list StorageService;
  cache_storage_services : list StorageService;
  remote_storage_services : list StorageService;
  condor_compute_resources : list string
}.

(** The body of the loop over [hostname_list], lines 266-301. *)
Definition add_host (s : services) (hostname : string) : services :=
  let hostname_transformed := lowercase hostname in
  let s :=
    if negb (String.eqb hostname wms_host) then
      let storage_service := hostname in
      let s :=
        if contains hostname_transformed "remote" then
          mkServices (storage_services s) (cache_storage_services s)
            (remote_storage_services s ++ [storage_service])
            (condor_compute_resources s)
        else
          mkServices (storage_services s)
            (cache_storage_services s ++ [storage_service])
            (remote_storage_services s) (condor_compute_resources s) in
      mkServices (storage_services s ++ [storage_service])
        (cache_storage_services s) (remote_storage_services s)
        (condor_compute_resources s)
    else s in
  if negb (String.eqb hostname wms_host)
     && negb (contains hostname_transformed "storage") then
    mkServices (storage_services s) (cache_storage_services s)
      (remote_storage_services s) (condor_compute_resources s ++ [hostname])
  else s.

Definition instantiate_services (hostname_list : list string) : services :=
  fold_left add_host hostname_list (mkServices [] [] [] []).

(** ** The tasks of one file, in closed form *)

(** The sizes of the blocks of a file of size [dinsize] cut into blocks
    of size [size]. *)
Definition block_sizes (dinsize size : Q) : list Q :=
  let nblocks := Qto_size_t (dinsize / size) in
  let rest := (dinsize - inject_Z (Z.of_nat nblocks) * size)%Q in
  replicate nblocks size ++ (if Qeq_bool rest 0 then [] else [rest]).

(** The dummy task and the task of every block, from block [first] on. *)
Fixpoint file_tasks (dummy_flops : Q) (j f first : nat) (sizes : list Q)
    (dinsize dflops dmem : Q) : list WorkflowTask :=
  match sizes with
  | [] => []
  | size :: rest =>
      dummy_of dummy_flops j f first size
        :: task_of j f first size dinsize dflops dmem
        :: file_tasks dummy_flops j f (S first) rest dinsize dflops dmem
  end.

(** ** What the builder and the staging loop leave behind *)

(** A task as the streaming builder makes it: one core, at most one input
    block, of a size above zero, and output files of size zero only. *)
Definition block_task (t : WorkflowTask) : Prop :=
  min_num_cores t = 1%nat /\ max_num_cores t = 1%nat /\
  (length (input_files t) <= 1)%nat /\
  Forall (fun f => (0 < file_size f)%Q) (input_files t) /\
  Forall (fun f => (file_size f == 0)%Q) (output_files t).

(** The stagings of one input file: on the remote storage service alone,
    or on it and then on every cache in turn. *)
Definition on_remote (remote : StorageService) (f : DataFile)
    : DataFile * StorageService :=
  (f, remote).

Definition on_all (remote : StorageService) (caches : list StorageService)
    (f : DataFile) : list (DataFile * StorageService) :=
  (f, remote) :: ((fun cache => (f, cache)) <$> caches).

(** The characters that [std::to_string] writes for an unsigned number. *)
Definition is_digit (c : Ascii.ascii) : bool :=
  (48 <=? Ascii.nat_of_ascii c)%nat && (Ascii.nat_of_ascii c <=? 57)%nat.

Fixpoint all_digits (s : string) : bool :=
  match s with
  | EmptyString => true
  | String c s => is_digit c && all_digits s
  end.

(** The file names that the builder has used when it comes to file [f] of
    job [j]: the blocks of earlier files, and the output files of earlier
    jobs. *)
Definition named_before (j f : nat) (id : string) : Prop :=
  (exists j' f' b', id = infile_name j' f' b' /\
                    (j' < j \/ (j' = j /\ f' < f))%nat) \/
  (exists j', id = outfile_name j' /\ (j' < j)%nat).

(** A task of job [j] without an output file. *)
Definition job_task (j : nat) (t : WorkflowTask) : Prop :=
  output_files t = [] /\
  exists f b, task_id t = dummytask_name j f b \/ task_id t = task_name j f b.

(** The tasks of job [j] in a workflow that the builder has filled: tasks
    of the job without output files, and then the task of the job's last
    block with the output file of the job. *)
Definition job_group (j : nat) (ts : list WorkflowTask) : Prop :=
  exists body last,
    ts = body ++ [add_output (mkDataFile (outfile_name j) 0) last] /\
    Forall (job_task j) body /\ job_task j last /\
    exists f b, task_id last = task_name j f b.

(** ** The builder and the staging loop on machine arithmetic

    A finite [double] is a rational number, but the sum, difference,
    product or quotient that the machine returns for two of them is the
    exact one only up to rounding. Here the five operations that
    [fill_streaming_workflow] and the staging loop of [main] perform on
    doubles are parameters: whatever is proved holds for the rounded
    operations of the machine as for the exact ones. Comparisons of
    doubles are exact and stay as they are. *)

Record double_arithmetic := mkArithmetic {
  dadd : Q -> Q -> Q;            (* x + y *)
  dsub : Q -> Q -> Q;            (* x - y *)
  dmul : Q -> Q -> Q;            (* x * y *)
  ddiv : Q -> Q -> Q;            (* x / y *)
  dof_size_t : nat -> Q          (* the conversion of a size_t *)
}.

(** The operations without rounding: those of the definitions above. *)
Definition exact : double_arithmetic :=
  mkArithmetic Qplus Qminus Qmult Qdiv (fun n => inject_Z (Z.of_nat n)).

(** *** The arithmetic of binary64

    The operations of IEEE 754 double precision, rounding to nearest
    even, as the standard library specifies them ([SpecFloat]). A finite
    double is read as the rational number it stands for; a result that is
    no finite double (an infinity, NaN) is outside the model and read as
    zero. *)

Definition SF2Q (x : SpecFloat.spec_float) : Q :=
  match x with
  | SpecFloat.S754_finite s m e =>
      let z := if s then Zneg m else Zpos m in
      Qred (match e with
            | Zneg k => Qmake z (2 ^ k)%positive
            | _ => inject_Z (z * 2 ^ e)
            end)
  | _ => 0%Q
  end.

(** From a rational number to a double. A double is taken as it is (its
    denominator is a power of two); any other fraction is the quotient
    of its numerator and denominator, rounded once when both are below
    [2^53]: what a short decimal literal of the source stands for. *)
Definition Q2SF (q : Q) : SpecFloat.spec_float :=
  let d := Zpos (Qden q) in
  let k := Z.log2 d in
  if d =? 2 ^ k then SpecFloat.binary_normalize 53 1024 (Qnum q) (- k) false
  else SpecFloat.SFdiv 53 1024
         (SpecFloat.binary_normalize 53 1024 (Qnum q) 0 false)
         (SpecFloat.binary_normalize 53 1024 d 0 false).

Definition double_of (q : Q) : Q := SF2Q (Q2SF q).

Definition binary64 : double_arithmetic :=
  mkArithmetic
    (fun x y => SF2Q (SpecFloat.SFadd 53 1024 (Q2SF x) (Q2SF y)))
    (fun x y => SF2Q (SpecFloat.SFsub 53 1024 (Q2SF x) (Q2SF y)))
    (fun x y => SF2Q (SpecFloat.SFmul 53 1024 (Q2SF x) (Q2SF y)))
    (fun x y => SF2Q (SpecFloat.SFdiv 53 1024 (Q2SF x) (Q2SF y)))
    (fun n => SF2Q (SpecFloat.binary_normalize 53 1024 (Z.of_nat n) 0 false)).

Module Machine.
Section Builder.
Context {G : Type}.
Variable ops : double_arithmetic.
Variables flops mem insize : G -> Q * G.
Variable dummy_flops : Q.

(** Lines 145-159, and again lines 169-179. *)
Definition add_block (j f b : nat) (blocksize dinsize dflops dmem : Q)
    (dummytask_parent task_parent : option nat) (wf : Workflow)
    : nat * nat * Workflow :=
  let '(dummytask, wf) :=
    addTask (dummytask_name j f b) dummy_flops 1 1 dummy_flops wf in
  let '(file, wf) := addFile (infile_name j f b) blocksize wf in
  let wf := addInputFile dummytask file wf in
  let wf := match dummytask_parent with
            | Some p => addControlDependency p dummytask wf
            | None => wf
            end in
  let blockflops := ddiv ops (dmul ops dflops blocksize) dinsize in
  let '(task, wf) := addTask (task_name j f b) blockflops 1 1 dmem wf in
  let wf := addControlDependency dummytask task wf in
  let wf := match task_parent with
            | Some p => addControlDependency p task wf
            | None => wf
            end in
  (dummytask, task, wf).

(** [for (size_t b = 0; b < nblocks; b++)]; [n] counts the turns left. *)
Fixpoint full_blocks (n : nat) (j f b nblocks : nat)
    (xrd_block_size dinsize dflops dmem : Q) (c : chain) (wf : Workflow)
    : chain * Workflow :=
  match n with
  | O => (c, wf)
  | S n' =>
      let blocksize := xrd_block_size in
      let '(dummytask, task, wf) :=
        add_block j f b blocksize dinsize dflops dmem
          (dummytask_parent c) (task_parent c) wf in
      let c := if (b =? nblocks - 1)%nat
               then mkChain (Some dummytask) (Some task)
                      (Some dummytask) (Some task)
               else mkChain (Some dummytask) (Some task)
                      (enddummytask c) (endtask c) in
      full_blocks n' j f (S b) nblocks xrd_block_size dinsize dflops dmem
        c wf
  end.

(** The body of [for (size_t f = 0; f < infiles_per_task; f++)] after the
    draw of [dinsize]: line 133 divides, line 168 converts, multiplies
    and subtracts. *)
Definition fill_file (j f : nat) (dinsize : Q) (use_blockstreaming : bool)
    (xrd_block_size dflops dmem : Q)
    (enddummytask0 endtask0 : option nat) (wf : Workflow)
    : Q * option nat * option nat * Workflow :=
  let xrd_block_size :=
    if use_blockstreaming then xrd_block_size else dinsize in
  let nblocks := Qto_size_t (ddiv ops dinsize xrd_block_size) in
  let c := match enddummytask0, endtask0 with
           | Some _, Some _ =>
               mkChain enddummytask0 endtask0 enddummytask0 endtask0
           | _, _ => mkChain None None enddummytask0 endtask0
           end in
  let '(c, wf) :=
    full_blocks nblocks j f 0 nblocks xrd_block_size dinsize dflops dmem
      c wf in
  let blocksize :=
    dsub ops dinsize (dmul ops (dof_size_t ops nblocks) xrd_block_size) in
  if Qeq_bool blocksize 0 then
    (xrd_block_size, enddummytask c, endtask c, wf)
  else
    let '(dummytask, task, wf) :=
      add_block j f nblocks blocksize dinsize dflops dmem
        (dummytask_parent c) (task_parent c) wf in
    (xrd_block_size, Some dummytask, Some task, wf).

Fixpoint files_loop (fuel : nat) (n : nat) (j f : nat)
    (use_blockstreaming : bool) (xrd_block_size dflops dmem : Q)
    (enddummytask0 endtask0 : option nat) (g : G) (wf : Workflow)
    : outcome (Q * option nat * option nat * G * Workflow) :=
  match n with
  | O => Done (xrd_block_size, enddummytask0, endtask0, g, wf)
  | S n' =>
      '(dinsize, g) ← sample negative insize fuel g;
      let '(xrd_block_size, enddummytask1, endtask1, wf) :=
        fill_file j f dinsize use_blockstreaming xrd_block_size dflops dmem
          enddummytask0 endtask0 wf in
      files_loop fuel n' j (S f) use_blockstreaming xrd_block_size dflops
        dmem enddummytask1 endtask1 g wf
  end.

(** The body of [for (size_t j = 0; j < num_jobs; j++)]. *)
Definition fill_job (fuel : nat) (j infiles_per_task : nat)
    (use_blockstreaming : bool) (xrd_block_size : Q) (g : G)
    (wf : Workflow) : outcome (Q * G * Workflow) :=
  '(dflops, g) ← sample negative flops fuel g;
  '(dmem, g) ← sample negative mem fuel g;
  '(xrd_block_size, _, endtask1, g, wf) ←
    files_loop fuel infiles_per_task j 0 use_blockstreaming xrd_block_size
      dflops dmem None None g wf;
  let '(file, wf) := addFile (outfile_name j) 0 wf in
  match endtask1 with
  | None => Fault
  | Some t => Done (xrd_block_size, g, addOutputFile t file wf)
  end.

Fixpoint jobs_loop (fuel : nat) (n : nat) (j infiles_per_task : nat)
    (use_blockstreaming : bool) (xrd_block_size : Q) (g : G)
    (wf : Workflow) : outcome (G * Workflow) :=
  match n with
  | O => Done (g, wf)
  | S n' =>
      '(xrd_block_size, g, wf) ←
        fill_job fuel j infiles_per_task use_blockstreaming xrd_block_size
          g wf;
      jobs_loop fuel n' (S j) infiles_per_task use_blockstreaming
        xrd_block_size g wf
  end.

(** [fill_streaming_workflow]; [gen] is the global generator. *)
Definition fill_streaming_workflow (fuel : nat) (workflow : Workflow)
    (num_jobs infiles_per_task : nat) (use_blockstreaming : bool)
    (xrd_block_size : Q) (gen : G) : outcome (G * Workflow) :=
  jobs_loop fuel num_jobs 0 infiles_per_task use_blockstreaming
    xrd_block_size gen workflow.

(** *** Staging of the input files in [main] *)

Variable shuffle : G -> list DataFile -> list DataFile * G.

(** [cached_files_size] after the files [files] have gone to the caches,
    from the value [cached]: line 383, file after file. *)
Definition cached_size (cached : Q) (files : list DataFile) : Q :=
  fold_left (fun acc f => dadd ops acc (file_size f)) files cached.

(** [for (auto const &f : input_files)], lines 377-385. *)
Fixpoint stage_files (hitrate incr_inputfile_size : Q)
    (remote_storage_service : StorageService)
    (cache_storage_services : list StorageService)
    (input_files : list DataFile) (cached_files_size : Q)
    (staged : list (DataFile * StorageService))
    : list (DataFile * StorageService) :=
  match input_files with
  | [] => staged
  | f :: rest =>
      let staged := stageFile f remote_storage_service staged in
      if Qle_bool cached_files_size (dmul ops hitrate incr_inputfile_size)
      then
        let staged :=
          fold_left (fun st cache => stageFile f cache st)
            cache_storage_services staged in
        stage_files hitrate incr_inputfile_size remote_storage_service
          cache_storage_services rest
          (dadd ops cached_files_size (file_size f)) staged
      else
        stage_files hitrate incr_inputfile_size remote_storage_service
          cache_storage_services rest cached_files_size staged
  end.

(** The body of [for (auto task : tasks)], lines 367-385. *)
Definition stage_task (hitrate : Q) (remote_storage_service : StorageService)
    (cache_storage_services : list StorageService) (task : WorkflowTask)
    (g : G) (staged : list (DataFile * StorageService))
    : G * list (DataFile * StorageService) :=
  let '(input_files, g) := shuffle g (input_files task) in
  let incr_inputfile_size :=
    fold_left (fun acc f => dadd ops acc (file_size f)) input_files 0%Q in
  (g, stage_files hitrate incr_inputfile_size remote_storage_service
        cache_storage_services input_files 0%Q staged).
End Builder.
End Machine.

(** The two tasks of block [b]: the dummy task that reads the block's
    file, and the task with its share of the flops of the job. *)
Definition block_tasks (ops : double_arithmetic) (dummy_flops : Q)
    (j f : nat) (dinsize dflops dmem : Q) (b : nat) (file : DataFile)
    : list WorkflowTask :=
  [mkTask (dummytask_name j f b) dummy_flops 1 1 dummy_flops [file] [];
   mkTask (task_name j f b)
     (ddiv ops (dmul ops dflops (file_size file)) dinsize) 1 1 dmem [] []].

(** The tasks of the blocks [files], numbered from [first]. *)
Fixpoint tasks_of_blocks (ops : double_arithmetic) (dummy_flops : Q)
    (j f : nat) (dinsize dflops dmem : Q) (first : nat)
    (files : list DataFile) : list WorkflowTask :=
  match files with
  | [] => []
  | file :: rest =>
      block_tasks ops dummy_flops j f dinsize dflops dmem first file
        ++ tasks_of_blocks ops dummy_flops j f dinsize dflops dmem (S first)
             rest
  end.

(** The files that the builder adds for one input file: the full blocks
    and, when it is not zero, the rest. *)
Definition file_blocks (ops : double_arithmetic) (j f : nat)
    (dinsize size : Q) : list DataFile :=
  let nblocks := Qto_size_t (ddiv ops dinsize size) in
  let rest := dsub ops dinsize (dmul ops (dof_size_t ops nblocks) size) in
  block_files j f 0 nblocks size
    ++ (if Qeq_bool rest 0 then []
        else [mkDataFile (infile_name j f nblocks) rest]).

(** A task as the builder makes it, whatever the arithmetic: one core, no
    input file or one, which makes it a dummy task, and output files of
    size zero only. *)
Definition built_task (dummy_flops : Q) (t : WorkflowTask) : Prop :=
  min_num_cores t = 1%nat /\ max_num_cores t = 1%nat /\
  (input_files t = [] \/
   exists file, input_files t = [file] /\ task_flops t = dummy_flops /\
                memory_requirement t = dummy_flops) /\
  Forall (fun f => (file_size f == 0)%Q) (output_files t).

(** ** More concrete inputs *)

(** Descriptors of distributions. *)
Definition gaussian_json : jvalue :=
  JObject {[ "type" := JString "gaussian"; "average" := JFloat 1200000;
             "sigma" := JInt 600000 ]}.
Definition poisson_json : jvalue :=
  JObject {[ "type" := JString "poisson"; "mu" := JInt 4 ]}.
Definition histogram_counts : gmap string jvalue :=
  {[ "type" := JString "histogram"; "counts" := JArray [JInt 1; JInt 3] ]}.
Definition histogram_json : jvalue := JObject histogram_counts.

(** Stand-ins for the distributions of the standard library: they return
    a value made of their parameters. *)
Definition stub_normal (ave sigma : Q) : unit -> Q * unit :=
  constant (ave + sigma)%Q.
Definition stub_piecewise (bins : list Q) (weights : list Z)
    : unit -> Q * unit :=
  constant (inject_Z (Z.of_nat (length bins + length weights))).
Definition stub_poisson (mu : Z) : unit -> Z * unit := constant mu.
Definition stub_discrete (weights : list Z) : unit -> Z * unit :=
  constant (Z.of_nat (length weights)).

(** Two files for three jobs. *)
Definition small_dataset : Dataset := mkDataset "ds" (map E_file (seq 0 2)).

(** A stand-in for [std::stoi] that knows two arguments. *)
Definition stub_stoi (arg : string) : parse Z :=
  if String.eqb arg "-1" then Parsed (-1) 2
  else if String.eqb arg "12abc" then Parsed 12 2
  else InvalidArgument.

(** The hosts of a small platform. *)
Definition platform_hosts : list string :=
  ["WMSHost"; "RemoteStorage"; "cache1"; "storage2"].

(** One job with one file of 1.7 in blocks of 0.1, built on binary64. *)
Definition rounded_workflow : Workflow :=
  Eval vm_compute in
    match Machine.fill_streaming_workflow binary64 (constant 1200000%Q)
            (constant 2000%Q) (constant (double_of (17 # 10))) 0 0
            empty_workflow 1 1 true (double_of (1 # 10)) tt with
    | Done (_, wf) => wf
    | _ => empty_workflow
    end.

(** * Properties *)

(** ** Rejection sampling *)

Lemma negative_false (x : Q) : negative x = false <-> (0 <= x)%Q.
Proof.
  unfold negative, Qlt_bool. rewrite negb_false_iff. apply Qle_bool_iff.
Qed.

Lemma negative_true (x : Q) : negative x = true <-> (x < 0)%Q.
Proof.
  unfold negative, Qlt_bool. rewrite negb_true_iff. split.
  - intros H. apply Qnot_le_lt. intros Hle.
    apply Qle_bool_iff in Hle. congruence.
  - intros H. destruct (Qle_bool 0 x) eqn:E; [|done].
    apply Qle_bool_iff in E. exfalso. by apply (Qlt_not_le x 0).
Qed.

Lemma below_one_false (c : Z) : below_one c = false <-> 1 <= c.
Proof. unfold below_one. rewrite Z.ltb_ge. done. Qed.

Section SamplingFacts.
Context {G A : Type}.
Variable reject : A -> bool.
Variable dist : G -> A * G.

Lemma resample_accepts fuel x g v g' :
  resample reject dist fuel x g = Done (v, g') -> reject v = false.
Proof.
  revert x g. induction fuel as [|fuel IH]; intros x g; simpl.
  - destruct (reject x) eqn:E; [done|]. intros [= <- <-]. done.
  - destruct (reject x) eqn:E.
    + destruct (dist g) as [x' g1]. apply IH.
    + intros [= <- <-]. done.
Qed.

Lemma sample_accepts fuel g v g' :
  sample reject dist fuel g = Done (v, g') -> reject v = false.
Proof.
  unfold sample. destruct (dist g) as [x g1]. apply resample_accepts.
Qed.

Lemma draws_S n x g :
  draws dist (S n) x g =
  let '(x', g') := draws dist n x g in dist g'.
Proof.
  revert x g. induction n as [|n IH]; intros x g.
  - simpl. by destruct (dist g).
  - change (draws dist (S (S n)) x g)
      with (let '(x', g') := dist g in draws dist (S n) x' g').
    destruct (dist g) as [x1 g1] eqn:E. rewrite IH. simpl. by rewrite E.
Qed.

(** The loop returns the first draw that passes the test. *)
Lemma resample_first_valid n fuel x g :
  (forall m, (m < n)%nat -> reject (draws dist m x g).1 = true) ->
  reject (draws dist n x g).1 = false ->
  (n <= fuel)%nat ->
  resample reject dist fuel x g = Done (draws dist n x g).
Proof.
  revert fuel x g. induction n as [|n IH]; intros fuel x g Hrej Hok Hle.
  - simpl in *. destruct fuel; simpl; rewrite Hok; done.
  - destruct fuel as [|fuel]; [lia|]. simpl.
    pose proof (Hrej 0%nat ltac:(lia)) as H0. simpl in H0. rewrite H0.
    simpl in Hok.
    destruct (dist g) as [x1 g1] eqn:E. apply IH; [|done|lia].
    intros m Hm. specialize (Hrej (S m)). simpl in Hrej. rewrite E in Hrej.
    apply Hrej. lia.
Qed.

(** While every draw so far fails the test, the loop is still running. *)
Lemma resample_all_rejected fuel x g :
  (forall m, (m <= fuel)%nat -> reject (draws dist m x g).1 = true) ->
  resample reject dist fuel x g = Unfinished.
Proof.
  revert x g. induction fuel as [|fuel IH]; intros x g Hrej.
  - pose proof (Hrej 0%nat ltac:(lia)) as H0. simpl in *. by rewrite H0.
  - pose proof (Hrej 0%nat ltac:(lia)) as H0. simpl in H0. simpl.
    rewrite H0.
    destruct (dist g) as [x1 g1] eqn:E. apply IH.
    intros m Hm. specialize (Hrej (S m)). simpl in Hrej. rewrite E in Hrej.
    apply Hrej. lia.
Qed.

(** The loop has no exit but its test. *)
Lemma resample_no_error fuel x g :
  resample reject dist fuel x g <> Fault /\
  forall e, resample reject dist fuel x g <> Throw e.
Proof.
  revert x g. induction fuel as [|fuel IH]; intros x g; simpl.
  - destruct (reject x); done.
  - destruct (reject x); [|done]. destruct (dist g). apply IH.
Qed.
End SamplingFacts.

(** C3 (as amended). An accepted number of cores is at least one, and a
    size that a rejection loop accepts is never negative: the job that
    [sampleJob] returns has [cores >= 1] and an output file of size at
    least zero, and an input-file size accepted by the loop of the
    streaming builder is at least zero. A size of exactly zero passes the
    test [x < 0.] and is accepted. *)
Theorem accepted_sizes_not_negative {G : Type} :
  (forall fuel (w : Workload G) j suffix sep job w',
      sampleJob fuel w j suffix sep = Done (job, w') ->
      1 <= cores job /\ (0 <= file_size (outfile job))%Q) /\
  (forall (insize : G -> Q * G) fuel g dinsize g',
      sample negative insize fuel g = Done (dinsize, g') ->
      (0 <= dinsize)%Q).
Proof.
  split.
  - intros fuel w j suffix sep job w'. unfold sampleJob.
    destruct (sample below_one _ fuel _) as [[c g1]| | |] eqn:E1; try done.
    simpl.
    destruct (sample negative (flops_dist w) fuel g1)
      as [[fl g2]| | |] eqn:E2; try done. simpl.
    destruct (sample negative (mem_dist w) fuel g2)
      as [[me g3]| | |] eqn:E3; try done. simpl.
    destruct (sample negative (outsize_dist w) fuel g3)
      as [[os g4]| | |] eqn:E4; try done. simpl.
    intros [= <- <-]. simpl.
    apply sample_accepts in E1, E4.
    rewrite below_one_false in E1. rewrite negative_false in E4.
    done.
  - intros insize fuel g dinsize g' H. apply sample_accepts in H.
    by apply negative_false.
Qed.

Lemma accepted_sizes_not_negative_witness :
  1 <= 4 /\ (0 <= 18000)%Q.
Proof.
  apply (proj1 (@accepted_sizes_not_negative unit) 0%nat unit_workload
           7%nat "wl" "_"
           (mkJobSpecification "job_wl_7" 4 1200000 2000
              (mkDataFile "outfile_wl_7" 18000) [])
           unit_workload).
  reflexivity.
Defined.

(** C3, as stated, fails: with distributions that draw zero, [sampleJob]
    accepts zero flops, zero memory and a zero output size. *)
Lemma zero_is_accepted :
  exists job w',
    sampleJob 0 zero_workload 0 "" "" = Done (job, w') /\
    ~ (0 < total_flops job)%Q /\ ~ (0 < total_mem job)%Q /\
    ~ (0 < file_size (outfile job))%Q.
Proof.
  eexists _, _. split; [reflexivity|]. simpl. repeat split; by intros H.
Qed.

(** C4 (as amended). A rejection loop has no iteration cap and no error
    exit. It returns the first draw that passes its test, however many
    rejected draws come before it; as long as every draw fails the test it
    is still drawing; and it never ends in an exception or a fault. *)
Theorem resampling_has_no_cap {G A : Type} (reject : A -> bool)
    (dist : G -> A * G) (x : A) (g : G) :
  (forall n fuel,
      (forall m, (m < n)%nat -> reject (draws dist m x g).1 = true) ->
      reject (draws dist n x g).1 = false ->
      (n <= fuel)%nat ->
      resample reject dist fuel x g = Done (draws dist n x g)) /\
  (forall fuel,
      (forall m, (m <= fuel)%nat -> reject (draws dist m x g).1 = true) ->
      resample reject dist fuel x g = Unfinished) /\
  (forall fuel,
      resample reject dist fuel x g <> Fault /\
      forall e, resample reject dist fuel x g <> Throw e).
Proof.
  split; [|split].
  - intros n fuel. apply resample_first_valid.
  - intros fuel. apply resample_all_rejected.
  - intros fuel. apply resample_no_error.
Qed.

Lemma resampling_has_no_cap_witness :
  resample negative third_time 10 (-1)%Q 0%nat = Done (5%Q, 3%nat) /\
  resample negative third_time 2 (-1)%Q 0%nat = Unfinished.
Proof.
  destruct (resampling_has_no_cap negative third_time (-1)%Q 0%nat)
    as (Hfirst & Hrunning & _).
  split.
  - apply (Hfirst 3%nat 10%nat); [|reflexivity|lia].
    intros [|[|[|m]]] Hm; try reflexivity. lia.
  - apply (Hrunning 2%nat).
    intros [|[|[|m]]] Hm; try reflexivity. lia.
Defined.

Lemma never_valid_running (fuel : nat) (x : Q) :
  (x < 0)%Q -> resample negative never_valid fuel x tt = Unfinished.
Proof.
  intros Hx. apply negative_true in Hx. revert x Hx.
  induction fuel as [|fuel IH]; intros x Hx; simpl; rewrite Hx; [done|].
  by apply IH.
Qed.

(** C4, as stated, fails: no number of iterations ends the loop on a
    distribution that never draws a valid value. *)
Lemma no_iteration_cap :
  ~ exists cap : nat, forall fuel, (cap <= fuel)%nat ->
      sample negative never_valid fuel tt <> Unfinished.
Proof.
  intros [cap H]. apply (H cap); [lia|].
  unfold sample. simpl. by apply never_valid_running.
Qed.

(** ** Dataset assignment *)

Lemma to_int_small (z : Z) : 0 <= z < 2 ^ 31 -> to_int z = z.
Proof. intros H. unfold to_int. rewrite Z.mod_small; lia. Qed.

Lemma to_size_t_small (z : Z) : 0 <= z < 2 ^ 31 -> to_size_t z = z.
Proof. intros H. unfold to_size_t. rewrite Z.mod_small; lia. Qed.

Lemma count_files_from (ds : list Dataset) (acc : Z) :
  0 <= acc ->
  acc + Z.of_nat (length (concat (map files ds))) < 2 ^ 31 ->
  fold_left
    (fun sum d =>
       to_int (to_size_t (to_size_t sum + Z.of_nat (length (files d)))))
    ds acc
  = acc + Z.of_nat (length (concat (map files ds))).
Proof.
  revert acc. induction ds as [|d ds IH]; intros acc Hacc Hlt; simpl.
  - lia.
  - simpl in Hlt. rewrite length_app in Hlt.
    rewrite (to_size_t_small acc) by lia.
    rewrite to_size_t_small by lia. rewrite to_int_small by lia.
    rewrite IH by lia. rewrite length_app. lia.
Qed.

Lemma count_files_exact (ds : list Dataset) :
  Z.of_nat (length (concat (map files ds))) < 2 ^ 31 ->
  count_files ds = Z.of_nat (length (concat (map files ds))).
Proof.
  intros H. unfold count_files. rewrite count_files_from; lia.
Qed.

(** With [k >= 0] and [k] files for each of the jobs still to come, the
    test [distance(beg_it, end) < k] never holds, and job [i] receives the
    [k] files from position [i * k] on. *)
Lemma assign_loop_lookup (n j k : nat) (all_files : list DataFile)
    (batch : list JobSpecification) (i : nat) :
  ((j + n) * k <= length all_files)%nat ->
  assign_loop n (Z.of_nat j) (Z.of_nat k) all_files batch !! i =
  if decide (j <= i < j + n)%nat
  then add_infiles (take k (drop (i * k) all_files)) <$> batch !! i
  else batch !! i.
Proof.
  revert j batch. induction n as [|n IH]; intros j batch Hle; simpl.
  - case_decide; [lia|done].
  - assert ((Z.of_nat (length all_files) - Z.of_nat j * Z.of_nat k
               <? Z.of_nat k) = false) as ->.
    { apply Z.ltb_ge. nia. }
    replace (Z.of_nat j + 1) with (Z.of_nat (S j)) by lia.
    rewrite IH by lia.
    rewrite <- Nat2Z.inj_mul, !Nat2Z.id.
    destruct (decide (i = j)) as [->|Hne].
    + rewrite list_lookup_alter_eq.
      repeat case_decide; try lia. done.
    + rewrite list_lookup_alter_ne by done.
      repeat case_decide; try lia; done.
Qed.

Lemma assign_loop_length (n : nat) (j k : Z) (all_files : list DataFile)
    (batch : list JobSpecification) :
  length (assign_loop n j k all_files batch) = length batch.
Proof.
  revert j batch. induction n as [|n IH]; intros j batch; simpl; [done|].
  case_match.
  - by rewrite length_alter.
  - by rewrite IH, length_alter.
Qed.

(** The shares of [J] jobs, side by side, are the first [J * k] files. *)
Lemma shares_concat (k J : nat) (pool : list DataFile) :
  concat (map (fun j => take k (drop (j * k) pool)) (seq 0 J))
  = take (J * k) pool.
Proof.
  induction J as [|J IH]; [done|].
  rewrite seq_S, map_app, concat_app, IH. simpl. rewrite app_nil_r.
  rewrite take_take_drop. f_equal. lia.
Qed.

(** C1. What the code does where the claim hands out the remainder: a
    defect of the code. With a non-empty pool of [N] files and a batch of
    [J >= 1] jobs, and [k = N div J], every job [j] of [0..J-1] receives
    exactly the [k] files at the pool positions [j*k .. j*k+k-1], appended
    to its input files. The branch of lines 239-243, which gives all that
    is left to the job at which fewer than [k] files remain, is never
    taken: side by side the shares are the first [J*k] files of the pool,
    and the [N mod J] files after them are given to no job, against the
    documentation of [assignFiles] (shares "roughly equal, as far as
    possible") and against the claim. For ten files and three jobs each
    job receives three files and the tenth file none. *)
Theorem assignFiles_equal_shares {G : Type} (w : Workload G)
    (dataset_specs : list Dataset) :
  let pool := concat (map files (matching (infile_datasets w) dataset_specs)) in
  let N := length pool in
  let J := length (job_batch w) in
  let k := (N / J)%nat in
  pool <> [] -> (0 < J)%nat ->
  Z.of_nat N < 2 ^ 31 -> Z.of_nat J < 2 ^ 31 ->
  exists w',
    assignFiles w dataset_specs = Done w' /\
    length (job_batch w') = J /\
    (forall j job, job_batch w !! j = Some job ->
       job_batch w' !! j
       = Some (add_infiles (take k (drop (j * k) pool)) job)) /\
    concat (map (fun j => take k (drop (j * k) pool)) (seq 0 J))
    = take (N - N `mod` J) pool.
Proof.
  intros pool N J k Hpool HJ HN HJ31.
  unfold assignFiles. fold pool.
  destruct (matching (infile_datasets w) dataset_specs) as [|d ds] eqn:Em.
  { by subst pool. }
  rewrite <- Em. rewrite count_files_exact by (rewrite Em; exact HN).
  rewrite Em. fold pool. fold N. fold J.
  assert ((Z.of_nat N <? 0) = false) as -> by (apply Z.ltb_ge; lia).
  rewrite to_int_small by lia.
  assert ((Z.of_nat J =? 0) = false) as -> by (apply Z.eqb_neq; lia).
  rewrite Z.quot_div_nonneg by lia.
  rewrite <- Nat2Z.inj_div. fold k. rewrite Nat2Z.id.
  assert (J * k <= N)%nat as Hk.
  { subst k. apply Nat.Div0.mul_div_le. }
  eexists. split; [reflexivity|]. simpl. split; [|split].
  - apply assign_loop_length.
  - intros j job Hj.
    change 0 with (Z.of_nat 0).
    rewrite assign_loop_lookup by (simpl; lia).
    apply lookup_lt_Some in Hj as Hlt. fold J in Hlt.
    case_decide; [|lia]. by rewrite Hj.
  - rewrite shares_concat. f_equal. subst k.
    pose proof (Nat.Div0.div_mod N J). lia.
Qed.

Lemma assignFiles_equal_shares_witness :
  exists w',
    assignFiles E_workload [E_dataset] = Done w' /\
    length (job_batch w') = 3%nat /\
    (forall j job, job_batch E_workload !! j = Some job ->
       job_batch w' !! j
       = Some (add_infiles
                 (take 3 (drop (j * 3) (map E_file (seq 0 10)))) job)) /\
    concat (map (fun j => take 3 (drop (j * 3) (map E_file (seq 0 10))))
              (seq 0 3))
    = take 9 (map E_file (seq 0 10)).
Proof.
  apply (assignFiles_equal_shares E_workload [E_dataset]).
  - discriminate.
  - simpl. lia.
  - simpl. lia.
  - simpl. lia.
Defined.

(** C1 at its scenario, run on the code: with ten files and three jobs
    the third job receives three files, not the four of the claim, and
    the tenth file is given to no job. *)
Lemma scenario_E_drops_a_file :
  exists w',
    assignFiles E_workload [E_dataset] = Done w' /\
    map (fun job => map file_id (infiles job)) (job_batch w')
    = [["f0"; "f1"; "f2"]; ["f3"; "f4"; "f5"]; ["f6"; "f7"; "f8"]] /\
    (length ∘ infiles) <$> job_batch w' !! 2%nat <> Some 4%nat /\
    Forall (fun job => file_id (E_file 9) ∉ map file_id (infiles job))
      (job_batch w').
Proof.
  eexists. split; [reflexivity|]. split; [reflexivity|]. split; [done|].
  simpl.
  repeat (constructor;
          [intros H%list_elem_of_In; vm_compute in H; intuition discriminate|]).
  constructor.
Qed.

Lemma matching_nil (names : list string) (dataset_specs : list Dataset) :
  matching names dataset_specs = [] <->
  forall ds, ds ∈ dataset_specs -> name ds ∉ names.
Proof.
  unfold matching. split.
  - intros H ds Hin Hname.
    assert (ds ∈ filter (fun ds => name ds ∈ names) dataset_specs) as Hf.
    { apply list_elem_of_filter. done. }
    rewrite H in Hf. by apply not_elem_of_nil in Hf.
  - intros H. induction dataset_specs as [|d ds IH]; [done|].
    rewrite filter_cons. case_decide as Hd.
    + exfalso. apply (H d); [left|done].
    + apply IH. intros ds' Hin. apply H. by right.
Qed.

(** C9. [assignFiles] throws its runtime error exactly when no dataset
    specification carries one of the configured infile dataset names; with
    a matching dataset and an empty job batch it returns and leaves the
    workload as it was. *)
Theorem assignFiles_error_and_noop {G : Type} (w : Workload G)
    (dataset_specs : list Dataset) :
  ((exists what, assignFiles w dataset_specs = Throw (RuntimeError what)) <->
   (forall ds, ds ∈ dataset_specs -> name ds ∉ infile_datasets w)) /\
  (job_batch w = [] ->
   (exists ds, ds ∈ dataset_specs /\ name ds ∈ infile_datasets w) ->
   Z.of_nat
     (length (concat (map files (matching (infile_datasets w) dataset_specs))))
     < 2 ^ 31 ->
   assignFiles w dataset_specs = Done w).
Proof.
  split.
  - rewrite <- matching_nil. unfold assignFiles.
    destruct (matching (infile_datasets w) dataset_specs) as [|d ds] eqn:Em.
    + split; [done|]. intros _. by eexists.
    + split; [|done]. intros [what H]. exfalso.
      repeat case_match; done.
  - intros Hbatch (ds & Hin & Hname) Hlt. unfold assignFiles.
    destruct (matching (infile_datasets w) dataset_specs) as [|d ds'] eqn:Em.
    { pose proof (proj1 (matching_nil _ _) Em ds Hin) as Hn. done. }
    rewrite <- Em. rewrite count_files_exact by (rewrite Em; exact Hlt).
    assert (forall n : nat, (Z.of_nat n <? 0) = false) as Hnn.
    { intros n. apply Z.ltb_ge. lia. }
    rewrite Hnn. rewrite Em, Hbatch. reflexivity.
Qed.

Lemma assignFiles_error_and_noop_witness :
  assignFiles E_empty_workload [E_dataset] = Done E_empty_workload.
Proof.
  apply (proj2 (assignFiles_error_and_noop E_empty_workload [E_dataset])).
  - reflexivity.
  - exists E_dataset. split; [apply list_elem_of_here|].
    apply list_elem_of_here.
  - simpl. lia.
Defined.

(** ** The streaming builder *)

Section DualChain.
Local Open Scope nat_scope.

Lemma task_names_length (pos : list block_pos) :
  length (task_names pos) = 2 * length pos.
Proof.
  unfold task_names. induction pos as [|[[j f] b] pos IH]; [done|].
  rewrite bind_cons, length_app, IH. simpl. lia.
Qed.

Lemma task_names_snoc (pos : list block_pos) (j f b : nat) :
  task_names (pos ++ [(j, f, b)])
  = task_names pos ++ [dummytask_name j f b; task_name j f b].
Proof. unfold task_names. rewrite bind_app. simpl. done. Qed.

Lemma prev_block_app_l (pos ext : list block_pos) (m : nat) :
  m <= length pos -> prev_block (pos ++ ext) m = prev_block pos m.
Proof.
  destruct m as [|m]; [done|]. simpl. intros H.
  apply lookup_app_l. lia.
Qed.

Lemma prev_block_length (pos : list block_pos) :
  prev_block pos (length pos) = last pos.
Proof.
  rewrite last_lookup. destruct pos as [|p pos]; [done|]. done.
Qed.

Lemma dual_chain_deps_snoc (pos : list block_pos) (p : block_pos) :
  dual_chain_deps (pos ++ [p])
  = dual_chain_deps pos
      ++ block_deps (length pos) (same_job (last pos) (job_of p)).
Proof.
  unfold dual_chain_deps. rewrite imap_app, join_app. f_equal.
  - f_equal. apply imap_ext. intros m x Hm. simpl.
    rewrite prev_block_app_l; [done|].
    apply lookup_lt_Some in Hm. lia.
  - simpl. rewrite app_nil_r, Nat.add_0_r.
    rewrite prev_block_app_l by lia. by rewrite prev_block_length.
Qed.

Lemma ordered_app (prev : option block_pos) (l1 l2 : list block_pos) :
  ordered prev l1 ->
  ordered (from_option Some prev (last l1)) l2 ->
  ordered prev (l1 ++ l2).
Proof.
  revert prev. induction l1 as [|p l1 IH]; intros prev H1 H2; [done|].
  simpl in *. destruct H1 as [Hp H1]. split; [done|].
  apply IH; [done|]. rewrite last_cons in H2.
  destruct (last l1); done.
Qed.

Lemma ordered_snoc (pos : list block_pos) (p : block_pos) :
  ordered None pos -> next_ok (last pos) p -> ordered None (pos ++ [p]).
Proof.
  intros H1 H2. apply ordered_app; [done|]. simpl.
  destruct (last pos); done.
Qed.

Lemma ordered_lookup (prev : option block_pos) (pos : list block_pos)
    (m : nat) (p : block_pos) :
  ordered prev pos -> pos !! m = Some p ->
  next_ok (match m with O => prev | S m' => pos !! m' end) p.
Proof.
  revert prev m. induction pos as [|q pos IH]; intros prev m Hord Hm.
  - done.
  - destruct Hord as [Hq Hord]. destruct m as [|m].
    + simpl in Hm. by injection Hm as ->.
    + simpl in Hm. specialize (IH _ _ Hord Hm).
      destruct m as [|m]; done.
Qed.

Lemma next_ok_lt (p q : block_pos) : next_ok (Some p) q -> lex_lt p q.
Proof.
  destruct p as [[j f] b], q as [[j' f'] b']. unfold next_ok, lex_lt. lia.
Qed.

Lemma lex_lt_trans (p q r : block_pos) :
  lex_lt p q -> lex_lt q r -> lex_lt p r.
Proof.
  destruct p as [[j f] b], q as [[j' f'] b'], r as [[j'' f''] b''].
  unfold lex_lt. lia.
Qed.

Lemma ordered_after (x : block_pos) (pos : list block_pos) (n : nat)
    (q : block_pos) :
  ordered (Some x) pos -> pos !! n = Some q -> lex_lt x q.
Proof.
  revert x n. induction pos as [|r pos IH]; intros x n Hord Hn; [done|].
  destruct Hord as [Hr Hord]. apply next_ok_lt in Hr.
  destruct n as [|n]; simpl in Hn.
  - by injection Hn as <-.
  - apply lex_lt_trans with r; [done|]. by apply IH with n.
Qed.

(** Blocks are created in strictly increasing order. *)
Lemma ordered_sorted (prev : option block_pos) (pos : list block_pos)
    (m n : nat) (p q : block_pos) :
  ordered prev pos -> m < n ->
  pos !! m = Some p -> pos !! n = Some q -> lex_lt p q.
Proof.
  revert prev m n. induction pos as [|x pos IH]; intros prev m n Hord Hmn Hm Hn.
  - done.
  - destruct Hord as [_ Hord]. destruct n as [|n]; [lia|].
    destruct m as [|m]; simpl in Hm, Hn.
    + injection Hm as <-. by apply ordered_after with pos n.
    + apply IH with (Some x) m n; [done|lia|done|done].
Qed.

Lemma chain_tail_snoc (pos : list block_pos) (j f b : nat) :
  chain_tail (pos ++ [(j, f, b)]) j
  = Some (2 * length pos, 2 * length pos + 1).
Proof.
  unfold chain_tail. rewrite last_snoc. simpl.
  rewrite bool_decide_eq_true_2 by done.
  rewrite length_app. simpl. f_equal. f_equal; lia.
Qed.

Lemma fmap_task_id_alter (f : WorkflowTask -> WorkflowTask) (i : nat)
    (l : list WorkflowTask) :
  (forall t, task_id (f t) = task_id t) ->
  task_id <$> alter f i l = task_id <$> l.
Proof.
  intros Hf. revert i. induction l as [|t l IH]; intros i; [done|].
  destruct i as [|i]; simpl.
  - by rewrite Hf.
  - f_equal. apply IH.
Qed.

Lemma built_length (wf : Workflow) (pos : list block_pos) :
  built wf pos -> length (tasks wf) = 2 * length pos.
Proof.
  intros [Hn _ _]. rewrite <- task_names_length, <- Hn.
  by rewrite length_fmap.
Qed.
End DualChain.

Section BuilderFacts.
Context {G : Type}.
Variables flops mem insize : G -> Q * G.
Variable dummy_flops : Q.
Local Open Scope nat_scope.

Lemma alter_snoc {A} (f : A -> A) (l : list A) (x : A) :
  alter f (length l) (l ++ [x]) = l ++ [f x].
Proof. induction l as [|y l IH]; [done|]. simpl. f_equal. apply IH. Qed.

(** [add_block] in closed form. *)
Lemma add_block_eq (j f b : nat) (blocksize dinsize dflops dmem : Q)
    (dp tp : option nat) (wf : Workflow) :
  add_block dummy_flops j f b blocksize dinsize dflops dmem dp tp wf
  = (length (tasks wf), S (length (tasks wf)),
     mkWorkflow
       (tasks wf ++ [dummy_of dummy_flops j f b blocksize;
                     task_of j f b blocksize dinsize dflops dmem])
       (data_files wf ++ [mkDataFile (infile_name j f b) blocksize])
       (control_deps wf
          ++ parent_dep dp (length (tasks wf))
          ++ [(length (tasks wf), S (length (tasks wf)))]
          ++ parent_dep tp (S (length (tasks wf))))).
Proof.
  unfold add_block, addTask, addFile, addInputFile. simpl.
  rewrite alter_snoc.
  destruct dp, tp; unfold addControlDependency; simpl;
    rewrite ?length_app; simpl; rewrite ?Nat.add_1_r, <- ?app_assoc;
    reflexivity.
Qed.

Lemma add_block_built (j f b : nat) (blocksize dinsize dflops dmem : Q)
    (wf : Workflow) (pos : list block_pos) :
  built wf pos -> next_ok (last pos) (j, f, b) ->
  exists wf',
    add_block dummy_flops j f b blocksize dinsize dflops dmem
      (fst <$> chain_tail pos j) (snd <$> chain_tail pos j) wf
    = (2 * length pos, 2 * length pos + 1, wf') /\
    built wf' (pos ++ [(j, f, b)]).
Proof.
  intros Hb Hnext. pose proof (built_length _ _ Hb) as Hlen.
  destruct Hb as [Hn Hd Ho].
  rewrite add_block_eq, Hlen.
  replace (S (2 * length pos)) with (2 * length pos + 1) by lia.
  eexists. split; [reflexivity|]. split; cbn [tasks control_deps].
  - rewrite fmap_app, Hn, task_names_snoc. done.
  - rewrite Hd, dual_chain_deps_snoc. f_equal.
    unfold chain_tail, block_deps. cbn [job_of fst].
    destruct (same_job (last pos) j); simpl; reflexivity.
  - by apply ordered_snoc.
Qed.

Lemma blocks_of_file_cons (j f b n : nat) :
  blocks_of_file j f b (S n) = (j, f, b) :: blocks_of_file j f (S b) n.
Proof. done. Qed.

Lemma blocks_of_file_snoc (j f n : nat) :
  blocks_of_file j f 0 (S n) = blocks_of_file j f 0 n ++ [(j, f, n)].
Proof. unfold blocks_of_file. rewrite seq_S, fmap_app. done. Qed.

(** The loop over the full blocks keeps the workflow a dual chain; when
    it has run at least once, the end pointers are its last pair. *)
Lemma full_blocks_built (n j f b nblocks : nat)
    (xrd dinsize dflops dmem : Q) (c : chain) (wf : Workflow)
    (pos : list block_pos) :
  b + n = nblocks ->
  built wf pos -> next_ok (last pos) (j, f, b) ->
  dummytask_parent c = (fst <$> chain_tail pos j) ->
  task_parent c = (snd <$> chain_tail pos j) ->
  exists c' wf',
    full_blocks dummy_flops n j f b nblocks xrd dinsize dflops dmem c wf
    = (c', wf') /\
    built wf' (pos ++ blocks_of_file j f b n) /\
    dummytask_parent c'
    = (fst <$> chain_tail (pos ++ blocks_of_file j f b n) j) /\
    task_parent c'
    = (snd <$> chain_tail (pos ++ blocks_of_file j f b n) j) /\
    (n = 0 -> enddummytask c' = enddummytask c /\ endtask c' = endtask c) /\
    (0 < n ->
     enddummytask c'
     = (fst <$> chain_tail (pos ++ blocks_of_file j f b n) j) /\
     endtask c'
     = (snd <$> chain_tail (pos ++ blocks_of_file j f b n) j)).
Proof.
  revert b c wf pos.
  induction n as [|n IH]; intros b c wf pos Hbn Hb Hnext Hdp Htp.
  - simpl. rewrite app_nil_r. eexists _, _. split; [reflexivity|].
    do 3 (split; [done|]). split; [done|]. intros H. lia.
  - cbn [full_blocks]. rewrite Hdp, Htp.
    destruct (add_block_built j f b xrd dinsize dflops dmem wf pos Hb Hnext)
      as (wf1 & -> & Hb1).
    cbv beta iota zeta.
    rewrite blocks_of_file_cons, cons_middle, app_assoc.
    set (pos1 := pos ++ [(j, f, b)]) in *.
    assert (next_ok (last pos1) (j, f, S b)) as Hnext1.
    { subst pos1. rewrite last_snoc. simpl. by left. }
    pose proof (chain_tail_snoc pos j f b) as Htail. fold pos1 in Htail.
    match goal with
    | |- context [full_blocks _ n _ _ _ _ _ _ _ _ ?c1 wf1] => set (cc := c1)
    end.
    assert (dummytask_parent cc = (fst <$> chain_tail pos1 j) /\
            task_parent cc = (snd <$> chain_tail pos1 j)) as [Hdp1 Htp1].
    { subst cc. rewrite Htail. by destruct (b =? nblocks - 1). }
    destruct (IH (S b) cc wf1 pos1 ltac:(lia) Hb1 Hnext1 Hdp1 Htp1)
      as (c' & wf' & -> & Hb' & Hdp' & Htp' & He0 & He1).
    eexists _, _. split; [reflexivity|]. do 3 (split; [done|]).
    split; [intros H; lia|]. intros _.
    destruct (decide (n = 0)) as [->|Hn0]; [|apply He1; lia].
    destruct (He0 eq_refl) as [-> ->]. subst cc.
    assert ((b =? nblocks - 1) = true) as -> by (apply Nat.eqb_eq; lia).
    change (blocks_of_file j f (S b) 0) with (@nil block_pos).
    rewrite app_nil_r. subst pos1. rewrite chain_tail_snoc. done.
Qed.

Lemma next_ok_after_blocks (pos : list block_pos) (j f n : nat) :
  before_file (last pos) j f ->
  next_ok (last (pos ++ blocks_of_file j f 0 n)) (j, f, n).
Proof.
  intros H. destruct n as [|n].
  - change (blocks_of_file j f 0 0) with (@nil block_pos).
    rewrite app_nil_r. destruct (last pos) as [[[j' f'] b']|]; simpl in *.
    + right. done.
    + done.
  - rewrite blocks_of_file_snoc, app_assoc, last_snoc. simpl. by left.
Qed.

Lemma before_file_after_blocks (pos : list block_pos) (j f n : nat) :
  before_file (last pos) j f ->
  before_file (last (pos ++ blocks_of_file j f 0 n)) j (S f).
Proof.
  intros H. destruct n as [|n].
  - change (blocks_of_file j f 0 0) with (@nil block_pos).
    rewrite app_nil_r. destruct (last pos) as [[[j' f'] b']|]; simpl in *.
    + lia.
    + done.
  - rewrite blocks_of_file_snoc, app_assoc, last_snoc. simpl. lia.
Qed.

(** One file extends the dual chain by its blocks, and the end pointers
    are again the last pair of the job. *)
Lemma fill_file_built (j f : nat) (dinsize : Q) (ubs : bool)
    (xrd dflops dmem : Q) (wf : Workflow) (pos : list block_pos) :
  built wf pos -> before_file (last pos) j f ->
  exists nb xrd' wf',
    fill_file dummy_flops j f dinsize ubs xrd dflops dmem
      (fst <$> chain_tail pos j) (snd <$> chain_tail pos j) wf
    = (xrd', fst <$> chain_tail (pos ++ blocks_of_file j f 0 nb) j,
       snd <$> chain_tail (pos ++ blocks_of_file j f 0 nb) j, wf') /\
    built wf' (pos ++ blocks_of_file j f 0 nb).
Proof.
  intros Hb Hbf. unfold fill_file.
  set (xrd' := if ubs then xrd else dinsize).
  set (nblocks := Qto_size_t (dinsize / xrd')).
  match goal with
  | |- context [full_blocks _ _ _ _ _ _ _ _ _ _ ?c wf] => set (c0 := c)
  end.
  assert (dummytask_parent c0 = (fst <$> chain_tail pos j) /\
          task_parent c0 = (snd <$> chain_tail pos j) /\
          enddummytask c0 = (fst <$> chain_tail pos j) /\
          endtask c0 = (snd <$> chain_tail pos j)) as (Hdp & Htp & Hed & Het).
  { subst c0. by destruct (chain_tail pos j) as [[d t]|]. }
  pose proof (next_ok_after_blocks pos j f 0 Hbf) as Hnext0.
  change (blocks_of_file j f 0 0) with (@nil block_pos) in Hnext0.
  rewrite app_nil_r in Hnext0.
  destruct (full_blocks_built nblocks j f 0 nblocks xrd' dinsize dflops dmem
              c0 wf pos eq_refl Hb Hnext0 Hdp Htp)
    as (c' & wf1 & -> & Hb1 & Hdp1 & Htp1 & He0 & He1).
  cbv beta iota zeta.
  destruct (Qeq_bool _ 0).
  - exists nblocks, xrd', wf1. split; [|done].
    destruct (decide (nblocks = 0)) as [Hz|Hnz].
    + destruct (He0 Hz) as [-> ->]. rewrite Hed, Het, Hz.
      change (blocks_of_file j f 0 0) with (@nil block_pos).
      by rewrite app_nil_r.
    + destruct (He1 ltac:(lia)) as [-> ->]. done.
  - rewrite Hdp1, Htp1.
    destruct (add_block_built j f nblocks
                (dinsize - inject_Z (Z.of_nat nblocks) * xrd')%Q dinsize
                dflops dmem wf1 _ Hb1
                (next_ok_after_blocks pos j f nblocks Hbf))
      as (wf2 & -> & Hb2).
    exists (S nblocks), xrd', wf2.
    rewrite blocks_of_file_snoc, app_assoc, chain_tail_snoc. done.
Qed.

Lemma files_loop_built (fuel n j f : nat) (ubs : bool) (xrd dflops dmem : Q)
    (g : G) (wf : Workflow) (pos : list block_pos) xrd' ed' et' g' wf' :
  built wf pos -> before_file (last pos) j f ->
  files_loop insize dummy_flops fuel n j f ubs xrd dflops dmem
    (fst <$> chain_tail pos j) (snd <$> chain_tail pos j) g wf
  = Done (xrd', ed', et', g', wf') ->
  exists pos',
    built wf' pos' /\ pos `prefix_of` pos' /\
    ed' = (fst <$> chain_tail pos' j) /\ et' = (snd <$> chain_tail pos' j).
Proof.
  revert f xrd g wf pos.
  induction n as [|n IH]; intros f xrd g wf pos Hb Hbf; simpl.
  - intros [= <- <- <- <- <-]. exists pos. done.
  - destruct (sample negative insize fuel g) as [[dinsize g1]| | |];
      try done. simpl.
    destruct (fill_file_built j f dinsize ubs xrd dflops dmem wf pos Hb Hbf)
      as (nb & xrd1 & wf1 & -> & Hb1).
    intros Hrun. apply IH in Hrun; [|done|by apply before_file_after_blocks].
    destruct Hrun as (pos' & Hb' & Hpre & He).
    exists pos'. split; [done|]. split; [|done].
    etrans; [|exact Hpre]. by apply prefix_app_r.
Qed.

Lemma chain_tail_before_job (pos : list block_pos) (j : nat) :
  before_job (last pos) j -> chain_tail pos j = None.
Proof.
  unfold chain_tail, before_job, same_job.
  destruct (last pos) as [p|]; [|done]. intros H.
  rewrite bool_decide_eq_false_2; [done|lia].
Qed.

Lemma chain_tail_Some (pos : list block_pos) (j : nat) (t : nat * nat) :
  chain_tail pos j = Some t ->
  exists p, last pos = Some p /\ job_of p = j.
Proof.
  unfold chain_tail, same_job. destruct (last pos) as [p|]; [|done].
  case_bool_decide; [|done]. intros _. by exists p.
Qed.

Lemma before_job_before_file (prev : option block_pos) (j : nat) :
  before_job prev j -> before_file prev j 0.
Proof.
  destruct prev as [[[j' f'] b']|]; [|done].
  unfold before_job, job_of. simpl. lia.
Qed.

(** A job that returns has added at least one block. *)
Lemma fill_job_built (fuel j ipt : nat) (ubs : bool) (xrd : Q) (g : G)
    (wf : Workflow) (pos : list block_pos) xrd' g' wf' :
  built wf pos -> before_job (last pos) j ->
  fill_job flops mem insize dummy_flops fuel j ipt ubs xrd g wf
  = Done (xrd', g', wf') ->
  exists pos',
    built wf' pos' /\ pos `prefix_of` pos' /\
    exists p, last pos' = Some p /\ job_of p = j.
Proof.
  intros Hb Hbj. unfold fill_job.
  destruct (sample negative flops fuel g) as [[dflops g1]| | |]; try done.
  simpl.
  destruct (sample negative mem fuel g1) as [[dmem g2]| | |]; try done.
  simpl.
  pose proof (files_loop_built fuel ipt j 0 ubs xrd dflops dmem g2 wf pos)
    as HF.
  rewrite (chain_tail_before_job pos j Hbj) in HF. simpl in HF.
  destruct (files_loop insize dummy_flops fuel ipt j 0 ubs xrd dflops dmem
              None None g2 wf)
    as [[[[[xrd1 ed1] et1] g3] wf1]| | |]; try done.
  simpl.
  pose proof (before_job_before_file _ _ Hbj) as Hbf0.
  destruct (HF _ _ _ _ _ Hb Hbf0 eq_refl) as (pos' & Hb' & Hpre & _ & Het).
  destruct et1 as [t|]; [|done]. intros [= <- <- <-].
  exists pos'. split; [|split; [done|]].
  - destruct Hb' as [Hn Hd Ho]. split; simpl; [|done|done].
    rewrite fmap_task_id_alter; done.
  - destruct (chain_tail pos' j) as [tl|] eqn:Etl; [|done].
    by apply chain_tail_Some in Etl.
Qed.

Lemma jobs_loop_built (fuel n j ipt : nat) (ubs : bool) (xrd : Q) (g : G)
    (wf : Workflow) (pos : list block_pos) g' wf' :
  built wf pos -> before_job (last pos) j ->
  jobs_loop flops mem insize dummy_flops fuel n j ipt ubs xrd g wf
  = Done (g', wf') ->
  exists pos',
    built wf' pos' /\ pos `prefix_of` pos' /\
    forall i, j <= i < j + n -> exists p, p ∈ pos' /\ job_of p = i.
Proof.
  revert j xrd g wf pos.
  induction n as [|n IH]; intros j xrd g wf pos Hb Hbj; simpl.
  - intros [= <- <-]. exists pos. split; [done|]. split; [done|].
    intros i Hi. lia.
  - destruct (fill_job flops mem insize dummy_flops fuel j ipt ubs xrd g wf)
      as [[[xrd1 g1] wf1]| | |] eqn:Ejob; try done. simpl.
    apply fill_job_built with (pos := pos) in Ejob; [|done|done].
    destruct Ejob as (pos1 & Hb1 & Hpre1 & p & Hlast & Hp).
    intros Hrun. apply IH with (pos := pos1) in Hrun; [|done|].
    2:{ rewrite Hlast. simpl. lia. }
    destruct Hrun as (pos' & Hb' & Hpre & Hcov).
    exists pos'. split; [done|]. split; [by etrans|].
    intros i Hi. destruct (decide (i = j)) as [->|Hne].
    + exists p. split; [|done].
      apply elem_of_prefix with pos1; [|done].
      by apply last_Some_elem_of.
    + apply Hcov. lia.
Qed.

Lemma built_empty : built empty_workflow [].
Proof. by split. Qed.
End BuilderFacts.

Section DualChainFacts.
Local Open Scope nat_scope.

Lemma dual_chain_elem (pos : list block_pos) (p c : nat) :
  (p, c) ∈ dual_chain_deps pos <->
  exists m x, pos !! m = Some x /\
    (p, c) ∈ block_deps m (same_job (prev_block pos m) (job_of x)).
Proof.
  unfold dual_chain_deps. rewrite list_elem_of_join. split.
  - intros (l & Hin & Hl). apply elem_of_lookup_imap in Hl.
    destruct Hl as (m & x & -> & Hm). by exists m, x.
  - intros (m & x & Hm & Hin). eexists. split; [exact Hin|].
    apply elem_of_lookup_imap. by exists m, x.
Qed.

Lemma block_deps_elem (m : nat) (linked : bool) (p c : nat) :
  (p, c) ∈ block_deps m linked <->
  (p = 2 * m /\ c = 2 * m + 1) \/
  (linked = true /\
   ((p = 2 * m - 2 /\ c = 2 * m) \/ (p = 2 * m - 1 /\ c = 2 * m + 1))).
Proof.
  unfold block_deps. destruct linked; simpl;
    rewrite ?elem_of_cons, ?elem_of_nil; split.
  - intros [H|[H|[H|[]]]]; injection H as -> ->.
    + right. split; [done|]. by left.
    + by left.
    + right. split; [done|]. by right.
  - intros [[-> ->]|[_ [[-> ->]|[-> ->]]]]; auto.
  - intros [H|[]]. injection H as -> ->. by left.
  - intros [[-> ->]|[H _]]; [by left|done].
Qed.

Lemma same_job_true (prev : option block_pos) (j : nat) :
  same_job prev j = true <-> exists f b, prev = Some (j, f, b).
Proof.
  unfold same_job. destruct prev as [[[j' f'] b']|].
  - rewrite bool_decide_eq_true. unfold job_of. simpl. split.
    + intros ->. by exists f', b'.
    + by intros (f & b & [= -> _ _]).
  - split; [done|]. by intros (f & b & H).
Qed.

Lemma same_job_prev_pos (pos : list block_pos) (m j : nat) :
  same_job (prev_block pos m) j = true -> 0 < m.
Proof. destruct m; [done|lia]. Qed.

(** Every dependency of a dual chain points forward. *)
Lemma dual_chain_forward (pos : list block_pos) (p c : nat) :
  (p, c) ∈ dual_chain_deps pos -> p < c < 2 * length pos.
Proof.
  rewrite dual_chain_elem. intros (m & x & Hm & Hin).
  apply lookup_lt_Some in Hm. apply block_deps_elem in Hin.
  destruct Hin as [[-> ->]|[Hl Hin]]; [lia|].
  apply same_job_prev_pos in Hl. lia.
Qed.

(** The predecessors of the task of the block at place [m]. *)
Lemma dual_chain_preds (pos : list block_pos) (m j f b p : nat) :
  pos !! m = Some (j, f, b) ->
  (p, 2 * m + 1) ∈ dual_chain_deps pos <->
  p = 2 * m \/
  (p = 2 * m - 1 /\ exists f' b', prev_block pos m = Some (j, f', b')).
Proof.
  intros Hm. rewrite dual_chain_elem. split.
  - intros (m' & x & Hm' & Hin). apply block_deps_elem in Hin.
    destruct Hin as [[-> Hc]|[Hl [[_ Hc]|[-> Hc]]]].
    + left. lia.
    + lia.
    + assert (m' = m) as -> by lia. rewrite Hm in Hm'.
      injection Hm' as <-. right. split; [done|].
      by apply same_job_true in Hl.
  - intros [->|[-> Hprev]].
    + exists m, (j, f, b). split; [done|]. apply block_deps_elem. by left.
    + exists m, (j, f, b). split; [done|]. apply block_deps_elem.
      right. split; [by apply same_job_true|]. by right.
Qed.
End DualChainFacts.

(** C7. A workflow that the streaming builder has filled is acyclic: every
    control dependency goes from a task to a task created later. Its
    tasks are, block after block in creation order ([pos]), a dummy
    (transfer) task at place [2m] and the block's task at place [2m+1].
    The control dependencies are those of the dual-chain rule. The
    predecessors of the task of block [b] of file [f] of job [j] are
    its own dummy task and, if the block created before it belongs to the
    same job, the task of that block, and no other. By [next_ok] that
    earlier block is block [b-1] of the same file when [b > 0], and for
    [b = 0] a block of an earlier file of the job: the file boundary. As
    blocks are created in strictly increasing order of job, file and
    number, it is the last block of the latest earlier file of the job
    that has a block. *)
Theorem streaming_workflow_dual_chain {G : Type}
    (flops mem insize : G -> Q * G) (dummy_flops : Q)
    (fuel num_jobs infiles_per_task : nat) (use_blockstreaming : bool)
    (xrd_block_size : Q) (gen gen' : G) (wf : Workflow) :
  fill_streaming_workflow flops mem insize dummy_flops fuel empty_workflow
    num_jobs infiles_per_task use_blockstreaming xrd_block_size gen
  = Done (gen', wf) ->
  (forall p c, (p, c) ∈ control_deps wf ->
               (p < c < length (tasks wf))%nat) /\
  exists pos : list block_pos,
    task_id <$> tasks wf = task_names pos /\
    control_deps wf = dual_chain_deps pos /\
    (forall m n p q, (m < n)%nat ->
       pos !! m = Some p -> pos !! n = Some q -> lex_lt p q) /\
    forall m j f b, pos !! m = Some (j, f, b) ->
      next_ok (prev_block pos m) (j, f, b) /\
      forall p, (p, 2 * m + 1)%nat ∈ control_deps wf <->
        p = (2 * m)%nat \/
        (p = (2 * m - 1)%nat /\
         exists f' b', prev_block pos m = Some (j, f', b')).
Proof.
  unfold fill_streaming_workflow. intros Hrun.
  apply jobs_loop_built with (pos := []) in Hrun;
    [|apply built_empty|done].
  destruct Hrun as (pos & Hb & _ & _).
  pose proof (built_length _ _ Hb) as Hlen. destruct Hb as [Hn Hd Ho].
  split.
  - intros p c Hin. rewrite Hd in Hin. rewrite Hlen.
    by apply dual_chain_forward.
  - exists pos. split; [done|]. split; [done|]. split.
    { intros m n p q. by apply (ordered_sorted None). }
    intros m j f b Hm. split.
    + pose proof (ordered_lookup None pos m (j, f, b) Ho Hm) as H.
      by destruct m.
    + intros p. rewrite Hd. by apply dual_chain_preds with f b.
Qed.

Lemma streaming_workflow_dual_chain_witness :
  (forall p c, (p, c) ∈ control_deps (scenario_A_workflow 0 1200000 2000) ->
               (p < c < 6)%nat) /\
  exists pos : list block_pos,
    task_id <$> tasks (scenario_A_workflow 0 1200000 2000) = task_names pos /\
    control_deps (scenario_A_workflow 0 1200000 2000) = dual_chain_deps pos /\
    (forall m n p q, (m < n)%nat ->
       pos !! m = Some p -> pos !! n = Some q -> lex_lt p q) /\
    forall m j f b, pos !! m = Some (j, f, b) ->
      next_ok (prev_block pos m) (j, f, b) /\
      forall p,
        (p, 2 * m + 1)%nat ∈ control_deps (scenario_A_workflow 0 1200000 2000)
        <-> p = (2 * m)%nat \/
            (p = (2 * m - 1)%nat /\
             exists f' b', prev_block pos m = Some (j, f', b')).
Proof.
  apply (streaming_workflow_dual_chain (constant 1200000%Q) (constant 2000%Q)
           (constant 2500000%Q) 0 0 1 1 true 1000000 tt tt).
  reflexivity.
Defined.

(** C10. The builder attaches the output file of a job to the last task of
    the job without a test, which is defined only if the job has created a
    block. Without input files the pointer is still null when the
    attachment is reached: with one job or more the builder ends in a fault.
    A run that returns has created at least one block, hence a task, for
    every job. *)
Theorem output_file_needs_a_block {G : Type}
    (flops mem insize : G -> Q * G) (dummy_flops : Q) (fuel : nat) :
  (forall wf n use_blockstreaming xrd_block_size g dflops g1 dmem g2,
      sample negative flops fuel g = Done (dflops, g1) ->
      sample negative mem fuel g1 = Done (dmem, g2) ->
      fill_streaming_workflow flops mem insize dummy_flops fuel wf (S n) 0
        use_blockstreaming xrd_block_size g = Fault) /\
  (forall num_jobs infiles_per_task use_blockstreaming xrd_block_size g g' wf,
      fill_streaming_workflow flops mem insize dummy_flops fuel empty_workflow
        num_jobs infiles_per_task use_blockstreaming xrd_block_size g
      = Done (g', wf) ->
      forall j, (j < num_jobs)%nat ->
        exists f b t, t ∈ tasks wf /\ task_id t = task_name j f b).
Proof.
  split.
  - intros wf n ubs xrd g dflops g1 dmem g2 Hf Hm.
    unfold fill_streaming_workflow. cbn [jobs_loop]. unfold fill_job.
    rewrite Hf. simpl. rewrite Hm. reflexivity.
  - intros num_jobs ipt ubs xrd g g' wf Hrun j Hj.
    unfold fill_streaming_workflow in Hrun.
    apply jobs_loop_built with (pos := []) in Hrun;
      [|apply built_empty|done].
    destruct Hrun as (pos & [Hn _ _] & _ & Hcov).
    destruct (Hcov j ltac:(lia)) as ([[j' f] b] & Hin & Hjob).
    unfold job_of in Hjob. simpl in Hjob. subst j'.
    assert (task_name j f b ∈ task_id <$> tasks wf) as Ht.
    { rewrite Hn. unfold task_names. apply list_elem_of_bind.
      exists (j, f, b). split; [|done]. simpl.
      apply list_elem_of_further, list_elem_of_here. }
    apply list_elem_of_fmap in Ht. destruct Ht as (t & Hid & Ht).
    by exists f, b, t.
Qed.

Lemma output_file_needs_a_block_witness :
  fill_streaming_workflow (constant 1200000%Q) (constant 2000%Q)
    (constant 2500000%Q) 0 0 empty_workflow 2 0 true 1000000 tt = Fault /\
  exists f b t,
    t ∈ tasks (scenario_A_workflow 0 1200000 2000) /\
    task_id t = task_name 0 f b.
Proof.
  destruct (@output_file_needs_a_block unit (constant 1200000%Q)
              (constant 2000%Q) (constant 2500000%Q) 0 0) as [Hfault Hblock].
  split.
  - apply (Hfault empty_workflow 1%nat true 1000000%Q tt 1200000%Q tt
             2000%Q tt); reflexivity.
  - apply (Hblock 1%nat 1%nat true 1000000%Q tt tt
             (scenario_A_workflow 0 1200000 2000) eq_refl 0%nat).
    lia.
Defined.

(** ** Block sizes *)

Lemma full_blocks_data_files (dummy_flops : Q) (n j f b nblocks : nat)
    (xrd dinsize dflops dmem : Q) (c : chain) (wf : Workflow) :
  data_files
    (full_blocks dummy_flops n j f b nblocks xrd dinsize dflops dmem c wf).2
  = data_files wf ++ block_files j f b n xrd.
Proof.
  revert b c wf. induction n as [|n IH]; intros b c wf.
  - simpl. by rewrite app_nil_r.
  - cbn [full_blocks]. rewrite add_block_eq. cbv beta iota zeta.
    rewrite IH. cbn [data_files]. rewrite <- app_assoc. done.
Qed.

Lemma Qsum_app (l1 l2 : list Q) :
  (Qsum (l1 ++ l2) == Qsum l1 + Qsum l2)%Q.
Proof.
  induction l1 as [|x l1 IH]; simpl.
  - by rewrite Qplus_0_l.
  - rewrite IH. by rewrite Qplus_assoc.
Qed.

Lemma Qsum_block_files (j f b n : nat) (size : Q) :
  (Qsum (file_size <$> block_files j f b n size)
   == inject_Z (Z.of_nat n) * size)%Q.
Proof.
  revert b. induction n as [|n IH]; intros b.
  - simpl. by rewrite Qmult_0_l.
  - change (Qsum (file_size <$> block_files j f b (S n) size))
      with (size + Qsum (file_size <$> block_files j f (S b) n size))%Q.
    rewrite IH, Nat2Z.inj_succ. unfold Z.succ. rewrite inject_Z_plus. ring.
Qed.

(** C5. The input blocks that the builder creates for one file are
    [nblocks] blocks of the effective block size and, when the rest
    [dinsize - nblocks * block size] is not zero, one more block of that
    size; their sizes add up to the sampled size of the file, in exact
    arithmetic. *)
Theorem file_blocks_sum_to_file_size (dummy_flops : Q) (j f : nat)
    (dinsize : Q) (use_blockstreaming : bool) (xrd_block_size dflops dmem : Q)
    (enddummytask0 endtask0 : option nat) (wf : Workflow) :
  let size := if use_blockstreaming then xrd_block_size else dinsize in
  let nblocks := Qto_size_t (dinsize / size) in
  let rest := (dinsize - inject_Z (Z.of_nat nblocks) * size)%Q in
  let blocks :=
    block_files j f 0 nblocks size
      ++ (if Qeq_bool rest 0 then []
          else [mkDataFile (infile_name j f nblocks) rest]) in
  (0 <= dinsize)%Q -> (0 < size)%Q ->
  data_files
    (fill_file dummy_flops j f dinsize use_blockstreaming xrd_block_size
       dflops dmem enddummytask0 endtask0 wf).2
  = data_files wf ++ blocks /\
  (Qsum (file_size <$> blocks) == dinsize)%Q.
Proof.
  intros size nblocks rest blocks _ _. split.
  - unfold fill_file. fold size. fold nblocks.
    match goal with
    | |- context [full_blocks _ _ _ _ _ _ _ _ _ _ ?c wf] => set (c0 := c)
    end.
    pose proof (full_blocks_data_files dummy_flops nblocks j f 0 nblocks size
                  dinsize dflops dmem c0 wf) as Hfull.
    destruct (full_blocks dummy_flops nblocks j f 0 nblocks size dinsize
                dflops dmem c0 wf) as [c' wf1].
    simpl in Hfull. fold rest. subst blocks.
    destruct (Qeq_bool rest 0).
    + simpl. by rewrite app_nil_r.
    + rewrite add_block_eq. simpl. rewrite Hfull, <- app_assoc. done.
  - subst blocks. rewrite fmap_app, Qsum_app, Qsum_block_files.
    destruct (Qeq_bool rest 0) eqn:E.
    + apply Qeq_bool_eq in E. simpl. subst rest.
      rewrite Qplus_0_r.
      transitivity (dinsize
                    - (dinsize - inject_Z (Z.of_nat nblocks) * size))%Q;
        [ring|].
      rewrite E. ring.
    + simpl. subst rest. ring.
Qed.

Lemma file_blocks_sum_to_file_size_witness :
  data_files
    (fill_file 0 0 0 2500000 true 1000000 1200000 2000 None None
       empty_workflow).2
  = [ mkDataFile "infile_0_file_0_block_0" 1000000;
      mkDataFile "infile_0_file_0_block_1" 1000000;
      mkDataFile "infile_0_file_0_block_2" 500000 ] /\
  (1000000 + (1000000 + (500000 + 0)) == 2500000)%Q.
Proof.
  apply (file_blocks_sum_to_file_size 0 0 0 2500000 true 1000000 1200000 2000
           None None empty_workflow); unfold Qle, Qlt; simpl; lia.
Defined.

(** C6. One job with one file of exactly 2500000 bytes, block streaming
    with blocks of 1000000 bytes: the builder makes two full blocks and a
    rest block of 500000 bytes, that is three dummy (transfer) tasks and
    three tasks, the dummy tasks in a chain, the tasks in a chain, every
    task after its dummy task, and the last task carries the output file
    of size zero. *)
Theorem scenario_A_three_blocks {G : Type} (flops mem insize : G -> Q * G)
    (dummy_flops : Q) (fuel : nat) (g g1 g2 g3 : G) (dflops dmem : Q) :
  sample negative flops fuel g = Done (dflops, g1) ->
  sample negative mem fuel g1 = Done (dmem, g2) ->
  insize g2 = (2500000%Q, g3) ->
  fill_streaming_workflow flops mem insize dummy_flops fuel empty_workflow
    1 1 true 1000000 g
  = Done (g3, scenario_A_workflow dummy_flops dflops dmem).
Proof.
  intros Hf Hm Hi. unfold fill_streaming_workflow. cbn [jobs_loop].
  unfold fill_job. rewrite Hf. simpl. rewrite Hm. simpl.
  unfold sample. rewrite Hi. destruct fuel; reflexivity.
Qed.

Lemma scenario_A_three_blocks_witness :
  fill_streaming_workflow (constant 1200000%Q) (constant 2000%Q)
    (constant 2500000%Q) 0 0 empty_workflow 1 1 true 1000000 tt
  = Done (tt, scenario_A_workflow 0 1200000 2000).
Proof.
  apply (scenario_A_three_blocks (constant 1200000%Q) (constant 2000%Q)
           (constant 2500000%Q) 0 0 tt tt tt tt 1200000 2000); reflexivity.
Defined.

(** ** Staging *)

Section Staging.
Context {G : Type}.
Variable shuffle : G -> list DataFile -> list DataFile * G.

Lemma stage_caches_mono (f : DataFile) (caches : list StorageService)
    (staged : list (DataFile * StorageService)) x :
  x ∈ staged ->
  x ∈ fold_left (fun st cache => stageFile f cache st) caches staged.
Proof.
  revert staged. induction caches as [|c caches IH]; intros staged H.
  - done.
  - simpl. apply IH. unfold stageFile. apply elem_of_app. by left.
Qed.

Lemma stage_caches_elem (f : DataFile) (caches : list StorageService)
    (staged : list (DataFile * StorageService)) (cache : StorageService) :
  cache ∈ caches ->
  (f, cache) ∈ fold_left (fun st c => stageFile f c st) caches staged.
Proof.
  revert staged. induction caches as [|c caches IH]; intros staged H.
  - by apply elem_of_nil in H.
  - simpl. apply elem_of_cons in H as [->|H].
    + apply stage_caches_mono. unfold stageFile.
      apply elem_of_app. right. apply list_elem_of_here.
    + by apply IH.
Qed.

Lemma stage_files_mono (hitrate incr : Q) (remote : StorageService)
    (caches : list StorageService) (files : list DataFile) (cached : Q)
    (staged : list (DataFile * StorageService)) x :
  x ∈ staged ->
  x ∈ stage_files hitrate incr remote caches files cached staged.
Proof.
  revert cached staged.
  induction files as [|f files IH]; intros cached staged H; [done|].
  simpl. destruct (Qle_bool cached (hitrate * incr)); apply IH.
  - apply stage_caches_mono. unfold stageFile.
    apply elem_of_app. by left.
  - unfold stageFile. apply elem_of_app. by left.
Qed.
End Staging.

(** C2, evaluated on the code. With [hitrate = 0] the test
    [cached_files_size <= hitrate * incr_inputfile_size] is [0 <= 0] at the
    first file of a task, so that file is staged on every cache storage
    service. *)
Theorem hitrate_zero_stages_on_cache {G : Type}
    (shuffle : G -> list DataFile -> list DataFile * G)
    (remote : StorageService) (caches : list StorageService)
    (task : WorkflowTask) (g g' : G) (f : DataFile) (rest : list DataFile)
    (cache : StorageService) :
  shuffle g (input_files task) = (f :: rest, g') ->
  cache ∈ caches ->
  (f, cache) ∈ (stage_task shuffle 0 remote caches task g []).2.
Proof.
  intros Hs Hc. unfold stage_task. rewrite Hs. cbn [snd stage_files].
  assert (Qle_bool 0
            (0 * fold_left (fun acc f0 => (acc + file_size f0)%Q)
                   (f :: rest) 0%Q) = true) as ->.
  { apply Qle_bool_iff. rewrite Qmult_0_l. apply Qle_refl. }
  apply stage_files_mono. by apply stage_caches_elem.
Qed.

Lemma hitrate_zero_stages_on_cache_witness :
  (mkDataFile "infile_0_file_0_block_0" 1000000, "cache1")
    ∈ (stage_task keep_order 0 "remote" ["cache1"] first_dummy_task tt []).2.
Proof.
  apply (hitrate_zero_stages_on_cache keep_order "remote" ["cache1"]
           first_dummy_task tt tt
           (mkDataFile "infile_0_file_0_block_0" 1000000) [] "cache1").
  - reflexivity.
  - apply list_elem_of_here.
Defined.

(** * Further properties of Workload.cpp *)

(** X1. [transform_if] appends to the destination the images of exactly
    the elements that pass the test, in their order, and keeps what the
    destination held; the matching datasets of [assignFiles] are what it
    yields for the test "the name is configured". *)
Theorem transform_if_filter_map :
  (forall (A B : Type) (range : list A) (dest : list B) (pred : A -> bool)
          (transform : A -> B),
      transform_if range dest pred transform
      = dest ++ (transform <$> filter (fun x => pred x = true) range)) /\
  (forall (names : list string) (dataset_specs : list Dataset),
      matching names dataset_specs
      = transform_if dataset_specs []
          (fun ds => bool_decide (name ds ∈ names)) id).
Proof.
  assert (forall (A B : Type) (range : list A) (dest : list B)
                 (pred : A -> bool) (transform : A -> B),
             transform_if range dest pred transform
             = dest ++ (transform <$> filter (fun x => pred x = true) range))
    as Hclosed.
  { intros A B range. induction range as [|x range IH]; intros dest pred tr.
    - simpl. by rewrite app_nil_r.
    - simpl. rewrite IH, filter_cons. destruct (pred x) eqn:E.
      + rewrite decide_True by done. rewrite fmap_cons, <- app_assoc. done.
      + rewrite decide_False by done. done. }
  split; [exact Hclosed|].
  intros names specs. rewrite Hclosed. simpl. rewrite list_fmap_id.
  unfold matching. induction specs as [|ds specs IH]; [done|].
  rewrite !filter_cons, IH.
  destruct (decide (name ds ∈ names)) as [Hin|Hin].
  - rewrite decide_True; [done|]. by apply bool_decide_eq_true.
  - rewrite decide_False; [done|]. rewrite bool_decide_eq_true. done.
Qed.

(** ** The factories *)

Lemma get_all_not_implemented {A : Type} (get : jvalue -> factory A)
    (l : list jvalue) (what : string) :
  (forall v w, get v <> NotImplemented w) ->
  get_all get l <> NotImplemented what.
Proof.
  intros Hget. induction l as [|v l IH]; simpl; [done|].
  destruct (get v) as [a|w|] eqn:Ev; simpl;
    [|exfalso; by apply (Hget v w)|done].
  destruct (get_all get l); simpl; done.
Qed.

Lemma get_string_not_implemented (v : jvalue) (w : string) :
  get_string v <> NotImplemented w.
Proof. by destruct v. Qed.

Lemma get_double_not_implemented (v : jvalue) (w : string) :
  get_double v <> NotImplemented w.
Proof. by destruct v. Qed.

Lemma get_int_not_implemented (v : jvalue) (w : string) :
  get_int v <> NotImplemented w.
Proof. by destruct v. Qed.

Lemma get_vector_not_implemented {A : Type} (get : jvalue -> factory A)
    (v : jvalue) (what : string) :
  (forall v w, get v <> NotImplemented w) ->
  get_vector get v <> NotImplemented what.
Proof.
  intros Hget. destruct v; simpl; try done.
  by apply get_all_not_implemented.
Qed.

(** Reading a member never ends in the error of the factory. *)
Lemma member_not_implemented {A : Type} (get : jvalue -> factory A)
    (json : jvalue) (key what : string) :
  (forall v w, get v <> NotImplemented w) ->
  jget json key ≫= get <> NotImplemented what.
Proof. intros Hget. destruct json; simpl; try done; apply Hget. Qed.

Lemma member_is_string (json : jvalue) (key s : string) :
  jget json key ≫= get_string = Built s <->
  jget json key = Built (JString s).
Proof.
  destruct (jget json key) as [v|w|]; simpl; [|done..].
  destruct v; simpl; split; intros [= ->]; done.
Qed.

Section FactoryFacts.
Context {G : Type}.
Variable normal_distribution : Q -> Q -> G -> Q * G.
Variable piecewise_constant_distribution : list Q -> list Z -> G -> Q * G.
Variable poisson_distribution : Z -> G -> Z * G.
Variable discrete_distribution : list Z -> G -> Z * G.

Lemma initializeDoubleRNG_not_implemented (json : jvalue) (what : string) :
  initializeDoubleRNG normal_distribution piecewise_constant_distribution
    json = NotImplemented what <->
  exists type,
    jget json "type" = Built (JString type) /\
    type <> "gaussian" /\ type <> "histogram" /\
    what = "Random number generation for type " +:+ type
             +:+ " not implemented for real valued distributions!".
Proof.
  unfold initializeDoubleRNG.
  destruct (jget json "type" ≫= get_string) as [type|w|] eqn:Et; simpl.
  - apply member_is_string in Et.
    destruct (String.eqb type "gaussian") eqn:Eg.
    { apply String.eqb_eq in Eg. split.
      - intros H. exfalso.
        destruct (jget json "average" ≫= get_double) as [a|w|] eqn:Ea;
          simpl in H;
          [|apply member_not_implemented in Ea; [done|];
            apply get_double_not_implemented|done].
        destruct (jget json "sigma" ≫= get_double) as [b|w|] eqn:Es;
          simpl in H;
          [done|apply member_not_implemented in Es; [done|];
                apply get_double_not_implemented|done].
      - intros (t & Ht & Hng & _). rewrite Et in Ht.
        injection Ht as <-. done. }
    apply String.eqb_neq in Eg.
    destruct (String.eqb type "histogram") eqn:Eh.
    { apply String.eqb_eq in Eh. split.
      - intros H. exfalso.
        destruct (jget json "bins" ≫= get_vector get_double)
          as [a|w|] eqn:Eb; simpl in H;
          [|apply member_not_implemented in Eb; [done|];
            intros v w'; apply get_vector_not_implemented;
            apply get_double_not_implemented|done].
        destruct (jget json "counts" ≫= get_vector get_int)
          as [b|w|] eqn:Ec; simpl in H;
          [done|apply member_not_implemented in Ec; [done|];
                intros v w'; apply get_vector_not_implemented;
                apply get_int_not_implemented|done].
      - intros (t & Ht & _ & Hnh & _). rewrite Et in Ht.
        injection Ht as <-. done. }
    apply String.eqb_neq in Eh. split.
    + intros [= <-]. by exists type.
    + intros (t & Ht & _ & _ & ->). rewrite Et in Ht.
      injection Ht as <-. done.
  - apply member_not_implemented in Et; [done|].
    apply get_string_not_implemented.
  - split; [done|]. intros (t & Ht & _).
    apply member_is_string in Ht. congruence.
Qed.

Lemma initializeIntRNG_not_implemented (json : jvalue) (what : string) :
  initializeIntRNG poisson_distribution discrete_distribution json
  = NotImplemented what <->
  exists type,
    jget json "type" = Built (JString type) /\
    type <> "poisson" /\ type <> "histogram" /\
    what = "Random number generation for type " +:+ type
             +:+ " not implemented for integer valued distributions!".
Proof.
  unfold initializeIntRNG.
  destruct (jget json "type" ≫= get_string) as [type|w|] eqn:Et; simpl.
  - apply member_is_string in Et.
    destruct (String.eqb type "poisson") eqn:Eg.
    { apply String.eqb_eq in Eg. split.
      - intros H. exfalso.
        destruct (jget json "mu" ≫= get_int) as [a|w|] eqn:Ea;
          simpl in H;
          [done|apply member_not_implemented in Ea; [done|];
                apply get_int_not_implemented|done].
      - intros (t & Ht & Hng & _). rewrite Et in Ht.
        injection Ht as <-. done. }
    apply String.eqb_neq in Eg.
    destruct (String.eqb type "histogram") eqn:Eh.
    { apply String.eqb_eq in Eh. split.
      - intros H. exfalso.
        destruct (jget json "counts" ≫= get_vector get_int)
          as [b|w|] eqn:Ec; simpl in H;
          [done|apply member_not_implemented in Ec; [done|];
                intros v w'; apply get_vector_not_implemented;
                apply get_int_not_implemented|done].
      - intros (t & Ht & _ & Hnh & _). rewrite Et in Ht.
        injection Ht as <-. done. }
    apply String.eqb_neq in Eh. split.
    + intros [= <-]. by exists type.
    + intros (t & Ht & _ & _ & ->). rewrite Et in Ht.
      injection Ht as <-. done.
  - apply member_not_implemented in Et; [done|].
    apply get_string_not_implemented.
  - split; [done|]. intros (t & Ht & _).
    apply member_is_string in Ht. congruence.
Qed.
End FactoryFacts.

(** X2. A factory throws its [std::runtime_error] exactly when the
    descriptor's type is a string that names none of its kinds: every
    name but "gaussian" and "histogram" for the real-valued factory (so
    also "poisson"), every name but "poisson" and "histogram" for the
    integer-valued one (so also "gaussian"). The message carries the
    name. *)
Theorem unsupported_kind_is_runtime_error {G : Type}
    (normal_distribution : Q -> Q -> G -> Q * G)
    (piecewise_constant_distribution : list Q -> list Z -> G -> Q * G)
    (poisson_distribution : Z -> G -> Z * G)
    (discrete_distribution : list Z -> G -> Z * G)
    (json : jvalue) (what : string) :
  (initializeDoubleRNG normal_distribution piecewise_constant_distribution
     json = NotImplemented what <->
   exists type,
     jget json "type" = Built (JString type) /\
     type <> "gaussian" /\ type <> "histogram" /\
     what = "Random number generation for type " +:+ type
              +:+ " not implemented for real valued distributions!") /\
  (initializeIntRNG poisson_distribution discrete_distribution json
   = NotImplemented what <->
   exists type,
     jget json "type" = Built (JString type) /\
     type <> "poisson" /\ type <> "histogram" /\
     what = "Random number generation for type " +:+ type
              +:+ " not implemented for integer valued distributions!").
Proof.
  split.
  - apply initializeDoubleRNG_not_implemented.
  - apply initializeIntRNG_not_implemented.
Qed.

Lemma jget_insert_ne (members : gmap string jvalue) (k k' : string)
    (v : jvalue) :
  k <> k' ->
  jget (JObject (<[k := v]> members)) k' = jget (JObject members) k'.
Proof. intros H. simpl. by rewrite lookup_insert_ne. Qed.

(** X3. The integer-valued factory does not look at the bins: with any
    value under "bins", also one that is no array of numbers, it builds
    what it builds without. The real-valued factory needs them: a
    histogram without bins ends in the type error of [get]. *)
Theorem integer_histogram_ignores_bins {G : Type}
    (normal_distribution : Q -> Q -> G -> Q * G)
    (piecewise_constant_distribution : list Q -> list Z -> G -> Q * G)
    (poisson_distribution : Z -> G -> Z * G)
    (discrete_distribution : list Z -> G -> Z * G) :
  (forall (members : gmap string jvalue) (bins : jvalue),
      initializeIntRNG poisson_distribution discrete_distribution
        (JObject (<["bins" := bins]> members))
      = initializeIntRNG poisson_distribution discrete_distribution
          (JObject members)) /\
  (forall json : jvalue,
      jget json "type" = Built (JString "histogram") ->
      jget json "bins" = Built JNull ->
      initializeDoubleRNG normal_distribution piecewise_constant_distribution
        json = TypeError).
Proof.
  split.
  - intros members bins. unfold initializeIntRNG.
    rewrite !jget_insert_ne by done. done.
  - intros json Ht Hb. unfold initializeDoubleRNG. rewrite Ht, Hb. done.
Qed.

Lemma integer_histogram_ignores_bins_witness :
  initializeDoubleRNG stub_normal stub_piecewise histogram_json = TypeError.
Proof.
  apply (proj2 (integer_histogram_ignores_bins stub_normal stub_piecewise
                  stub_poisson stub_discrete) histogram_json);
    reflexivity.
Defined.

(** X4. The kinds of the two factories overlap in the histogram only: a
    descriptor from which both factories build a distribution is a
    histogram, and the integer-valued distribution is the discrete one
    over its counts. *)
Theorem accepted_by_both_is_histogram {G : Type}
    (normal_distribution : Q -> Q -> G -> Q * G)
    (piecewise_constant_distribution : list Q -> list Z -> G -> Q * G)
    (poisson_distribution : Z -> G -> Z * G)
    (discrete_distribution : list Z -> G -> Z * G)
    (json : jvalue) (d : G -> Q * G) (d' : G -> Z * G) :
  initializeDoubleRNG normal_distribution piecewise_constant_distribution
    json = Built d ->
  initializeIntRNG poisson_distribution discrete_distribution json
  = Built d' ->
  jget json "type" = Built (JString "histogram") /\
  exists weights,
    jget json "counts" ≫= get_vector get_int = Built weights /\
    d' = discrete_distribution weights.
Proof.
  unfold initializeDoubleRNG, initializeIntRNG.
  destruct (jget json "type" ≫= get_string) as [type|w|] eqn:Et; simpl;
    try done.
  apply member_is_string in Et.
  destruct (String.eqb type "gaussian") eqn:Eg.
  { apply String.eqb_eq in Eg. subst type. simpl. done. }
  destruct (String.eqb type "histogram") eqn:Eh; [|done].
  apply String.eqb_eq in Eh. subst type. simpl. intros _.
  destruct (jget json "counts" ≫= get_vector get_int) as [weights| |];
    simpl; try done.
  intros [= <-]. split; [done|]. by exists weights.
Qed.

Lemma accepted_by_both_is_histogram_witness :
  jget (JObject (<["bins" := JArray [JInt 0; JFloat (1 # 2); JInt 1]]>
                   histogram_counts))
    "type" = Built (JString "histogram") /\
  exists weights,
    jget (JObject (<["bins" := JArray [JInt 0; JFloat (1 # 2); JInt 1]]>
                     histogram_counts)) "counts"
      ≫= get_vector get_int
    = Built weights /\
    stub_discrete [1; 3] = stub_discrete weights.
Proof.
  apply (accepted_by_both_is_histogram stub_normal stub_piecewise
           stub_poisson stub_discrete
           (JObject (<["bins" := JArray [JInt 0; JFloat (1 # 2); JInt 1]]>
                       histogram_counts))
           (stub_piecewise [0; 1 # 2; 1]%Q [1; 3])
           (stub_discrete [1; 3]));
    reflexivity.
Defined.

(** ** The constructor *)

Section ConstructorFacts.
Context {G : Type}.

Lemma sampleJob_names (fuel : nat) (w : Workload G) (j : nat)
    (suffix sep : string) (job : JobSpecification) (w' : Workload G) :
  sampleJob fuel w j suffix sep = Done (job, w') ->
  jobid job = "job_" +:+ suffix +:+ sep +:+ to_string j /\
  file_id (outfile job) = "outfile_" +:+ suffix +:+ sep +:+ to_string j /\
  infiles job = [] /\
  w' = set_generator w (generator w').
Proof.
  unfold sampleJob.
  destruct (sample below_one _ fuel _) as [[c g1]| | |]; try done. simpl.
  destruct (sample negative (flops_dist w) fuel g1) as [[fl g2]| | |];
    try done. simpl.
  destruct (sample negative (mem_dist w) fuel g2) as [[me g3]| | |];
    try done. simpl.
  destruct (sample negative (outsize_dist w) fuel g3) as [[os g4]| | |];
    try done. simpl.
  intros [= <- <-]. done.
Qed.

Lemma sample_batch_names (fuel n j : nat) (w : Workload G)
    (suffix sep : string) (batch batch' : list JobSpecification)
    (w' : Workload G) :
  sample_batch fuel n j w suffix sep batch = Done (batch', w') ->
  exists new,
    batch' = batch ++ new /\ length new = n /\
    forall i job, new !! i = Some job ->
      jobid job = "job_" +:+ suffix +:+ sep +:+ to_string (j + i) /\
      file_id (outfile job)
      = "outfile_" +:+ suffix +:+ sep +:+ to_string (j + i) /\
      infiles job = [].
Proof.
  revert j w batch. induction n as [|n IH]; intros j w batch; simpl.
  - intros [= <- <-]. exists []. rewrite app_nil_r. done.
  - destruct (sampleJob fuel w j suffix sep) as [[job w1]| | |] eqn:Ej;
      try done. simpl.
    intros Hrun. apply IH in Hrun. destruct Hrun as (new & -> & Hlen & Hnew).
    apply sampleJob_names in Ej. destruct Ej as (Hid & Hout & Hin & _).
    exists (job :: new). rewrite <- app_assoc. split; [done|].
    split; [simpl; lia|].
    intros [|i] job' Hi; simpl in Hi.
    + injection Hi as <-. by rewrite Nat.add_0_r.
    + replace (j + S i)%nat with (S j + i)%nat by lia. by apply Hnew.
Qed.
Lemma Workload_new_names (fuel num_jobs : nat)
    (cores : G -> Z * G) (flops memory outfile_size : G -> Q * G)
    (wtype : WorkloadType) (name_suffix : string) (arrival_time : Q)
    (gen : G) (datasets : list string) (w : Workload G) :
  Workload_new fuel num_jobs cores flops memory outfile_size wtype
    name_suffix arrival_time gen datasets = Done w ->
  let sep := if String.eqb name_suffix "" then "" else "_" in
  length (job_batch w) = num_jobs /\
  (forall j job, job_batch w !! j = Some job ->
     jobid job = "job_" +:+ name_suffix +:+ sep +:+ to_string j /\
     file_id (outfile job) = "outfile_" +:+ name_suffix +:+ sep
                               +:+ to_string j /\
     infiles job = []) /\
  NoDup (jobid <$> job_batch w) /\
  infile_datasets w = datasets.
Proof.
  intros Hrun. cbv zeta. unfold Workload_new in Hrun.
  set (sep := if String.eqb name_suffix "" then "" else "_") in *.
  destruct (sample_batch fuel num_jobs 0 _ name_suffix sep [])
    as [[batch w1]| | |] eqn:Eb; try done.
  simpl in Hrun. injection Hrun as <-. simpl.
  apply sample_batch_names in Eb. destruct Eb as (new & -> & Hlen & Hnew).
  simpl. split; [done|]. split; [done|]. split; [|done].
  apply NoDup_alt. intros i i' id Hi Hi'.
  rewrite list_lookup_fmap in Hi, Hi'.
  destruct (new !! i) as [job|] eqn:Ei; [|done].
  destruct (new !! i') as [job'|] eqn:Ei'; [|done].
  simpl in Hi, Hi'. injection Hi as <-. injection Hi' as Heq.
  destruct (Hnew _ _ Ei) as (Hid & _). destruct (Hnew _ _ Ei') as (Hid' & _).
  rewrite Hid, Hid' in Heq. simpl in Heq.
  do 3 apply String.app_inj in Heq.
  unfold to_string in Heq. by apply (inj pretty) in Heq.
Qed.
End ConstructorFacts.

(** X5. A constructor that returns has built its four distributions from
    the descriptors, in the order cores, flops, memory and output size,
    and has sampled [num_jobs] jobs. Job [j] is named "job_" + suffix +
    separator + j and its output file "outfile_" + suffix + separator +
    j, where the separator is "_" for a suffix that is not empty and
    nothing otherwise; no job has input files yet; the job names differ
    from one another; and the workload keeps the infile dataset names. *)
Theorem constructor_names_the_jobs {G : Type}
    (normal_distribution : Q -> Q -> G -> Q * G)
    (piecewise_constant_distribution : list Q -> list Z -> G -> Q * G)
    (poisson_distribution : Z -> G -> Z * G)
    (discrete_distribution : list Z -> G -> Z * G)
    (fuel num_jobs : nat) (cores flops memory outfile_size : jvalue)
    (wtype : WorkloadType) (name_suffix : string) (arrival_time : Q)
    (gen : G) (datasets : list string) (w : Workload G) :
  Workload_of_json normal_distribution piecewise_constant_distribution
    poisson_distribution discrete_distribution fuel num_jobs cores flops
    memory outfile_size wtype name_suffix arrival_time gen datasets
  = Built (Done w) ->
  let sep := if String.eqb name_suffix "" then "" else "_" in
  (exists core_dist flops_dist mem_dist outsize_dist,
     initializeIntRNG poisson_distribution discrete_distribution cores
     = Built core_dist /\
     initializeDoubleRNG normal_distribution piecewise_constant_distribution
       flops = Built flops_dist /\
     initializeDoubleRNG normal_distribution piecewise_constant_distribution
       memory = Built mem_dist /\
     initializeDoubleRNG normal_distribution piecewise_constant_distribution
       outfile_size = Built outsize_dist) /\
  length (job_batch w) = num_jobs /\
  (forall j job, job_batch w !! j = Some job ->
     jobid job = "job_" +:+ name_suffix +:+ sep +:+ to_string j /\
     file_id (outfile job) = "outfile_" +:+ name_suffix +:+ sep
                               +:+ to_string j /\
     infiles job = []) /\
  NoDup (jobid <$> job_batch w) /\
  infile_datasets w = datasets.
Proof.
  unfold Workload_of_json. intros Hrun.
  destruct (initializeIntRNG _ _ cores) as [core_dist| |]; try done.
  destruct (initializeDoubleRNG _ _ flops) as [flops_dist| |]; try done.
  destruct (initializeDoubleRNG _ _ memory) as [mem_dist| |]; try done.
  destruct (initializeDoubleRNG _ _ outfile_size) as [outsize_dist| |];
    try done.
  simpl in Hrun. injection Hrun as Hrun.
  apply Workload_new_names in Hrun. cbv zeta in *.
  split; [|done]. by exists core_dist, flops_dist, mem_dist, outsize_dist.
Qed.

Lemma constructor_names_the_jobs_witness :
  exists w,
    Workload_of_json stub_normal stub_piecewise stub_poisson stub_discrete
      0 3 poisson_json gaussian_json gaussian_json gaussian_json Streaming
      "wl" 0 tt ["ds"] = Built (Done w) /\
    jobid <$> job_batch w = ["job_wl_0"; "job_wl_1"; "job_wl_2"] /\
    NoDup (jobid <$> job_batch w).
Proof.
  eexists. split; [reflexivity|]. split; [reflexivity|].
  apply (constructor_names_the_jobs stub_normal stub_piecewise stub_poisson
           stub_discrete 0 3 poisson_json gaussian_json gaussian_json
           gaussian_json Streaming "wl" 0 tt ["ds"]).
  reflexivity.
Defined.

(** ** More on the assignment of files *)

Lemma add_infiles_nil (job : JobSpecification) : add_infiles [] job = job.
Proof. destruct job. unfold add_infiles. simpl. by rewrite app_nil_r. Qed.

Lemma add_infiles_twice (fs1 fs2 : list DataFile) (job : JobSpecification) :
  add_infiles fs2 (add_infiles fs1 job) = add_infiles (fs1 ++ fs2) job.
Proof. unfold add_infiles. simpl. by rewrite app_assoc. Qed.

(** Whatever branch the loop takes, it only appends files of the pool. *)
Lemma assign_loop_appends (n : nat) (j k : Z) (all_files : list DataFile)
    (batch : list JobSpecification) (i : nat) (job : JobSpecification) :
  batch !! i = Some job ->
  exists fs,
    assign_loop n j k all_files batch !! i = Some (add_infiles fs job) /\
    fs ⊆ all_files.
Proof.
  revert j batch job. induction n as [|n IH]; intros j batch job Hi; simpl.
  - exists []. rewrite add_infiles_nil. split; [done|].
    apply list_subseteq_nil.
  - assert (forall fs, fs ⊆ all_files ->
              exists job',
                alter (add_infiles fs) (Z.to_nat j) batch !! i = Some job' /\
                exists fs', job' = add_infiles fs' job /\ fs' ⊆ all_files)
      as Halter.
    { intros fs Hfs. destruct (decide (Z.to_nat j = i)) as [<-|Hne].
      - rewrite list_lookup_alter_eq, Hi. simpl. eexists. split; [done|].
        by exists fs.
      - rewrite list_lookup_alter_ne by done. exists job. split; [done|].
        exists []. rewrite add_infiles_nil. split; [done|].
        apply list_subseteq_nil. }
    case_match.
    + destruct (Halter (drop (Z.to_nat (j * k)) all_files))
        as (job' & Hjob' & fs' & -> & Hfs'); [apply subseteq_drop|].
      by exists fs'.
    + destruct (Halter (take (Z.to_nat k) (drop (Z.to_nat (j * k)) all_files)))
        as (job' & Hjob' & fs' & -> & Hfs').
      { etrans; [apply subseteq_take|apply subseteq_drop]. }
      destruct (IH (j + 1) _ _ Hjob') as (fs & Hfs & Hsub).
      rewrite add_infiles_twice in Hfs. exists (fs' ++ fs).
      split; [done|]. intros x Hx. apply elem_of_app in Hx as [Hx|Hx]; auto.
Qed.

(** X6. [assignFiles] only ever appends: when it returns, the batch has
    as many jobs as before, every job keeps its name, cores, flops,
    memory, output file and the input files it had, and the input files
    it has gained are files of the matching datasets. The rest of the
    workload is as it was. *)
Theorem assignFiles_only_appends {G : Type} (w w' : Workload G)
    (dataset_specs : list Dataset) :
  assignFiles w dataset_specs = Done w' ->
  let pool := concat (map files (matching (infile_datasets w) dataset_specs)) in
  length (job_batch w') = length (job_batch w) /\
  (forall j job, job_batch w !! j = Some job ->
     exists fs, job_batch w' !! j = Some (add_infiles fs job) /\ fs ⊆ pool) /\
  infile_datasets w' = infile_datasets w /\
  generator w' = generator w /\
  workload_type w' = workload_type w /\
  submit_arrival_time w' = submit_arrival_time w.
Proof.
  unfold assignFiles. intros Hrun. cbv zeta.
  destruct (matching (infile_datasets w) dataset_specs) as [|d ds] eqn:Em;
    [done|].
  rewrite <- Em in *. case_match; [done|]. case_match.
  - injection Hrun as <-. repeat split; try done.
    intros j job Hj. exists []. rewrite add_infiles_nil. split; [done|].
    apply list_subseteq_nil.
  - injection Hrun as <-. simpl. split; [apply assign_loop_length|].
    split; [|done]. intros j job Hj. by apply assign_loop_appends.
Qed.

Lemma assignFiles_only_appends_witness :
  exists w',
    assignFiles E_workload [E_dataset] = Done w' /\
    length (job_batch w') = 3%nat /\
    (forall j job, job_batch E_workload !! j = Some job ->
       exists fs, job_batch w' !! j = Some (add_infiles fs job) /\
                  fs ⊆ map E_file (seq 0 10)).
Proof.
  eexists. split; [reflexivity|].
  destruct (assignFiles_only_appends E_workload _ [E_dataset] eq_refl)
    as (Hlen & Hjobs & _).
  split; [exact Hlen|exact Hjobs].
Defined.

(** X7. With fewer files than jobs [k] is zero and no job receives a
    file: [assignFiles] returns the workload as it was, and every file of
    the pool is left out. *)
Theorem assignFiles_fewer_files_than_jobs {G : Type} (w : Workload G)
    (dataset_specs : list Dataset) :
  let pool := concat (map files (matching (infile_datasets w) dataset_specs)) in
  matching (infile_datasets w) dataset_specs <> [] ->
  (length pool < length (job_batch w))%nat ->
  Z.of_nat (length (job_batch w)) < 2 ^ 31 ->
  assignFiles w dataset_specs = Done w.
Proof.
  intros pool Hm Hlt HJ. unfold assignFiles.
  destruct (matching (infile_datasets w) dataset_specs) as [|d ds];
    [done|].
  fold pool. rewrite count_files_exact by (fold pool; lia). fold pool.
  assert ((Z.of_nat (length pool) <? 0) = false) as ->
    by (apply Z.ltb_ge; lia).
  rewrite to_int_small by lia.
  assert ((Z.of_nat (length (job_batch w)) =? 0) = false) as ->
    by (apply Z.eqb_neq; lia).
  rewrite Z.quot_small by lia. rewrite Nat2Z.id.
  assert (assign_loop (length (job_batch w)) 0 0 pool (job_batch w)
          = job_batch w) as ->.
  { apply list_eq. intros i. change 0 with (Z.of_nat 0).
    rewrite assign_loop_lookup by (simpl; lia).
    case_decide; [|done]. rewrite Nat.mul_0_r. simpl.
    destruct (job_batch w !! i) as [job|]; [|done]. simpl.
    by rewrite add_infiles_nil. }
  by destruct w.
Qed.

Lemma assignFiles_fewer_files_than_jobs_witness :
  assignFiles E_workload [small_dataset] = Done E_workload.
Proof.
  apply (assignFiles_fewer_files_than_jobs E_workload [small_dataset]).
  - discriminate.
  - simpl. lia.
  - simpl. lia.
Defined.

(** * Further properties of SimpleSimulator.cpp *)

(** ** Strings *)

Lemma string_length_app (s1 s2 : string) :
  String.length (s1 +:+ s2) = (String.length s1 + String.length s2)%nat.
Proof. induction s1 as [|c s1 IH]; simpl; [done|]. by rewrite IH. Qed.

Lemma substring_whole (s : string) :
  String.substring 0 (String.length s) s = s.
Proof. induction s as [|c s IH]; simpl; [done|]. by rewrite IH. Qed.

Lemma substring_app_r (s1 s2 : string) :
  String.substring (String.length s1) (String.length s2) (s1 +:+ s2) = s2.
Proof.
  induction s1 as [|c s1 IH]; simpl; [apply substring_whole|apply IH].
Qed.

Lemma substring_split (n : nat) (s : string) :
  (n <= String.length s)%nat ->
  s = String.substring 0 n s
        +:+ String.substring n (String.length s - n) s.
Proof.
  revert n. induction s as [|c s IH]; intros n Hn.
  - simpl in Hn. assert (n = 0%nat) as -> by lia. done.
  - destruct n as [|n].
    + simpl. by rewrite substring_whole.
    + simpl in *.
      change (String c s
              = String c (String.substring 0 n s
                            +:+ String.substring n (String.length s - n) s)).
      f_equal. apply IH. lia.
Qed.

(** X8. [ends_with str suffix] holds exactly when [str] is some string
    followed by [suffix]; so every string ends with the empty string, and
    no string ends with a longer one. *)
Theorem ends_with_iff_suffix (str suffix : string) :
  ends_with str suffix = true <-> exists front, str = front +:+ suffix.
Proof.
  unfold ends_with. rewrite andb_true_iff, Nat.leb_le, String.eqb_eq. split.
  - intros [Hlen Hsub].
    exists (String.substring 0 (String.length str - String.length suffix) str).
    pose proof (substring_split (String.length str - String.length suffix)
                  str ltac:(lia)) as H.
    replace (String.length str - (String.length str - String.length suffix))%nat
      with (String.length suffix) in H by lia.
    by rewrite Hsub in H.
  - intros [front ->]. rewrite string_length_app. split; [lia|].
    replace (String.length front + String.length suffix
             - String.length suffix)%nat with (String.length front) by lia.
    apply substring_app_r.
Qed.

(** X9. [arg_to_sizet] turns the [int] that [std::stoi] has read into a
    [size_t]: a negative number [v] is not refused but becomes
    [2^64 + v], a number of at least [2^64 - 2^31]; and characters after
    the number do not make the conversion fail. *)
Theorem arg_to_sizet_wraps_negative (stoi : string -> parse Z)
    (arg : string) (v : Z) (pos : nat) :
  stoi arg = Parsed v pos -> - 2 ^ 31 <= v < 0 ->
  arg_to_sizet stoi arg
  = Converted (2 ^ 64 + v) (pos <? String.length arg)%nat /\
  2 ^ 64 - 2 ^ 31 <= 2 ^ 64 + v.
Proof.
  intros Hs Hv. unfold arg_to_sizet. rewrite Hs. split; [|lia].
  f_equal. unfold to_size_t.
  rewrite <- (Z.mod_add v 1 (2 ^ 64)) by lia.
  rewrite Z.mod_small; lia.
Qed.

Lemma arg_to_sizet_wraps_negative_witness :
  arg_to_sizet stub_stoi "-1" = Converted (2 ^ 64 + -1) false /\
  2 ^ 64 - 2 ^ 31 <= 2 ^ 64 + -1.
Proof.
  apply (arg_to_sizet_wraps_negative stub_stoi "-1" (-1) 2).
  - reflexivity.
  - lia.
Defined.

(** ** The services of [main] *)

Lemma fold_add_host (hostname_list : list string) (s : services) :
  let storage h := negb (String.eqb h wms_host) in
  let remote h := storage h && contains (lowercase h) "remote" in
  let cache h := storage h && negb (contains (lowercase h) "remote") in
  let compute h := storage h && negb (contains (lowercase h) "storage") in
  fold_left add_host hostname_list s
  = mkServices
      (storage_services s
         ++ filter (fun h => storage h = true) hostname_list)
      (cache_storage_services s
         ++ filter (fun h => cache h = true) hostname_list)
      (remote_storage_services s
         ++ filter (fun h => remote h = true) hostname_list)
      (condor_compute_resources s
         ++ filter (fun h => compute h = true) hostname_list).
Proof.
  cbv zeta. revert s.
  induction hostname_list as [|h l IH]; intros s.
  - simpl. rewrite !app_nil_r. by destruct s.
  - simpl. rewrite IH. rewrite !filter_cons. unfold add_host.
    destruct (String.eqb h wms_host); simpl.
    + done.
    + destruct (contains (lowercase h) "remote"),
        (contains (lowercase h) "storage"); simpl;
        rewrite <- ?app_assoc; done.
Qed.

(** X10. The loop over the hosts gives every host but "WMSHost" (name
    compared as it is written) one storage service, and sorts it by its
    name in lower case: with "remote" in it to the remote storage
    services, otherwise to the caches, never to both. Every host but
    "WMSHost" without "storage" in its lower-case name is a compute
    resource as well, also a remote or cache host. *)
Theorem services_by_host_name (hostname_list : list string) :
  let s := instantiate_services hostname_list in
  (forall h, h ∈ storage_services s <->
             h ∈ hostname_list /\ h <> wms_host) /\
  (forall h, h ∈ remote_storage_services s <->
             h ∈ storage_services s /\
             contains (lowercase h) "remote" = true) /\
  (forall h, h ∈ cache_storage_services s <->
             h ∈ storage_services s /\
             contains (lowercase h) "remote" = false) /\
  (forall h, h ∈ condor_compute_resources s <->
             h ∈ storage_services s /\
             contains (lowercase h) "storage" = false) /\
  length (storage_services s)
  = (length (remote_storage_services s)
     + length (cache_storage_services s))%nat.
Proof.
  cbv zeta. unfold instantiate_services. rewrite fold_add_host. simpl.
  split; [|split; [|split; [|split]]].
  - intros h. rewrite list_elem_of_filter, negb_true_iff.
    pose proof (String.eqb_neq h wms_host). tauto.
  - intros h. rewrite !list_elem_of_filter, andb_true_iff, !negb_true_iff.
    tauto.
  - intros h. rewrite !list_elem_of_filter, andb_true_iff, !negb_true_iff.
    tauto.
  - intros h. rewrite !list_elem_of_filter, andb_true_iff, !negb_true_iff.
    tauto.
  - induction hostname_list as [|h l IH]; [done|].
    rewrite !filter_cons.
    destruct (String.eqb h wms_host); simpl.
    + exact IH.
    + destruct (contains (lowercase h) "remote"); simpl in *; lia.
Qed.

(** ** The blocks of a file *)

Lemma Qsum_replicate (n : nat) (x : Q) :
  (Qsum (replicate n x) == inject_Z (Z.of_nat n) * x)%Q.
Proof.
  induction n as [|n IH].
  - simpl. ring.
  - change (Qsum (replicate (S n) x)) with (x + Qsum (replicate n x))%Q.
    rewrite IH, Nat2Z.inj_succ. unfold Z.succ. rewrite inject_Z_plus. ring.
Qed.

(** The number of full blocks is the quotient of the sizes. *)
Lemma full_blocks_fit (dinsize size : Q) :
  (0 <= dinsize)%Q -> (0 < size)%Q ->
  let n := inject_Z (Z.of_nat (Qto_size_t (dinsize / size))) in
  (n * size <= dinsize /\ dinsize < (n + 1) * size)%Q.
Proof.
  intros Hd Hs. cbv zeta. unfold Qto_size_t.
  assert (dinsize / size * size == dinsize)%Q as Hq.
  { field. intros H. rewrite H in Hs. by apply Qlt_irrefl in Hs. }
  assert (0 <= dinsize / size)%Q as Hq0.
  { apply Qle_shift_div_l; [done|]. by rewrite Qmult_0_l. }
  assert (0 <= Qfloor (dinsize / size)) as Hfl.
  { change 0 with (Qfloor 0). by apply Qfloor_resp_le. }
  rewrite Z2Nat.id by done. split.
  - rewrite <- Hq at 2. apply Qmult_le_compat_r; [|by apply Qlt_le_weak].
    apply Qfloor_le.
  - rewrite <- Hq at 1. apply Qmult_lt_compat_r; [done|].
    rewrite <- (inject_Z_plus _ 1). apply Qlt_floor.
Qed.

Lemma Qsum_block_sizes (dinsize size : Q) :
  (Qsum (block_sizes dinsize size) == dinsize)%Q.
Proof.
  unfold block_sizes. rewrite Qsum_app, Qsum_replicate.
  destruct (Qeq_bool _ 0) eqn:E; simpl.
  - apply Qeq_bool_eq in E. lra.
  - lra.
Qed.

Lemma block_sizes_facts (dinsize size : Q) :
  (0 <= dinsize)%Q -> (0 < size)%Q ->
  Forall (fun x => 0 < x /\ x <= size)%Q (block_sizes dinsize size) /\
  (forall i x, block_sizes dinsize size !! i = Some x ->
     (S i < length (block_sizes dinsize size))%nat -> x = size) /\
  (Qsum (block_sizes dinsize size) == dinsize)%Q /\
  (dinsize <= inject_Z (Z.of_nat (length (block_sizes dinsize size))) * size
   /\ forall n : nat,
        dinsize <= inject_Z (Z.of_nat n) * size ->
        (length (block_sizes dinsize size) <= n)%nat)%Q.
Proof.
  intros Hd Hs. destruct (full_blocks_fit dinsize size Hd Hs) as [Hlo Hhi].
  cbv zeta in Hlo, Hhi. split; [|split; [|split]].
  - unfold block_sizes. apply Forall_app. split.
    + apply Forall_replicate. split; [done|apply Qle_refl].
    + destruct (Qeq_bool _ 0) eqn:E; [constructor|].
      apply Qeq_bool_neq in E. constructor; [|constructor].
      split; [|lra]. apply Qle_lteq in Hlo.
      destruct (Qlt_le_dec 0
                  (dinsize
                   - inject_Z (Z.of_nat (Qto_size_t (dinsize / size)))
                     * size)) as [Hpos|Hneg]; [done|].
      exfalso. apply E. lra.
  - intros i x Hi Hlen. unfold block_sizes in Hi, Hlen.
    rewrite length_app, length_replicate in Hlen.
    rewrite lookup_app_l in Hi.
    + by apply lookup_replicate in Hi as [-> _].
    + rewrite length_replicate. destruct (Qeq_bool _ 0); simpl in Hlen; lia.
  - apply Qsum_block_sizes.
  - unfold block_sizes. rewrite length_app, length_replicate.
    set (nb := Qto_size_t (dinsize / size)) in *.
    destruct (Qeq_bool _ 0) eqn:E; simpl.
    + apply Qeq_bool_eq in E. rewrite Nat.add_0_r. split; [lra|].
      intros n Hn. destruct (decide (nb <= n)%nat) as [|Hgt]; [done|].
      exfalso.
      assert (inject_Z (Z.of_nat n) + 1 <= inject_Z (Z.of_nat nb))%Q as Hle.
      { rewrite <- (inject_Z_plus _ 1), <- Zle_Qle. lia. }
      assert ((inject_Z (Z.of_nat n) + 1) * size
              <= inject_Z (Z.of_nat nb) * size)%Q.
      { apply Qmult_le_compat_r; [done|by apply Qlt_le_weak]. }
      assert ((inject_Z (Z.of_nat n) + 1) * size
              == inject_Z (Z.of_nat n) * size + size)%Q by ring.
      lra.
    + apply Qeq_bool_neq in E. split.
      * rewrite Nat2Z.inj_add, inject_Z_plus. simpl (Z.of_nat 1).
        apply Qlt_le_weak. exact Hhi.
      * intros n Hn. destruct (decide (nb + 1 <= n)%nat) as [|Hgt]; [done|].
        exfalso.
        assert (inject_Z (Z.of_nat n) <= inject_Z (Z.of_nat nb))%Q as Hle.
        { rewrite <- Zle_Qle. lia. }
        assert (inject_Z (Z.of_nat n) * size
                <= inject_Z (Z.of_nat nb) * size)%Q.
        { apply Qmult_le_compat_r; [done|by apply Qlt_le_weak]. }
        apply E. lra.
Qed.

Lemma block_files_sizes (j f b n : nat) (size : Q) :
  file_size <$> block_files j f b n size = replicate n size.
Proof.
  revert b. induction n as [|n IH]; intros b; [done|].
  change (block_files j f b (S n) size)
    with (mkDataFile (infile_name j f b) size :: block_files j f (S b) n size).
  rewrite fmap_cons, IH. done.
Qed.

Lemma fill_file_data_files (dummy_flops : Q) (j f : nat) (dinsize : Q)
    (ubs : bool) (xrd dflops dmem : Q) (ed et : option nat) (wf : Workflow) :
  let size := if ubs then xrd else dinsize in
  exists new,
    data_files (fill_file dummy_flops j f dinsize ubs xrd dflops dmem ed et
                  wf).2
    = data_files wf ++ new /\
    file_size <$> new = block_sizes dinsize size /\
    file_id <$> new = infile_name j f <$> seq 0 (length new).
Proof.
  intros size. unfold fill_file. fold size.
  set (nblocks := Qto_size_t (dinsize / size)).
  match goal with
  | |- context [full_blocks _ _ _ _ _ _ _ _ _ _ ?c wf] => set (c0 := c)
  end.
  pose proof (full_blocks_data_files dummy_flops nblocks j f 0 nblocks size
                dinsize dflops dmem c0 wf) as Hfull.
  destruct (full_blocks dummy_flops nblocks j f 0 nblocks size dinsize
              dflops dmem c0 wf) as [c' wf1].
  simpl in Hfull. unfold block_sizes. fold nblocks.
  assert (file_id <$> block_files j f 0 nblocks size
          = infile_name j f <$> seq 0 nblocks) as Hids.
  { unfold block_files. rewrite <- list_fmap_compose. done. }
  destruct (Qeq_bool _ 0).
  - exists (block_files j f 0 nblocks size). simpl.
    rewrite app_nil_r, block_files_sizes. split; [done|]. split; [done|].
    unfold block_files at 2. rewrite length_fmap, length_seq. done.
  - rewrite add_block_eq. simpl. rewrite Hfull, <- app_assoc.
    eexists. split; [reflexivity|].
    rewrite !fmap_app, block_files_sizes. split; [done|].
    rewrite length_app. unfold block_files at 2.
    rewrite length_fmap, length_seq. simpl.
    rewrite Nat.add_1_r, seq_S, fmap_app, Hids. done.
Qed.

(** ** The tasks of a file *)

Lemma file_tasks_app (dummy_flops : Q) (j f first : nat) (l1 l2 : list Q)
    (dinsize dflops dmem : Q) :
  file_tasks dummy_flops j f first (l1 ++ l2) dinsize dflops dmem
  = file_tasks dummy_flops j f first l1 dinsize dflops dmem
      ++ file_tasks dummy_flops j f (first + length l1) l2 dinsize dflops dmem.
Proof.
  revert first. induction l1 as [|x l1 IH]; intros first; simpl.
  - by rewrite Nat.add_0_r.
  - rewrite IH.
    replace (S first + length l1)%nat with (first + S (length l1))%nat by lia.
    done.
Qed.

Lemma full_blocks_tasks (dummy_flops : Q) (n j f b nblocks : nat)
    (xrd dinsize dflops dmem : Q) (c : chain) (wf : Workflow) :
  tasks
    (full_blocks dummy_flops n j f b nblocks xrd dinsize dflops dmem c wf).2
  = tasks wf
      ++ file_tasks dummy_flops j f b (replicate n xrd) dinsize dflops dmem.
Proof.
  revert b c wf. induction n as [|n IH]; intros b c wf.
  - simpl. by rewrite app_nil_r.
  - cbn [full_blocks]. rewrite add_block_eq. cbv beta iota zeta.
    rewrite IH. cbn [tasks]. rewrite <- app_assoc. done.
Qed.

Lemma fill_file_tasks (dummy_flops : Q) (j f : nat) (dinsize : Q)
    (ubs : bool) (xrd dflops dmem : Q) (ed et : option nat) (wf : Workflow) :
  tasks (fill_file dummy_flops j f dinsize ubs xrd dflops dmem ed et wf).2
  = tasks wf
      ++ file_tasks dummy_flops j f 0
           (block_sizes dinsize (if ubs then xrd else dinsize))
           dinsize dflops dmem.
Proof.
  unfold fill_file. set (size := if ubs then xrd else dinsize).
  set (nblocks := Qto_size_t (dinsize / size)).
  match goal with
  | |- context [full_blocks _ _ _ _ _ _ _ _ _ _ ?c wf] => set (c0 := c)
  end.
  pose proof (full_blocks_tasks dummy_flops nblocks j f 0 nblocks size
                dinsize dflops dmem c0 wf) as Hfull.
  destruct (full_blocks dummy_flops nblocks j f 0 nblocks size dinsize
              dflops dmem c0 wf) as [c' wf1].
  simpl in Hfull. unfold block_sizes. fold nblocks.
  rewrite file_tasks_app, length_replicate.
  destruct (Qeq_bool _ 0).
  - simpl. by rewrite app_nil_r.
  - rewrite add_block_eq. simpl. rewrite Hfull, <- app_assoc. done.
Qed.

Lemma block_sizes_whole (dinsize : Q) :
  (0 < dinsize)%Q -> block_sizes dinsize dinsize = [dinsize].
Proof.
  intros Hd.
  assert (~ dinsize == 0)%Q as Hne.
  { intros H. rewrite H in Hd. by apply Qlt_irrefl in Hd. }
  unfold block_sizes, Qto_size_t.
  assert (dinsize / dinsize == 1)%Q as Hone by (by field).
  rewrite (Qfloor_comp _ _ Hone).
  change (Z.to_nat (Qfloor 1)) with 1%nat.
  change (inject_Z (Z.of_nat 1)) with 1%Q.
  rewrite Qeq_eq_bool; [done|]. ring.
Qed.



(** ** The dummy tasks of the dual chain *)

Section DummyChainFacts.
Local Open Scope nat_scope.

(** The predecessors of the dummy task of the block at place [m]. *)
Lemma dual_chain_dummy_preds (pos : list block_pos) (m j f b p : nat) :
  pos !! m = Some (j, f, b) ->
  (p, 2 * m) ∈ dual_chain_deps pos <->
  p = 2 * m - 2 /\ exists f' b', prev_block pos m = Some (j, f', b').
Proof.
  intros Hm. rewrite dual_chain_elem. split.
  - intros (m' & x & Hm' & Hin). apply block_deps_elem in Hin.
    destruct Hin as [[_ Hc]|[Hl [[-> Hc]|[_ Hc]]]]; [lia| |lia].
    assert (m' = m) as -> by lia. rewrite Hm in Hm'.
    injection Hm' as <-. split; [done|]. by apply same_job_true in Hl.
  - intros [-> Hprev]. exists m, (j, f, b). split; [done|].
    apply block_deps_elem. right. split; [by apply same_job_true|].
    by left.
Qed.
End DummyChainFacts.

(** X14. The dummy tasks form a chain of their own. The only predecessor
    that the dummy task of a block can have is the dummy task of the block
    created just before it, and it has it exactly when that block belongs
    to the same job: no control dependency leads from a task to a dummy
    task, and the first dummy task of every job has no predecessor at
    all. *)
Theorem dummy_tasks_chain {G : Type}
    (flops mem insize : G -> Q * G) (dummy_flops : Q)
    (fuel num_jobs infiles_per_task : nat) (use_blockstreaming : bool)
    (xrd_block_size : Q) (gen gen' : G) (wf : Workflow) :
  fill_streaming_workflow flops mem insize dummy_flops fuel empty_workflow
    num_jobs infiles_per_task use_blockstreaming xrd_block_size gen
  = Done (gen', wf) ->
  exists pos : list block_pos,
    task_id <$> tasks wf = task_names pos /\
    forall m j f b, pos !! m = Some (j, f, b) ->
      forall p, (p, 2 * m)%nat ∈ control_deps wf <->
        p = (2 * m - 2)%nat /\
        exists f' b', prev_block pos m = Some (j, f', b').
Proof.
  unfold fill_streaming_workflow. intros Hrun.
  apply jobs_loop_built with (pos := []) in Hrun;
    [|apply built_empty|done].
  destruct Hrun as (pos & [Hn Hd Ho] & _ & _).
  exists pos. split; [done|]. intros m j f b Hm p. rewrite Hd.
  by apply dual_chain_dummy_preds with f b.
Qed.

Lemma dummy_tasks_chain_witness :
  exists pos : list block_pos,
    task_id <$> tasks (scenario_A_workflow 0 1200000 2000) = task_names pos /\
    forall m j f b, pos !! m = Some (j, f, b) ->
      forall p,
        (p, 2 * m)%nat ∈ control_deps (scenario_A_workflow 0 1200000 2000)
        <-> p = (2 * m - 2)%nat /\
            exists f' b', prev_block pos m = Some (j, f', b').
Proof.
  apply (dummy_tasks_chain (constant 1200000%Q) (constant 2000%Q)
           (constant 2500000%Q) 0 0 1 1 true 1000000 tt tt).
  reflexivity.
Defined.

(** ** The content of the tasks *)

Section BuilderShape.
Context {G : Type}.
Variables flops mem insize : G -> Q * G.
Variable dummy_flops : Q.

Lemma file_tasks_shape (j f first : nat) (sizes : list Q)
    (dinsize dflops dmem : Q) :
  Forall (fun x => (0 < x)%Q) sizes ->
  Forall block_task
    (file_tasks dummy_flops j f first sizes dinsize dflops dmem).
Proof.
  revert first. induction sizes as [|x sizes IH]; intros first H; simpl.
  - constructor.
  - inversion H as [|? ? Hx Hs]; subst.
    constructor; [|constructor; [|by apply IH]].
    + unfold block_task. simpl. split_and!; try done. by constructor.
    + unfold block_task. simpl. split_and!; try done. lia.
Qed.

Lemma block_sizes_zero (dinsize : Q) :
  (dinsize == 0)%Q -> block_sizes dinsize dinsize = [].
Proof.
  intros Hz. unfold block_sizes, Qto_size_t.
  assert (dinsize / dinsize == 0)%Q as Hq by (rewrite Hz; reflexivity).
  rewrite (Qfloor_comp _ _ Hq). change (Z.to_nat (Qfloor 0)) with 0%nat.
  simpl replicate. rewrite Qeq_eq_bool; [done|].
  rewrite Hz. reflexivity.
Qed.

Lemma block_sizes_positive (dinsize : Q) (ubs : bool) (xrd : Q) :
  (0 <= dinsize)%Q -> (ubs = true -> (0 < xrd)%Q) ->
  Forall (fun x => (0 < x)%Q)
    (block_sizes dinsize (if ubs then xrd else dinsize)).
Proof.
  intros Hd Hx. destruct ubs.
  - destruct (block_sizes_facts dinsize xrd Hd (Hx eq_refl)) as [H _].
    eapply Forall_impl; [exact H|]. by intros x [? _].
  - apply Qle_lteq in Hd. destruct Hd as [Hpos|Hz].
    + rewrite block_sizes_whole by done. by constructor.
    + rewrite block_sizes_zero; [constructor|]. by symmetry.
Qed.

Lemma fill_file_block_size (j f : nat) (dinsize : Q) (ubs : bool)
    (xrd dflops dmem : Q) (ed et : option nat) (wf : Workflow) :
  (fill_file dummy_flops j f dinsize ubs xrd dflops dmem ed et wf).1.1.1
  = if ubs then xrd else dinsize.
Proof.
  unfold fill_file.
  destruct (full_blocks _ _ _ _ _ _ _ _ _ _ _ _) as [c' wf1].
  destruct (Qeq_bool _ 0); [done|]. by rewrite add_block_eq.
Qed.

Lemma files_loop_shape (fuel n j f : nat) (ubs : bool) (xrd dflops dmem : Q)
    (ed et : option nat) (g : G) (wf : Workflow) xrd' ed' et' g' wf' :
  Forall block_task (tasks wf) -> (ubs = true -> (0 < xrd)%Q) ->
  files_loop insize dummy_flops fuel n j f ubs xrd dflops dmem ed et g wf
  = Done (xrd', ed', et', g', wf') ->
  Forall block_task (tasks wf') /\ (ubs = true -> (0 < xrd')%Q).
Proof.
  revert f xrd ed et g wf.
  induction n as [|n IH]; intros f xrd ed et g wf Hwf Hx; simpl.
  - intros [= <- <- <- <- <-]. done.
  - destruct (sample negative insize fuel g) as [[dinsize g1]| | |] eqn:Es;
      try done. simpl.
    apply sample_accepts, negative_false in Es.
    pose proof (fill_file_tasks dummy_flops j f dinsize ubs xrd dflops dmem
                  ed et wf) as Ht.
    pose proof (fill_file_block_size j f dinsize ubs xrd dflops dmem
                  ed et wf) as Hb.
    destruct (fill_file dummy_flops j f dinsize ubs xrd dflops dmem ed et wf)
      as [[[xrd1 ed1] et1] wf1].
    simpl in Ht, Hb. intros Hrun. apply IH in Hrun; [done| |].
    + rewrite Ht. apply Forall_app. split; [done|].
      apply file_tasks_shape. by apply block_sizes_positive.
    + intros ->. subst xrd1. by apply Hx.
Qed.

Lemma add_output_shape (id : string) (t : WorkflowTask) :
  block_task t -> block_task (add_output (mkDataFile id 0) t).
Proof.
  intros (Hmin & Hmax & Hlen & Hin & Hout).
  unfold block_task. simpl. split_and!; try done.
  apply Forall_app. split; [done|]. by constructor.
Qed.

Lemma fill_job_shape (fuel j ipt : nat) (ubs : bool) (xrd : Q) (g : G)
    (wf : Workflow) xrd' g' wf' :
  Forall block_task (tasks wf) -> (ubs = true -> (0 < xrd)%Q) ->
  fill_job flops mem insize dummy_flops fuel j ipt ubs xrd g wf
  = Done (xrd', g', wf') ->
  Forall block_task (tasks wf') /\ (ubs = true -> (0 < xrd')%Q).
Proof.
  intros Hwf Hx. unfold fill_job.
  destruct (sample negative flops fuel g) as [[dflops g1]| | |]; try done.
  simpl.
  destruct (sample negative mem fuel g1) as [[dmem g2]| | |]; try done.
  simpl.
  destruct (files_loop insize dummy_flops fuel ipt j 0 ubs xrd dflops dmem
              None None g2 wf)
    as [[[[[xrd1 ed1] et1] g3] wf1]| | |] eqn:Ef; try done.
  simpl. apply files_loop_shape in Ef; [|done|done].
  destruct Ef as [Hwf1 Hx1].
  destruct et1 as [t|]; [|done]. intros [= <- <- <-].
  split; [|done]. simpl. apply Forall_alter; [done|].
  intros x _. apply add_output_shape.
Qed.

Lemma jobs_loop_shape (fuel n j ipt : nat) (ubs : bool) (xrd : Q) (g : G)
    (wf : Workflow) g' wf' :
  Forall block_task (tasks wf) -> (ubs = true -> (0 < xrd)%Q) ->
  jobs_loop flops mem insize dummy_flops fuel n j ipt ubs xrd g wf
  = Done (g', wf') ->
  Forall block_task (tasks wf').
Proof.
  revert j xrd g wf.
  induction n as [|n IH]; intros j xrd g wf Hwf Hx; simpl.
  - by intros [= <- <-].
  - destruct (fill_job flops mem insize dummy_flops fuel j ipt ubs xrd g wf)
      as [[[xrd1 g1] wf1]| | |] eqn:Ejob; try done. simpl.
    apply fill_job_shape in Ejob; [|done|done].
    destruct Ejob as [Hwf1 Hx1]. by apply IH.
Qed.
End BuilderShape.

(** ** The staging loop *)

Section StagingFacts.
Context {G : Type}.
Variable shuffle : G -> list DataFile -> list DataFile * G.

Lemma stage_caches_eq (f : DataFile) (caches : list StorageService)
    (staged : list (DataFile * StorageService)) :
  fold_left (fun st cache => stageFile f cache st) caches staged
  = staged ++ ((fun cache => (f, cache)) <$> caches).
Proof.
  revert staged. induction caches as [|c caches IH]; intros staged; simpl.
  - by rewrite app_nil_r.
  - rewrite IH. unfold stageFile. by rewrite <- app_assoc.
Qed.

(** The staging of a task of the builder when the hit rate is not
    negative. *)
Lemma stage_block_task (hitrate : Q) (remote : StorageService)
    (caches : list StorageService) (task : WorkflowTask) (g : G)
    (staged : list (DataFile * StorageService)) :
  (forall g l, (shuffle g l).1 ≡ₚ l) ->
  (0 <= hitrate)%Q -> block_task task ->
  (stage_task shuffle hitrate remote caches task g staged).2
  = staged ++ (input_files task ≫= on_all remote caches).
Proof.
  intros Hperm Hh (_ & _ & Hlen & Hpos & _). unfold stage_task.
  specialize (Hperm g (input_files task)).
  destruct (shuffle g (input_files task)) as [l g1]. simpl in Hperm.
  cbn [snd]. destruct (input_files task) as [|f [|f' fs]].
  - apply Permutation_nil_r in Hperm as ->. simpl. by rewrite app_nil_r.
  - apply Permutation_singleton_r in Hperm as ->.
    inversion Hpos as [|? ? Hf _]; subst. cbn [fold_left stage_files].
    assert (Qle_bool 0 (hitrate * (0 + file_size f)) = true) as ->.
    { apply Qle_bool_iff. apply Qmult_le_0_compat; [done|]. lra. }
    rewrite stage_caches_eq. unfold stageFile, on_all. simpl.
    by rewrite app_nil_r, <- app_assoc.
  - simpl in Hlen. lia.
Qed.

Lemma stage_block_tasks (hitrate : Q) (remote : StorageService)
    (caches : list StorageService) (ts : list WorkflowTask) (g : G)
    (staged : list (DataFile * StorageService)) :
  (forall g l, (shuffle g l).1 ≡ₚ l) ->
  (0 <= hitrate)%Q -> Forall block_task ts ->
  (fold_left
     (fun '(g, staged) task =>
        stage_task shuffle hitrate remote caches task g staged)
     ts (g, staged)).2
  = staged ++ ((ts ≫= input_files) ≫= on_all remote caches).
Proof.
  intros Hperm Hh Hts. revert g staged.
  induction Hts as [|t ts Ht Hts IH]; intros g staged.
  - simpl. by rewrite app_nil_r.
  - cbn [fold_left].
    pose proof (stage_block_task hitrate remote caches t g staged Hperm Hh Ht)
      as Hstep.
    destruct (stage_task shuffle hitrate remote caches t g staged)
      as [g1 staged1].
    simpl in Hstep. rewrite IH, Hstep.
    rewrite bind_cons, bind_app, <- app_assoc. done.
Qed.
End StagingFacts.

(** X17. The hit rate has no effect on what [main] stages. [main] builds
    its workflow with block streaming and blocks of 1000000 bytes, so
    every task has at most one input file, of a size above zero; the test
    of the staging loop is then [0 <= hitrate * size] and holds for every
    hit rate that is not negative. Every input block is staged on the
    remote storage service and on every cache, in the order of the tasks,
    for a hit rate of 0 as for a hit rate of 1. A shuffle is taken to
    return a permutation of its argument. *)
Theorem main_caches_every_block {G : Type}
    (flops mem insize : G -> Q * G) (dummy_flops : Q)
    (shuffle : G -> list DataFile -> list DataFile * G)
    (fuel num_jobs infiles_per_job : nat) (hitrate : Q)
    (remote_storage_services cache_storage_services : list StorageService)
    (gen gen' : G) (wf : Workflow)
    (staged : list (DataFile * StorageService)) :
  (forall g l, (shuffle g l).1 ≡ₚ l) ->
  (0 <= hitrate)%Q ->
  main_generation flops mem insize dummy_flops shuffle fuel num_jobs
    infiles_per_job hitrate remote_storage_services cache_storage_services
    gen
  = Done (gen', wf, staged) ->
  exists remote,
    remote_storage_services = [remote] /\
    staged
    = (tasks wf ≫= input_files) ≫= on_all remote cache_storage_services.
Proof.
  intros Hperm Hh. unfold main_generation.
  destruct (fill_streaming_workflow flops mem insize dummy_flops fuel
              empty_workflow num_jobs infiles_per_job true 1000000 gen)
    as [[g1 wf1]| | |] eqn:Ef; try done.
  simpl.
  destruct remote_storage_services as [|remote [|r rs]]; try done.
  unfold fill_streaming_workflow in Ef.
  apply jobs_loop_shape in Ef; [|constructor|by intros _].
  pose proof (stage_block_tasks shuffle hitrate remote cache_storage_services
                (tasks wf1) g1 [] Hperm Hh Ef) as Hst.
  unfold stage_tasks.
  destruct (fold_left _ (tasks wf1) (g1, [])) as [g2 staged2].
  simpl in Hst. intros [= <- <- <-]. exists remote. done.
Qed.

Lemma main_caches_every_block_witness :
  exists remote,
    ["remote"] = [remote] /\
    [ (mkDataFile "infile_0_file_0_block_0" 1000000, "remote");
      (mkDataFile "infile_0_file_0_block_0" 1000000, "cache1");
      (mkDataFile "infile_0_file_0_block_1" 1000000, "remote");
      (mkDataFile "infile_0_file_0_block_1" 1000000, "cache1");
      (mkDataFile "infile_0_file_0_block_2" 500000, "remote");
      (mkDataFile "infile_0_file_0_block_2" 500000, "cache1") ]
    = (tasks (scenario_A_workflow 0 1200000 2000) ≫= input_files)
        ≫= on_all remote ["cache1"].
Proof.
  apply (main_caches_every_block (constant 1200000%Q) (constant 2000%Q)
           (constant 2500000%Q) 0 keep_order 0 1 1 0 ["remote"] ["cache1"]
           tt tt).
  - intros g l. reflexivity.
  - unfold Qle. simpl. lia.
  - reflexivity.
Defined.

(** ** The names of the tasks *)

Lemma pretty_N_char_digit (x : N) : is_digit (pretty_N_char x) = true.
Proof. unfold pretty_N_char. by repeat case_match. Qed.

Lemma pretty_N_go_digits (x : N) (s : string) :
  all_digits s = true -> all_digits (pretty_N_go x s) = true.
Proof.
  revert s. induction (N.lt_wf_0 x) as [x _ IH]; intros s Hs.
  assert (x = 0 \/ 0 < x)%N as [->|Hx] by lia.
  - by rewrite pretty_N_go_0.
  - rewrite pretty_N_go_step by done. apply IH.
    + by apply N.div_lt.
    + simpl. by rewrite pretty_N_char_digit.
Qed.

Lemma to_string_digits (n : nat) : all_digits (to_string n) = true.
Proof.
  unfold to_string, pretty, pretty_nat, pretty, pretty_N.
  case_decide; [done|]. by apply pretty_N_go_digits.
Qed.

(** A number is read back up to the first character that is no digit. *)
Lemma digits_sep_inj (c : Ascii.ascii) (s1 s2 r1 r2 : string) :
  is_digit c = false -> all_digits s1 = true -> all_digits s2 = true ->
  s1 +:+ String c r1 = s2 +:+ String c r2 -> s1 = s2 /\ r1 = r2.
Proof.
  intros Hc. revert s2.
  induction s1 as [|a s1 IH]; intros [|b s2] H1 H2 Heq.
  - by injection Heq as ->.
  - injection Heq as -> _. simpl in H2. by rewrite Hc in H2.
  - injection Heq as -> _. simpl in H1. by rewrite Hc in H1.
  - injection Heq as -> Heq. simpl in H1, H2.
    apply andb_true_iff in H1 as [_ H1]. apply andb_true_iff in H2 as [_ H2].
    destruct (IH s2 H1 H2 Heq) as [-> ->]. done.
Qed.

Lemma separator_inj (c : Ascii.ascii) (sep s1 s2 r1 r2 : string) :
  is_digit c = false -> all_digits s1 = true -> all_digits s2 = true ->
  s1 +:+ String c sep +:+ r1 = s2 +:+ String c sep +:+ r2 ->
  s1 = s2 /\ r1 = r2.
Proof.
  intros Hc H1 H2 Heq.
  change (s1 +:+ String c (sep +:+ r1) = s2 +:+ String c (sep +:+ r2)) in Heq.
  apply digits_sep_inj in Heq as [-> Heq]; [|done..].
  by apply (inj (String.app sep)) in Heq.
Qed.

Lemma block_name_inj (prefix : string) (j f b j' f' b' : nat) :
  block_name prefix j f b = block_name prefix j' f' b' ->
  (j, f, b) = (j', f', b').
Proof.
  unfold block_name. intros H. apply (inj (String.app prefix)) in H.
  apply separator_inj in H as [Hj H]; [|done|apply to_string_digits..].
  apply separator_inj in H as [Hf H]; [|done|apply to_string_digits..].
  unfold to_string in *.
  apply (inj pretty) in Hj, Hf, H. by subst.
Qed.

Lemma dummytask_name_not_task_name (j f b j' f' b' : nat) :
  dummytask_name j f b <> task_name j' f' b'.
Proof. unfold dummytask_name, task_name, block_name. by intros [=]. Qed.

Lemma ordered_NoDup (pos : list block_pos) : ordered None pos -> NoDup pos.
Proof.
  intros Ho. apply NoDup_alt. intros m n p Hm Hn.
  destruct (Nat.lt_total m n) as [Hlt|[->|Hlt]]; [|done|].
  - pose proof (ordered_sorted None pos m n p p Ho Hlt Hm Hn) as H.
    destruct p as [[j f] b]. unfold lex_lt in H. lia.
  - pose proof (ordered_sorted None pos n m p p Ho Hlt Hn Hm) as H.
    destruct p as [[j f] b]. unfold lex_lt in H. lia.
Qed.

Lemma task_names_NoDup (pos : list block_pos) :
  NoDup pos -> NoDup (task_names pos).
Proof.
  intros Hpos. unfold task_names. apply NoDup_bind; [| |done].
  - intros [[j f] b] [[j' f'] b'] y _ _. simpl.
    rewrite !elem_of_cons, !elem_of_nil.
    intros [->|[->|[]]] [H|[H|[]]].
    + by apply block_name_inj in H.
    + by apply dummytask_name_not_task_name in H.
    + symmetry in H. by apply dummytask_name_not_task_name in H.
    + by apply block_name_inj in H.
  - intros [[j f] b] _. simpl. apply NoDup_cons. split.
    + rewrite elem_of_cons, elem_of_nil.
      intros [H|[]]. by apply dummytask_name_not_task_name in H.
    + apply NoDup_singleton.
Qed.

(** X18. The task IDs of a workflow that the builder has filled are
    pairwise distinct: the names "dummytask_j_file_f_block_b" and
    "task_j_file_f_block_b" determine the kind of the task and the
    numbers [j], [f] and [b], and no block is created twice. The workflow
    never sees a task ID a second time. *)
Theorem task_ids_are_distinct {G : Type}
    (flops mem insize : G -> Q * G) (dummy_flops : Q)
    (fuel num_jobs infiles_per_task : nat) (use_blockstreaming : bool)
    (xrd_block_size : Q) (gen gen' : G) (wf : Workflow) :
  fill_streaming_workflow flops mem insize dummy_flops fuel empty_workflow
    num_jobs infiles_per_task use_blockstreaming xrd_block_size gen
  = Done (gen', wf) ->
  NoDup (task_id <$> tasks wf).
Proof.
  unfold fill_streaming_workflow. intros Hrun.
  apply jobs_loop_built with (pos := []) in Hrun;
    [|apply built_empty|done].
  destruct Hrun as (pos & [Hn Hd Ho] & _ & _).
  rewrite Hn. by apply task_names_NoDup, ordered_NoDup.
Qed.

Lemma task_ids_are_distinct_witness :
  NoDup (task_id <$> tasks (scenario_A_workflow 0 1200000 2000)).
Proof.
  apply (task_ids_are_distinct (constant 1200000%Q) (constant 2000%Q)
           (constant 2500000%Q) 0 0 1 1 true 1000000 tt tt).
  reflexivity.
Defined.

(** ** The names of the files *)

Section FileNames.
Context {G : Type}.
Variables flops mem insize : G -> Q * G.
Variable dummy_flops : Q.
Local Open Scope nat_scope.

Lemma infile_name_not_outfile_name (j f b j' : nat) :
  infile_name j f b <> outfile_name j'.
Proof. unfold infile_name, outfile_name, block_name. by intros [=]. Qed.

Lemma outfile_name_inj (j j' : nat) :
  outfile_name j = outfile_name j' -> j = j'.
Proof.
  unfold outfile_name, to_string. intros H.
  apply (inj (String.app "outfile_")) in H. by apply (inj pretty) in H.
Qed.

Lemma named_before_mono (j f j' f' : nat) (id : string) :
  j < j' \/ (j = j' /\ f <= f') ->
  named_before j f id -> named_before j' f' id.
Proof.
  intros Hle [(j0 & f0 & b0 & -> & H)|(j0 & -> & H)].
  - left. exists j0, f0, b0. split; [done|]. lia.
  - right. exists j0. split; [done|]. lia.
Qed.

Lemma fill_file_names (j f : nat) (dinsize : Q) (ubs : bool)
    (xrd dflops dmem : Q) (ed et : option nat) (wf : Workflow) :
  let wf' :=
    (fill_file dummy_flops j f dinsize ubs xrd dflops dmem ed et wf).2 in
  NoDup (file_id <$> data_files wf) ->
  Forall (named_before j f) (file_id <$> data_files wf) ->
  NoDup (file_id <$> data_files wf') /\
  Forall (named_before j (S f)) (file_id <$> data_files wf').
Proof.
  intros wf' Hnd Hall.
  destruct (fill_file_data_files dummy_flops j f dinsize ubs xrd dflops dmem
              ed et wf) as (new & Hnew & _ & Hids).
  subst wf'. rewrite Hnew, fmap_app, Hids. split.
  - apply NoDup_app. split; [done|]. split.
    + intros id Hold Hin. rewrite Forall_forall in Hall.
      apply list_elem_of_fmap in Hin as (b & -> & _).
      destruct (Hall _ Hold) as [(j0 & f0 & b0 & Heq & H)|(j0 & Heq & _)].
      * apply block_name_inj in Heq. injection Heq as <- <- <-. lia.
      * by apply infile_name_not_outfile_name in Heq.
    + apply NoDup_fmap_2_strong; [|apply NoDup_seq].
      intros b b' _ _ Heq. apply block_name_inj in Heq. by injection Heq.
  - apply Forall_app. split.
    + eapply Forall_impl; [exact Hall|]. intros id.
      apply named_before_mono. right. split; [done|]. lia.
    + apply Forall_fmap, Forall_forall. intros b _. left.
      exists j, f, b. split; [done|]. right. split; [done|]. lia.
Qed.

Lemma files_loop_names (fuel n j f : nat) (ubs : bool) (xrd dflops dmem : Q)
    (ed et : option nat) (g : G) (wf : Workflow) xrd' ed' et' g' wf' :
  NoDup (file_id <$> data_files wf) ->
  Forall (named_before j f) (file_id <$> data_files wf) ->
  files_loop insize dummy_flops fuel n j f ubs xrd dflops dmem ed et g wf
  = Done (xrd', ed', et', g', wf') ->
  NoDup (file_id <$> data_files wf') /\
  Forall (named_before j (f + n)) (file_id <$> data_files wf').
Proof.
  revert f xrd ed et g wf.
  induction n as [|n IH]; intros f xrd ed et g wf Hnd Hall; simpl.
  - intros [= <- <- <- <- <-]. by rewrite Nat.add_0_r.
  - destruct (sample negative insize fuel g) as [[dinsize g1]| | |];
      try done. simpl.
    pose proof (fill_file_names j f dinsize ubs xrd dflops dmem ed et wf
                  Hnd Hall) as [Hnd1 Hall1].
    destruct (fill_file dummy_flops j f dinsize ubs xrd dflops dmem ed et wf)
      as [[[xrd1 ed1] et1] wf1].
    simpl in Hnd1, Hall1. intros Hrun.
    apply IH in Hrun; [|done|done].
    by replace (f + S n) with (S f + n) by lia.
Qed.

Lemma fill_job_names (fuel j ipt : nat) (ubs : bool) (xrd : Q) (g : G)
    (wf : Workflow) xrd' g' wf' :
  NoDup (file_id <$> data_files wf) ->
  Forall (named_before j 0) (file_id <$> data_files wf) ->
  fill_job flops mem insize dummy_flops fuel j ipt ubs xrd g wf
  = Done (xrd', g', wf') ->
  NoDup (file_id <$> data_files wf') /\
  Forall (named_before (S j) 0) (file_id <$> data_files wf').
Proof.
  intros Hnd Hall. unfold fill_job.
  destruct (sample negative flops fuel g) as [[dflops g1]| | |]; try done.
  simpl.
  destruct (sample negative mem fuel g1) as [[dmem g2]| | |]; try done.
  simpl.
  destruct (files_loop insize dummy_flops fuel ipt j 0 ubs xrd dflops dmem
              None None g2 wf)
    as [[[[[xrd1 ed1] et1] g3] wf1]| | |] eqn:Ef; try done.
  simpl. apply files_loop_names in Ef; [|done|done].
  destruct Ef as [Hnd1 Hall1].
  destruct et1 as [t|]; [|done]. intros [= <- <- <-].
  simpl. rewrite fmap_app. simpl. split.
  - apply NoDup_app. split; [done|]. split; [|apply NoDup_singleton].
    intros id Hold Hin. apply list_elem_of_singleton in Hin as ->.
    rewrite Forall_forall in Hall1.
    destruct (Hall1 _ Hold) as [(j0 & f0 & b0 & Heq & _)|(j0 & Heq & H)].
    + symmetry in Heq. by apply infile_name_not_outfile_name in Heq.
    + apply outfile_name_inj in Heq. lia.
  - apply Forall_app. split.
    + eapply Forall_impl; [exact Hall1|]. intros id.
      apply named_before_mono. left. lia.
    + constructor; [|constructor]. right. exists j. split; [done|]. lia.
Qed.

Lemma jobs_loop_names (fuel n j ipt : nat) (ubs : bool) (xrd : Q) (g : G)
    (wf : Workflow) g' wf' :
  NoDup (file_id <$> data_files wf) ->
  Forall (named_before j 0) (file_id <$> data_files wf) ->
  jobs_loop flops mem insize dummy_flops fuel n j ipt ubs xrd g wf
  = Done (g', wf') ->
  NoDup (file_id <$> data_files wf').
Proof.
  revert j xrd g wf.
  induction n as [|n IH]; intros j xrd g wf Hnd Hall; simpl.
  - by intros [= <- <-].
  - destruct (fill_job flops mem insize dummy_flops fuel j ipt ubs xrd g wf)
      as [[[xrd1 g1] wf1]| | |] eqn:Ejob; try done. simpl.
    apply fill_job_names in Ejob; [|done|done].
    destruct Ejob as [Hnd1 Hall1]. by apply IH.
Qed.
End FileNames.

(** X19. The file IDs of a workflow that the builder has filled are
    pairwise distinct: every input block "infile_j_file_f_block_b" and
    every output file "outfile_j" is added once. The workflow never sees
    a file ID a second time. *)
Theorem file_ids_are_distinct {G : Type}
    (flops mem insize : G -> Q * G) (dummy_flops : Q)
    (fuel num_jobs infiles_per_task : nat) (use_blockstreaming : bool)
    (xrd_block_size : Q) (gen gen' : G) (wf : Workflow) :
  fill_streaming_workflow flops mem insize dummy_flops fuel empty_workflow
    num_jobs infiles_per_task use_blockstreaming xrd_block_size gen
  = Done (gen', wf) ->
  NoDup (file_id <$> data_files wf).
Proof.
  unfold fill_streaming_workflow. intros Hrun.
  apply jobs_loop_names in Hrun; [done|apply NoDup_nil_2|constructor].
Qed.

Lemma file_ids_are_distinct_witness :
  NoDup (file_id <$> data_files (scenario_A_workflow 0 1200000 2000)).
Proof.
  apply (file_ids_are_distinct (constant 1200000%Q) (constant 2000%Q)
           (constant 2500000%Q) 0 0 1 1 true 1000000 tt tt).
  reflexivity.
Defined.

(** ** The tasks of a job, and its output file *)

Section JobGroups.
Context {G : Type}.
Variables flops mem insize : G -> Q * G.
Variable dummy_flops : Q.
Local Open Scope nat_scope.

Lemma file_tasks_job_task (j f first : nat) (sizes : list Q)
    (dinsize dflops dmem : Q) :
  Forall (job_task j)
    (file_tasks dummy_flops j f first sizes dinsize dflops dmem).
Proof.
  revert first. induction sizes as [|x sizes IH]; intros first; simpl.
  - constructor.
  - constructor; [|constructor; [|apply IH]].
    + split; [done|]. exists f, first. by left.
    + split; [done|]. exists f, first. by right.
Qed.

Lemma files_loop_tasks (fuel n j f : nat) (ubs : bool) (xrd dflops dmem : Q)
    (ed et : option nat) (g : G) (wf : Workflow) xrd' ed' et' g' wf' :
  files_loop insize dummy_flops fuel n j f ubs xrd dflops dmem ed et g wf
  = Done (xrd', ed', et', g', wf') ->
  exists new, tasks wf' = tasks wf ++ new /\ Forall (job_task j) new.
Proof.
  revert f xrd ed et g wf.
  induction n as [|n IH]; intros f xrd ed et g wf; simpl.
  - intros [= <- <- <- <- <-]. exists []. by rewrite app_nil_r.
  - destruct (sample negative insize fuel g) as [[dinsize g1]| | |];
      try done. simpl.
    pose proof (fill_file_tasks dummy_flops j f dinsize ubs xrd dflops dmem
                  ed et wf) as Ht.
    destruct (fill_file dummy_flops j f dinsize ubs xrd dflops dmem ed et wf)
      as [[[xrd1 ed1] et1] wf1].
    simpl in Ht. intros Hrun. apply IH in Hrun.
    destruct Hrun as (new & Hnew & Hall). rewrite Ht, <- app_assoc in Hnew.
    eexists. split; [exact Hnew|]. apply Forall_app. split; [|done].
    apply file_tasks_job_task.
Qed.

Lemma fill_job_tasks (fuel j ipt : nat) (ubs : bool) (xrd : Q) (g : G)
    (wf : Workflow) (pos : list block_pos) xrd' g' wf' :
  built wf pos -> before_job (last pos) j ->
  fill_job flops mem insize dummy_flops fuel j ipt ubs xrd g wf
  = Done (xrd', g', wf') ->
  exists ts, tasks wf' = tasks wf ++ ts /\ job_group j ts.
Proof.
  intros Hb Hbj. unfold fill_job.
  destruct (sample negative flops fuel g) as [[dflops g1]| | |]; try done.
  simpl.
  destruct (sample negative mem fuel g1) as [[dmem g2]| | |]; try done.
  simpl.
  pose proof (files_loop_built insize dummy_flops fuel ipt j 0 ubs xrd dflops
                dmem g2 wf pos) as HF.
  rewrite (chain_tail_before_job pos j Hbj) in HF. simpl in HF.
  destruct (files_loop insize dummy_flops fuel ipt j 0 ubs xrd dflops dmem
              None None g2 wf)
    as [[[[[xrd1 ed1] et1] g3] wf1]| | |] eqn:Ef; try done.
  simpl.
  destruct (HF _ _ _ _ _ Hb (before_job_before_file _ _ Hbj) eq_refl)
    as (pos' & Hb' & Hpre & _ & Het).
  apply files_loop_tasks in Ef. destruct Ef as (new & Hnew & Hall).
  destruct et1 as [t|]; [|done]. intros [= <- <- <-]. simpl.
  unfold chain_tail in Het.
  destruct (same_job (last pos') j) eqn:Esj; [|done].
  simpl in Het. injection Het as ->.
  apply same_job_true in Esj. destruct Esj as (f & b & Hlast).
  pose proof (built_length _ _ Hb) as Hlen.
  pose proof (built_length _ _ Hb') as Hlen'.
  apply last_Some in Hlast. destruct Hlast as [front ->].
  destruct Hb' as [Hn' _ _]. rewrite task_names_snoc in Hn'.
  destruct new as [|last body _] using rev_ind.
  - exfalso. rewrite app_nil_r in Hnew. rewrite Hnew, Hlen in Hlen'.
    assert (pos = front ++ [(j, f, b)]) as ->.
    { destruct Hpre as [ext Hext]. destruct ext as [|x ext].
      - by rewrite app_nil_r in Hext.
      - rewrite Hext, length_app in Hlen'. simpl in Hlen'. lia. }
    rewrite last_snoc in Hbj. unfold before_job, job_of in Hbj.
    simpl in Hbj. lia.
  - apply Forall_app in Hall. destruct Hall as [Hbody Hlast].
    inversion Hlast as [|? ? Hl _]; subst.
    rewrite Hnew, app_assoc. rewrite Hnew, app_assoc in Hn', Hlen'.
    match goal with
    | |- context [alter _ ?n _] =>
        replace n with (length (tasks wf ++ body))
    end.
    2:{ rewrite length_app in Hlen'. simpl in Hlen'. lia. }
    rewrite alter_snoc, <- app_assoc.
    eexists. split; [reflexivity|]. exists body, last.
    split; [done|]. split; [done|]. split; [done|].
    exists f, b. rewrite fmap_app in Hn'. simpl in Hn'.
    change [dummytask_name j f b; task_name j f b]
      with ([dummytask_name j f b] ++ [task_name j f b]) in Hn'.
    rewrite app_assoc in Hn'. by apply app_inj_tail in Hn' as [_ ?].
Qed.

Lemma jobs_loop_tasks (fuel n j ipt : nat) (ubs : bool) (xrd : Q) (g : G)
    (wf : Workflow) (pos : list block_pos) g' wf' :
  built wf pos -> before_job (last pos) j ->
  jobs_loop flops mem insize dummy_flops fuel n j ipt ubs xrd g wf
  = Done (g', wf') ->
  exists groups,
    length groups = n /\ tasks wf' = tasks wf ++ concat groups /\
    forall i ts, groups !! i = Some ts -> job_group (j + i) ts.
Proof.
  revert j xrd g wf pos.
  induction n as [|n IH]; intros j xrd g wf pos Hb Hbj; simpl.
  - intros [= <- <-]. exists []. rewrite app_nil_r. done.
  - destruct (fill_job flops mem insize dummy_flops fuel j ipt ubs xrd g wf)
      as [[[xrd1 g1] wf1]| | |] eqn:Ejob; try done. simpl.
    pose proof Ejob as Egroup.
    apply fill_job_tasks with (pos := pos) in Egroup; [|done|done].
    destruct Egroup as (ts & Hts & Hgroup).
    apply fill_job_built with (pos := pos) in Ejob; [|done|done].
    destruct Ejob as (pos1 & Hb1 & Hpre1 & p & Hlast & Hp).
    intros Hrun. apply IH with (pos := pos1) in Hrun; [|done|].
    2:{ rewrite Hlast. simpl. lia. }
    destruct Hrun as (groups & Hlen & Htasks & Hgroups).
    exists (ts :: groups). split; [simpl; lia|]. split.
    + rewrite Htasks, Hts, <- app_assoc. done.
    + intros [|i] ts' Hi; simpl in Hi.
      * injection Hi as <-. by rewrite Nat.add_0_r.
      * replace (j + S i) with (S j + i) by lia. by apply Hgroups.
Qed.
End JobGroups.

(** X20. The tasks of a filled workflow are the tasks of job 0, then the
    tasks of job 1, and so on, one group for every job. No group is
    empty. The last task of the group of job [j] is a task
    "task_j_file_f_block_b", never a dummy task, and has the output file
    "outfile_j" of size zero as its only output file; the other tasks of
    the group, dummy tasks and tasks of job [j], have no output file. *)
Theorem output_file_on_last_task {G : Type}
    (flops mem insize : G -> Q * G) (dummy_flops : Q)
    (fuel num_jobs infiles_per_task : nat) (use_blockstreaming : bool)
    (xrd_block_size : Q) (gen gen' : G) (wf : Workflow) :
  fill_streaming_workflow flops mem insize dummy_flops fuel empty_workflow
    num_jobs infiles_per_task use_blockstreaming xrd_block_size gen
  = Done (gen', wf) ->
  exists groups : list (list WorkflowTask),
    length groups = num_jobs /\ tasks wf = concat groups /\
    forall j ts, groups !! j = Some ts ->
      exists body last,
        ts = body ++ [last] /\
        Forall (fun t => output_files t = [] /\
                  exists f b, task_id t = dummytask_name j f b \/
                              task_id t = task_name j f b) body /\
        output_files last = [mkDataFile (outfile_name j) 0] /\
        exists f b, task_id last = task_name j f b.
Proof.
  unfold fill_streaming_workflow. intros Hrun.
  apply jobs_loop_tasks with (pos := []) in Hrun;
    [|apply built_empty|done].
  destruct Hrun as (groups & Hlen & Htasks & Hgroups).
  exists groups. split; [done|]. split; [done|].
  intros j ts Hj. destruct (Hgroups j ts Hj) as (body & last & -> & Hbody
    & [Hout _] & f & b & Hid).
  exists body, (add_output (mkDataFile (outfile_name j) 0) last).
  split; [done|]. split; [done|]. split.
  - simpl. by rewrite Hout.
  - by exists f, b.
Qed.

Lemma output_file_on_last_task_witness :
  exists groups : list (list WorkflowTask),
    length groups = 1%nat /\
    tasks (scenario_A_workflow 0 1200000 2000) = concat groups /\
    forall j ts, groups !! j = Some ts ->
      exists body last,
        ts = body ++ [last] /\
        Forall (fun t => output_files t = [] /\
                  exists f b, task_id t = dummytask_name j f b \/
                              task_id t = task_name j f b) body /\
        output_files last = [mkDataFile (outfile_name j) 0] /\
        exists f b, task_id last = task_name j f b.
Proof.
  apply (output_file_on_last_task (constant 1200000%Q) (constant 2000%Q)
           (constant 2500000%Q) 0 0 1 1 true 1000000 tt tt).
  reflexivity.
Defined.

(** * The builder and the staging loop, whatever the arithmetic *)

Section MachineBuilder.
Context {G : Type}.
Variable ops : double_arithmetic.
Variables flops mem insize : G -> Q * G.
Variable dummy_flops : Q.
Local Open Scope nat_scope.

(** [Machine.add_block] in closed form. *)
Lemma machine_add_block_eq (j f b : nat) (blocksize dinsize dflops dmem : Q)
    (dp tp : option nat) (wf : Workflow) :
  Machine.add_block ops dummy_flops j f b blocksize dinsize dflops dmem dp tp
    wf
  = (length (tasks wf), S (length (tasks wf)),
     mkWorkflow
       (tasks wf
          ++ block_tasks ops dummy_flops j f dinsize dflops dmem b
               (mkDataFile (infile_name j f b) blocksize))
       (data_files wf ++ [mkDataFile (infile_name j f b) blocksize])
       (control_deps wf
          ++ parent_dep dp (length (tasks wf))
          ++ [(length (tasks wf), S (length (tasks wf)))]
          ++ parent_dep tp (S (length (tasks wf))))).
Proof.
  unfold Machine.add_block, addTask, addFile, addInputFile, block_tasks.
  simpl. rewrite alter_snoc.
  destruct dp, tp; unfold addControlDependency; simpl;
    rewrite ?length_app; simpl; rewrite ?Nat.add_1_r, <- ?app_assoc;
    reflexivity.
Qed.

Lemma tasks_of_blocks_app (j f : nat) (dinsize dflops dmem : Q) (first : nat)
    (l1 l2 : list DataFile) :
  tasks_of_blocks ops dummy_flops j f dinsize dflops dmem first (l1 ++ l2)
  = tasks_of_blocks ops dummy_flops j f dinsize dflops dmem first l1
      ++ tasks_of_blocks ops dummy_flops j f dinsize dflops dmem
           (first + length l1) l2.
Proof.
  revert first. induction l1 as [|x l1 IH]; intros first; simpl.
  - by rewrite Nat.add_0_r.
  - rewrite IH.
    replace (S first + length l1) with (first + S (length l1)) by lia.
    done.
Qed.

Lemma tasks_of_blocks_length (j f : nat) (dinsize dflops dmem : Q)
    (first : nat) (files : list DataFile) :
  length (tasks_of_blocks ops dummy_flops j f dinsize dflops dmem first files)
  = 2 * length files.
Proof.
  revert first. induction files as [|x files IH]; intros first; simpl.
  - done.
  - rewrite IH. lia.
Qed.

Lemma tasks_of_blocks_lookup (j f : nat) (dinsize dflops dmem : Q)
    (first b : nat) (files : list DataFile) (file : DataFile) :
  files !! b = Some file ->
  tasks_of_blocks ops dummy_flops j f dinsize dflops dmem first files
    !! (2 * b)
  = Some (mkTask (dummytask_name j f (first + b)) dummy_flops 1 1 dummy_flops
            [file] []) /\
  tasks_of_blocks ops dummy_flops j f dinsize dflops dmem first files
    !! (2 * b + 1)
  = Some (mkTask (task_name j f (first + b))
            (ddiv ops (dmul ops dflops (file_size file)) dinsize) 1 1 dmem
            [] []).
Proof.
  revert first b. induction files as [|x files IH]; intros first b Hb.
  - done.
  - destruct b as [|b]; simpl in Hb.
    + injection Hb as ->. rewrite Nat.add_0_r. done.
    + replace (2 * S b) with (S (S (2 * b))) by lia.
      replace (S (S (2 * b)) + 1) with (S (S (2 * b + 1))) by lia.
      replace (first + S b) with (S first + b) by lia.
      simpl. by apply IH.
Qed.

Lemma block_files_cons (j f b n : nat) (size : Q) :
  block_files j f b (S n) size
  = mkDataFile (infile_name j f b) size :: block_files j f (S b) n size.
Proof. reflexivity. Qed.

Lemma machine_full_blocks (n j f b nblocks : nat)
    (xrd dinsize dflops dmem : Q) (c : chain) (wf : Workflow) :
  let r := Machine.full_blocks ops dummy_flops n j f b nblocks xrd dinsize
             dflops dmem c wf in
  data_files r.2 = data_files wf ++ block_files j f b n xrd /\
  tasks r.2
  = tasks wf
      ++ tasks_of_blocks ops dummy_flops j f dinsize dflops dmem b
           (block_files j f b n xrd).
Proof.
  revert b c wf. induction n as [|n IH]; intros b c wf.
  - simpl. by rewrite !app_nil_r.
  - cbn [Machine.full_blocks]. rewrite machine_add_block_eq.
    cbv beta iota zeta.
    match goal with
    | |- context [Machine.full_blocks ops dummy_flops n j f (S b) nblocks xrd
                    dinsize dflops dmem ?c1 ?wf1] =>
        destruct (IH (S b) c1 wf1) as [Hd Ht]
    end.
    cbv zeta in Hd, Ht. rewrite Hd, Ht. cbn [data_files tasks].
    rewrite block_files_cons, <- !app_assoc. done.
Qed.

Lemma machine_fill_file (j f : nat) (dinsize : Q) (ubs : bool)
    (xrd dflops dmem : Q) (ed et : option nat) (wf : Workflow) :
  let size := if ubs then xrd else dinsize in
  let r := Machine.fill_file ops dummy_flops j f dinsize ubs xrd dflops dmem
             ed et wf in
  data_files r.2 = data_files wf ++ file_blocks ops j f dinsize size /\
  tasks r.2
  = tasks wf
      ++ tasks_of_blocks ops dummy_flops j f dinsize dflops dmem 0
           (file_blocks ops j f dinsize size) /\
  r.1.1.1 = size.
Proof.
  intros size. unfold Machine.fill_file, file_blocks. fold size.
  set (nblocks := Qto_size_t (ddiv ops dinsize size)).
  match goal with
  | |- context [Machine.full_blocks _ _ _ _ _ _ _ _ _ _ _ ?c wf] =>
      set (c0 := c)
  end.
  destruct (machine_full_blocks nblocks j f 0 nblocks size dinsize dflops
              dmem c0 wf) as [Hd Ht].
  cbv zeta in Hd, Ht.
  destruct (Machine.full_blocks ops dummy_flops nblocks j f 0 nblocks size
              dinsize dflops dmem c0 wf) as [c' wf1].
  simpl in Hd, Ht. cbv zeta.
  assert (length (block_files j f 0 nblocks size) = nblocks) as Hlen.
  { unfold block_files. by rewrite length_fmap, length_seq. }
  destruct (Qeq_bool _ 0).
  - simpl. by rewrite !app_nil_r.
  - rewrite machine_add_block_eq. simpl.
    rewrite Hd, Ht, tasks_of_blocks_app, Hlen, <- !app_assoc. simpl.
    by rewrite ?app_nil_r.
Qed.

Lemma file_blocks_ids (j f : nat) (dinsize size : Q) :
  file_id <$> file_blocks ops j f dinsize size
  = infile_name j f <$> seq 0 (length (file_blocks ops j f dinsize size)).
Proof.
  unfold file_blocks.
  set (nblocks := Qto_size_t (ddiv ops dinsize size)).
  assert (file_id <$> block_files j f 0 nblocks size
          = infile_name j f <$> seq 0 nblocks) as Hids.
  { unfold block_files. rewrite <- list_fmap_compose. done. }
  assert (length (block_files j f 0 nblocks size) = nblocks) as Hlen.
  { unfold block_files. by rewrite length_fmap, length_seq. }
  rewrite fmap_app, length_app, Hlen, Hids.
  destruct (Qeq_bool _ 0); simpl.
  - by rewrite Nat.add_0_r, app_nil_r.
  - by rewrite Nat.add_1_r, seq_S, fmap_app.
Qed.

(** The shape of the tasks *)

Lemma tasks_of_blocks_built (j f : nat) (dinsize dflops dmem : Q)
    (first : nat) (files : list DataFile) :
  Forall (built_task dummy_flops)
    (tasks_of_blocks ops dummy_flops j f dinsize dflops dmem first files).
Proof.
  revert first. induction files as [|x files IH]; intros first; simpl.
  - constructor.
  - constructor; [|constructor; [|apply IH]].
    + unfold built_task. simpl. split_and!; try done.
      right. by exists x.
    + unfold built_task. simpl. split_and!; try done. by left.
Qed.

Lemma add_output_built (id : string) (t : WorkflowTask) :
  built_task dummy_flops t ->
  built_task dummy_flops (add_output (mkDataFile id 0) t).
Proof.
  intros (Hmin & Hmax & Hin & Hout).
  unfold built_task. simpl. split_and!; try done.
  apply Forall_app. split; [done|]. by constructor.
Qed.

Lemma machine_files_loop_built (fuel n j f : nat) (ubs : bool)
    (xrd dflops dmem : Q) (ed et : option nat) (g : G) (wf : Workflow)
    xrd' ed' et' g' wf' :
  Forall (built_task dummy_flops) (tasks wf) ->
  Machine.files_loop ops insize dummy_flops fuel n j f ubs xrd dflops dmem
    ed et g wf
  = Done (xrd', ed', et', g', wf') ->
  Forall (built_task dummy_flops) (tasks wf').
Proof.
  revert f xrd ed et g wf.
  induction n as [|n IH]; intros f xrd ed et g wf Hwf; simpl.
  - by intros [= <- <- <- <- <-].
  - destruct (sample negative insize fuel g) as [[dinsize g1]| | |];
      try done. simpl.
    destruct (machine_fill_file j f dinsize ubs xrd dflops dmem ed et wf)
      as (_ & Ht & _).
    cbv zeta in Ht.
    destruct (Machine.fill_file ops dummy_flops j f dinsize ubs xrd dflops
                dmem ed et wf) as [[[xrd1 ed1] et1] wf1].
    simpl in Ht. intros Hrun. apply IH in Hrun; [done|].
    rewrite Ht. apply Forall_app. split; [done|].
    apply tasks_of_blocks_built.
Qed.

Lemma machine_fill_job_built (fuel j ipt : nat) (ubs : bool) (xrd : Q)
    (g : G) (wf : Workflow) xrd' g' wf' :
  Forall (built_task dummy_flops) (tasks wf) ->
  Machine.fill_job ops flops mem insize dummy_flops fuel j ipt ubs xrd g wf
  = Done (xrd', g', wf') ->
  Forall (built_task dummy_flops) (tasks wf').
Proof.
  intros Hwf. unfold Machine.fill_job.
  destruct (sample negative flops fuel g) as [[dflops g1]| | |]; try done.
  simpl.
  destruct (sample negative mem fuel g1) as [[dmem g2]| | |]; try done.
  simpl.
  destruct (Machine.files_loop ops insize dummy_flops fuel ipt j 0 ubs xrd
              dflops dmem None None g2 wf)
    as [[[[[xrd1 ed1] et1] g3] wf1]| | |] eqn:Ef; try done.
  simpl. apply machine_files_loop_built in Ef; [|done].
  destruct et1 as [t|]; [|done]. intros [= <- <- <-].
  simpl. apply Forall_alter; [done|].
  intros x _. apply add_output_built.
Qed.

Lemma machine_jobs_loop_built (fuel n j ipt : nat) (ubs : bool) (xrd : Q)
    (g : G) (wf : Workflow) g' wf' :
  Forall (built_task dummy_flops) (tasks wf) ->
  Machine.jobs_loop ops flops mem insize dummy_flops fuel n j ipt ubs xrd g
    wf
  = Done (g', wf') ->
  Forall (built_task dummy_flops) (tasks wf').
Proof.
  revert j xrd g wf.
  induction n as [|n IH]; intros j xrd g wf Hwf; simpl.
  - by intros [= <- <-].
  - destruct (Machine.fill_job ops flops mem insize dummy_flops fuel j ipt
                ubs xrd g wf)
      as [[[xrd1 g1] wf1]| | |] eqn:Ejob; try done. simpl.
    apply machine_fill_job_built in Ejob; [|done]. by apply IH.
Qed.

(** On the exact operations the builder of [Machine] is the builder of
    the first part. *)
Lemma machine_exact_fill_file (j f : nat) (dinsize : Q) (ubs : bool)
    (xrd dflops dmem : Q) (ed et : option nat) (wf : Workflow) :
  Machine.fill_file exact dummy_flops j f dinsize ubs xrd dflops dmem ed et
    wf
  = fill_file dummy_flops j f dinsize ubs xrd dflops dmem ed et wf.
Proof. reflexivity. Qed.

Lemma machine_exact_builder (fuel : nat) (workflow : Workflow)
    (num_jobs infiles_per_task : nat) (ubs : bool) (xrd : Q) (gen : G) :
  Machine.fill_streaming_workflow exact flops mem insize dummy_flops fuel
    workflow num_jobs infiles_per_task ubs xrd gen
  = fill_streaming_workflow flops mem insize dummy_flops fuel workflow
      num_jobs infiles_per_task ubs xrd gen.
Proof. reflexivity. Qed.
End MachineBuilder.

Section MachineStaging.
Variable ops : double_arithmetic.

(** Once the test of line 379 has failed it fails for the rest of the
    task: [cached_files_size] changes in its true branch only. *)
Lemma machine_stage_files_closed (hitrate incr : Q) (remote : StorageService)
    (caches : list StorageService) (files : list DataFile) (cached : Q)
    (staged : list (DataFile * StorageService)) :
  Qle_bool cached (dmul ops hitrate incr) = false ->
  Machine.stage_files ops hitrate incr remote caches files cached staged
  = staged ++ (on_remote remote <$> files).
Proof.
  intros Hc. revert staged.
  induction files as [|f files IH]; intros staged; simpl.
  - by rewrite app_nil_r.
  - rewrite Hc, IH. unfold stageFile. by rewrite <- app_assoc.
Qed.

Lemma machine_stage_files_split (hitrate incr : Q) (remote : StorageService)
    (caches : list StorageService) (files : list DataFile) (cached : Q)
    (staged : list (DataFile * StorageService)) :
  exists k : nat,
    (k <= length files)%nat /\
    Machine.stage_files ops hitrate incr remote caches files cached staged
    = staged ++ (take k files ≫= on_all remote caches)
        ++ (on_remote remote <$> drop k files) /\
    (forall i : nat, (i < k)%nat ->
       Qle_bool (Machine.cached_size ops cached (take i files))
         (dmul ops hitrate incr) = true) /\
    ((k < length files)%nat ->
     Qle_bool (Machine.cached_size ops cached (take k files))
       (dmul ops hitrate incr) = false).
Proof.
  revert cached staged.
  induction files as [|f files IH]; intros cached staged.
  - exists 0%nat. simpl. rewrite app_nil_r. split; [done|]. split; [done|].
    split; intros; lia.
  - cbn [Machine.stage_files].
    destruct (Qle_bool cached (dmul ops hitrate incr)) eqn:Ec.
    + destruct (IH (dadd ops cached (file_size f))
                  (fold_left (fun st cache => stageFile f cache st) caches
                     (stageFile f remote staged)))
        as (k & Hk & Heq & Hlo & Hhi).
      exists (S k). split; [simpl; lia|]. split; [|split].
      * rewrite Heq, stage_caches_eq. unfold stageFile, on_all. simpl.
        rewrite <- !app_assoc. done.
      * intros [|i] Hi; [exact Ec|]. apply (Hlo i). lia.
      * intros Hlt. apply Hhi. simpl in Hlt. lia.
    + exists 0%nat. split; [lia|]. split; [|split].
      * rewrite (machine_stage_files_closed _ _ _ _ _ _ _ Ec).
        unfold stageFile. simpl. by rewrite <- app_assoc.
      * intros i Hi. lia.
      * intros _. exact Ec.
Qed.

Lemma machine_exact_stage_files (hitrate incr : Q) (remote : StorageService)
    (caches : list StorageService) (files : list DataFile) (cached : Q)
    (staged : list (DataFile * StorageService)) :
  Machine.stage_files exact hitrate incr remote caches files cached staged
  = stage_files hitrate incr remote caches files cached staged.
Proof. reflexivity. Qed.
End MachineStaging.

(** ** What holds of the blocks, the tasks and the staging on any
       arithmetic *)

(** X11. The input blocks of one file, whatever the operations on doubles
    return. With [size] the effective block size (the configured one, or
    the file size when block streaming is off), [nblocks] the quotient
    [dinsize / size] as the machine computes and converts it, and [rest]
    the machine's [dinsize - nblocks * size], the builder adds the files
    "infile_j_file_f_block_0", "..._block_1", ... and no other: [nblocks]
    blocks of exactly [size] and then, only if [rest] is not zero, one
    block of size [rest]. No block of size zero is added unless the
    block size itself is zero. Nothing is said about the sign of [rest]
    or about the sum of the sizes: they depend on the rounding. *)
Theorem file_is_cut_into_blocks (ops : double_arithmetic) (dummy_flops : Q)
    (j f : nat) (dinsize : Q) (use_blockstreaming : bool)
    (xrd_block_size dflops dmem : Q) (enddummytask0 endtask0 : option nat)
    (wf : Workflow) :
  let size := if use_blockstreaming then xrd_block_size else dinsize in
  let nblocks := Qto_size_t (ddiv ops dinsize size) in
  let rest := dsub ops dinsize (dmul ops (dof_size_t ops nblocks) size) in
  exists new,
    data_files
      (Machine.fill_file ops dummy_flops j f dinsize use_blockstreaming
         xrd_block_size dflops dmem enddummytask0 endtask0 wf).2
    = data_files wf ++ new /\
    file_id <$> new = infile_name j f <$> seq 0 (length new) /\
    length new = (nblocks + if Qeq_bool rest 0 then 0 else 1)%nat /\
    (forall b x, new !! b = Some x -> (b < nblocks)%nat ->
       file_size x = size) /\
    (forall x, new !! nblocks = Some x ->
       file_size x = rest /\ ~ (rest == 0)%Q) /\
    (~ (size == 0)%Q -> Forall (fun x => ~ (file_size x == 0)%Q) new).
Proof.
  intros size nblocks rest.
  destruct (machine_fill_file ops dummy_flops j f dinsize use_blockstreaming
              xrd_block_size dflops dmem enddummytask0 endtask0 wf)
    as (Hd & _ & _).
  cbv zeta in Hd. fold size in Hd.
  exists (file_blocks ops j f dinsize size). split; [exact Hd|].
  split; [apply file_blocks_ids|].
  unfold file_blocks. fold nblocks. fold rest.
  assert (length (block_files j f 0 nblocks size) = nblocks) as Hlen.
  { unfold block_files. by rewrite length_fmap, length_seq. }
  assert (forall b x, block_files j f 0 nblocks size !! b = Some x ->
            file_size x = size) as Hfull.
  { intros b x Hb. unfold block_files in Hb.
    apply list_lookup_fmap_Some in Hb. by destruct Hb as (? & -> & _). }
  split; [|split; [|split]].
  - rewrite length_app, Hlen. by destruct (Qeq_bool rest 0).
  - intros b x Hb Hlt. rewrite lookup_app_l in Hb by lia. by apply Hfull in Hb.
  - intros x Hx. rewrite lookup_app_r in Hx by lia.
    rewrite Hlen, Nat.sub_diag in Hx.
    destruct (Qeq_bool rest 0) eqn:E; [done|].
    simpl in Hx. injection Hx as <-. split; [done|].
    by apply Qeq_bool_neq.
  - intros Hsize. apply Forall_app. split.
    + apply Forall_forall. intros x Hx.
      apply list_elem_of_lookup in Hx. destruct Hx as [b Hb].
      by rewrite (Hfull b x Hb).
    + destruct (Qeq_bool rest 0) eqn:E; constructor; [|constructor].
      simpl. by apply Qeq_bool_neq.
Qed.

(** X12. The tasks of one file follow its blocks, whatever the operations
    on doubles return. For the block with number [b] and file [file] the
    builder adds two tasks, in the order of the blocks: the dummy task
    "dummytask_j_file_f_block_b" with flops and memory [dummy_flops], one
    core, and [file] as its only input file; then the task
    "task_j_file_f_block_b" with memory [dmem], one core, no input file,
    and the flops that the machine computes as
    [dflops * size of the block / dinsize]. The tasks that were there
    stay as they are, and no other task is added. *)
Theorem tasks_follow_the_blocks (ops : double_arithmetic) (dummy_flops : Q)
    (j f : nat) (dinsize : Q) (use_blockstreaming : bool)
    (xrd_block_size dflops dmem : Q) (enddummytask0 endtask0 : option nat)
    (wf : Workflow) :
  let r := Machine.fill_file ops dummy_flops j f dinsize use_blockstreaming
             xrd_block_size dflops dmem enddummytask0 endtask0 wf in
  exists new added,
    data_files r.2 = data_files wf ++ new /\
    tasks r.2 = tasks wf ++ added /\
    length added = (2 * length new)%nat /\
    forall b file, new !! b = Some file ->
      file_id file = infile_name j f b /\
      added !! (2 * b)%nat
      = Some (mkTask (dummytask_name j f b) dummy_flops 1 1 dummy_flops
                [file] []) /\
      added !! (2 * b + 1)%nat
      = Some (mkTask (task_name j f b)
                (ddiv ops (dmul ops dflops (file_size file)) dinsize) 1 1
                dmem [] []).
Proof.
  intros r. subst r.
  destruct (machine_fill_file ops dummy_flops j f dinsize use_blockstreaming
              xrd_block_size dflops dmem enddummytask0 endtask0 wf)
    as (Hd & Ht & _).
  cbv zeta in Hd, Ht.
  set (size := if use_blockstreaming then xrd_block_size else dinsize) in *.
  exists (file_blocks ops j f dinsize size),
    (tasks_of_blocks ops dummy_flops j f dinsize dflops dmem 0
       (file_blocks ops j f dinsize size)).
  split; [exact Hd|]. split; [exact Ht|].
  split; [apply tasks_of_blocks_length|].
  intros b file Hb. split.
  - pose proof (file_blocks_ids ops j f dinsize size) as Hids.
    apply (f_equal (fun l => l !! b)) in Hids.
    rewrite !list_lookup_fmap, Hb in Hids. simpl in Hids.
    rewrite lookup_seq_lt in Hids; [by injection Hids|].
    by apply lookup_lt_Some in Hb.
  - by apply (tasks_of_blocks_lookup ops dummy_flops j f dinsize dflops dmem
                0 b).
Qed.

(** X15. The content of the tasks, whatever the operations on doubles
    return. When the builder returns, every task it has added has one
    core as its minimum and as its maximum and output files of size zero
    only; it has no input file, or exactly one, and then it is a dummy
    task: its flops and its memory are [dummy_flops]. The tasks that were
    in the workflow before are taken to be of this kind. *)
Theorem builder_tasks_shape {G : Type} (ops : double_arithmetic)
    (flops mem insize : G -> Q * G) (dummy_flops : Q)
    (fuel num_jobs infiles_per_task : nat) (use_blockstreaming : bool)
    (xrd_block_size : Q) (gen gen' : G) (workflow wf : Workflow) :
  Forall (built_task dummy_flops) (tasks workflow) ->
  Machine.fill_streaming_workflow ops flops mem insize dummy_flops fuel
    workflow num_jobs infiles_per_task use_blockstreaming xrd_block_size gen
  = Done (gen', wf) ->
  Forall (built_task dummy_flops) (tasks wf).
Proof.
  unfold Machine.fill_streaming_workflow. intros Hwf Hrun.
  by apply machine_jobs_loop_built in Hrun.
Qed.

Lemma builder_tasks_shape_witness :
  length (tasks rounded_workflow) = 36%nat /\
  Forall (built_task 0) (tasks rounded_workflow).
Proof.
  split; [reflexivity|].
  apply (builder_tasks_shape binary64 (constant 1200000%Q) (constant 2000%Q)
           (constant (double_of (17 # 10))) 0 0 1 1 true
           (double_of (1 # 10)) tt tt empty_workflow).
  - constructor.
  - vm_compute. reflexivity.
Defined.

(** X16. Which files a task gets on the caches, whatever the operations
    on doubles return. The staging of the (shuffled) input files of a
    task puts every file on the remote storage service, and a prefix of
    the files on every cache as well, each right after its staging on the
    remote service. The prefix ends at the first file at which the
    machine's test [cached_files_size <= hitrate * incr_inputfile_size]
    fails, where [cached_files_size] is the sum that the machine has added
    up over the files before, and is the whole list if the test fails
    nowhere: once the test has failed it fails for the rest of the
    task. *)
Theorem cached_files_are_a_prefix (ops : double_arithmetic)
    (hitrate incr : Q) (remote : StorageService)
    (caches : list StorageService) (files : list DataFile)
    (staged : list (DataFile * StorageService)) :
  exists k : nat,
    (k <= length files)%nat /\
    Machine.stage_files ops hitrate incr remote caches files 0 staged
    = staged ++ (take k files ≫= on_all remote caches)
        ++ (on_remote remote <$> drop k files) /\
    (forall i : nat, (i < k)%nat ->
       Qle_bool (Machine.cached_size ops 0 (take i files))
         (dmul ops hitrate incr) = true) /\
    ((k < length files)%nat ->
     Qle_bool (Machine.cached_size ops 0 (take k files))
       (dmul ops hitrate incr) = false).
Proof.
  destruct (machine_stage_files_split ops hitrate incr remote caches files 0
              staged) as (k & Hk & Heq & Hlo & Hhi).
  exists k. split; [exact Hk|]. split; [exact Heq|]. split.
  - intros i Hi. by apply Hlo.
  - intros Hlt. by apply Hhi.
Qed.

(** ** Where the exact and the rounded operations part ways *)

(** A file of 1.7 in blocks of 0.1. On binary64 the quotient is 17, the
    rest is below zero and the builder adds eighteen blocks, the last of
    a negative size; their sizes do not add up to the size of the file.
    On the exact operations the same two doubles give sixteen full blocks
    and a rest above zero. *)
Lemma rounding_adds_a_negative_block :
  let dinsize := double_of (17 # 10) in
  let size := double_of (1 # 10) in
  length (file_blocks binary64 0 0 dinsize size) = 18%nat /\
  (exists x, last (file_blocks binary64 0 0 dinsize size) = Some x /\
             (file_size x < 0)%Q) /\
  ~ (Qsum (file_size <$> file_blocks binary64 0 0 dinsize size)
     == dinsize)%Q /\
  length (file_blocks exact 0 0 dinsize size) = 17%nat /\
  exists x, last (file_blocks exact 0 0 dinsize size) = Some x /\
            (0 < file_size x)%Q.
Proof.
  cbv zeta. split; [vm_compute; reflexivity|]. split.
  { eexists. split; [vm_compute; reflexivity|]. reflexivity. }
  split.
  { intros H. apply Qeq_bool_iff in H. vm_compute in H. discriminate. }
  split; [vm_compute; reflexivity|].
  eexists. split; [vm_compute; reflexivity|]. reflexivity.
Qed.

(** Three files of 0.2, 0.1 and 0.3 and a hit rate of 0.5. On binary64
    the test holds at the third file too and all three go to the cache;
    on the exact operations the third does not. *)
Lemma rounding_caches_a_third_file :
  let files := [mkDataFile "a" (double_of (2 # 10));
                mkDataFile "b" (double_of (1 # 10));
                mkDataFile "c" (double_of (3 # 10))] in
  Machine.stage_files binary64 (1 # 2) (Machine.cached_size binary64 0 files)
    "remote" ["cache"] files 0 []
  = files ≫= on_all "remote" ["cache"] /\
  Machine.stage_files exact (1 # 2) (Machine.cached_size exact 0 files)
    "remote" ["cache"] files 0 []
  = (take 2 files ≫= on_all "remote" ["cache"])
      ++ (on_remote "remote" <$> drop 2 files).
Proof. cbv zeta. split; vm_compute; reflexivity. Qed.
